(** * flexx.ui.app.app: the application manager and the proxy life cycle

    A shallow embedding of [src/flexx/ui/app/app.py]: the port derivation
    function [port_hash], the server bootstrap [init_server], the [Proxy]
    class (command buffer, channel attachment, class registration) and the
    [AppManager] registry, followed by the properties proved about them.

    Python objects that are shared and mutated (proxies, web sockets) live
    in stores indexed by their identity; exceptions are values of [exn] and
    a raising call keeps the mutations made before the raise. *)

From Stdlib Require Import ZArith Ascii String.
From stdpp Require Import gmap strings list fin_maps.

Local Open Scope string_scope.
Local Open Scope list_scope.

(** ** Strings *)

Module PyStr.

(** [ord(c)] for the characters of a [string] (code points below 256). *)
Definition ord (c : ascii) : Z := Z.of_N (Ascii.N_of_ascii c).

Definition ords (s : string) : list Z := ord <$> String.list_ascii_of_string s.

Definition digit (d : N) (base16 : bool) : ascii :=
  if (d <? 10)%N then Ascii.ascii_of_N (48 + d)
  else if base16 then Ascii.ascii_of_N (87 + d) else "?"%char.

(** Digits of [n] in base [b], most significant first; [fuel] bounds the
    number of digits and [acc] collects them. *)
Fixpoint digits (fuel : nat) (b : N) (n : N) (acc : string) : string :=
  match fuel with
  | O => acc
  | S fuel' =>
      let acc' := String (digit (n mod b) (b =? 16)%N) acc in
      if (n / b =? 0)%N then acc' else digits fuel' b (n / b) acc'
  end.

(** ['%i' % n] for a natural number. *)
Definition fmt_i (n : N) : string := digits (S (N.to_nat (N.log2 n))) 10 n "".

(** ['%x' % n] for a natural number. *)
Definition fmt_x (n : N) : string := digits (S (N.to_nat (N.log2 n))) 16 n "".

(** The characters [str.isspace] accepts, among code points below 256. *)
Definition isspace (c : ascii) : bool :=
  let n := Ascii.N_of_ascii c in
  ((9 <=? n) && (n <=? 13) || (28 <=? n) && (n <=? 32)
   || (n =? 133) || (n =? 160))%N.

Fixpoint lstrip (s : string) : string :=
  match s with
  | String c s' => if isspace c then lstrip s' else s
  | EmptyString => EmptyString
  end.

(** [s.rstrip()]: a whitespace character is dropped when everything after
    it has been dropped. *)
Fixpoint rstrip (s : string) : string :=
  match s with
  | String c s' =>
      match rstrip s' with
      | EmptyString => if isspace c then EmptyString else String c EmptyString
      | r => String c r
      end
  | EmptyString => EmptyString
  end.

Definition strip (s : string) : string := rstrip (lstrip s).

(** Truth value of a string: non-empty. *)
Definition truthy (s : string) : bool :=
  match s with EmptyString => false | _ => true end.

End PyStr.

(** ** port_hash *)

Definition fac : Z := 0xd2d84a61.

(** One round of the loop body [val += (val>>3) + (ord(c)*fac)]. *)
Definition port_hash_round (val : Z) (c : Z) : Z :=
  (val + (Z.shiftr val 3 + c * fac))%Z.

(** [port_hash] on the code points of [name]. *)
Definition port_hash_ords (name : list Z) : Z :=
  let val := fold_left port_hash_round name 0%Z in
  let val := (val + (Z.shiftr val 3 + Z.of_nat (length name) * fac))%Z in
  (49152 + val mod 2 ^ 14)%Z.

Definition port_hash (name : string) : Z := port_hash_ords (PyStr.ords name).

(** The seed of the [i]-th candidate port, ['flexx+%i' % i]. *)
Definition seed (i : nat) : string := "flexx+" +:+ PyStr.fmt_i (N.of_nat i).

(** ** Exceptions, and computations with state and exceptions *)

(** The texts of the errors the module raises itself. *)
Inductive message :=
| NotAMirroredClass                 (* 'Not a Mirrored class' *)
| AlreadyConnected                  (* 'Cannot add proxy instances that are/were already connected' *)
| AppIdNotFound (app_id : string)   (* 'Asked for app id %r, but could not find it' *)
| NoFreeAddress                     (* 'Could not bind to free address' *)
| AppIsClosed                       (* 'Cannot send commands; app is closed' *)
| AppNotConnected.                  (* 'App not connected' *)

Inductive exn :=
| AssertionError
| KeyError (key : string)
| AttributeError (attr : string)
| ValueError (msg : message)
| RuntimeError (msg : message)
| OSError
| RecursionError       (* the recursion depth is used up *)
| ReferenceError.      (* an identity with no object in the store *)

(** A computation over a state [S]: it ends in a value or in an exception,
    and in both cases leaves a state behind. *)
Definition M (S A : Type) : Type := S → (exn + A) * S.

Definition ret {S A} (a : A) : M S A := λ s, (inr a, s).

Definition raise {S A} (e : exn) : M S A := λ s, (inl e, s).

Definition bind {S A B} (m : M S A) (k : A → M S B) : M S B :=
  λ s, match m s with
       | (inr a, s') => k a s'
       | (inl e, s') => (inl e, s')
       end.

Definition gets {S A} (f : S → A) : M S A := λ s, (inr (f s), s).

Definition modify {S} (f : S → S) : M S unit := λ s, (inr tt, f s).

(** [assert b], with assertions enabled. *)
Definition assert_ {S} (b : bool) : M S unit :=
  if b then ret tt else raise AssertionError.

(** [try: m except OSError: handler]. *)
Definition except_OSError {S A} (m : M S A) (handler : M S A) : M S A :=
  λ s, match m s with
       | (inl OSError, s') => handler s'
       | r => r
       end.

Notation "'let*' x ':=' m 'in' k" := (bind m (λ x, k))
  (at level 10, x pattern, m at level 100, k at level 200, only parsing).

Notation "m '>>' k" := (bind m (λ _, k))
  (at level 100, k at level 200, right associativity, only parsing).

(** ** Objects *)

(** Identity of a class object (or of whatever is passed for one). *)
Definition Cls := positive.

(** Identity of a [Proxy] object, [id(self)]. *)
Definition addr := positive.

(** Identity of a channel: a web socket handed in by the server, or the
    [Exporter] a proxy creates for itself. *)
Inductive chan :=
| WebSocket (n : positive)
| ExporterOf (proxy : addr).

Global Instance chan_eq_dec : EqDecision chan.
Proof. solve_decision. Defined.

(** What the module uses of a channel: [close_code], and [command(text)],
    which the model records in [sent]. *)
Record Channel := {
  close_code : option Z;
  sent : list string
}.

(** The handle [webruntime.launch] returns; its [close()] ends the
    process and has no access to the proxy or to the channels. *)
Record Runtime := {
  runtime_kind : string;
  runtime_url : string;
  runtime_closed : bool
}.

(** An application object [cls(_proxy=proxy)]; [widget_bool] is its truth
    value. *)
Record Widget := {
  widget_class : Cls;
  widget_bool : bool
}.

Record Proxy := {
  _app_name : string;
  _runtime : option Runtime;
  _ws : option chan;
  _widget : option Widget;
  _known_mirrored_classes : gset Cls;
  _pending_commands : list string
}.

Inductive Status := PENDING | CONNECTED | CLOSED.

Global Instance Status_eq_dec : EqDecision Status.
Proof. solve_decision. Defined.

(** The state a [Proxy] method works on: the proxy itself and the
    channels. *)
Record PState := {
  self : Proxy;
  chans : chan → Channel
}.

Record TornadoApp := {
  serving_at : option (string * Z)
}.

(** One entry of [AppManager._proxies]: class, pending, connected. The
    two lists belong to the entry and only the manager changes them; a
    change of a list is written back to the entry. *)
Definition Entry : Type := option Cls * list addr * list addr.

(** The process: the [Proxy] objects, the channels, the manager's
    dictionary, and the module globals. *)
Record World := {
  heap : gmap addr Proxy;
  channels : chan → Channel;
  _proxies : gmap string Entry;
  _tornado_app : option TornadoApp;
  is_notebook : bool;
  defined_mirrored_classes : list Cls
}.

(** What the module imports: classes and their attributes, the client
    code, the launcher of external runtimes, the listener of the tornado
    application, and the constructor of application objects, which is
    handed the proxy and may call its methods. *)
Class Externals := {
  is_class : Cls → bool;                   (* isinstance(cls, type) *)
  cls_name : Cls → string;                 (* cls.__name__ *)
  issubclass_Widget : Cls → bool;
  issubclass_Mirrored : Cls → bool;
  mro : Cls → list Cls;                    (* cls.mro() *)
  get_js : Cls → string;                   (* cls.get_js() *)
  get_css : Cls → string;                  (* cls.get_css() *)
  clientCode_get_js : string;
  launch : string → string → list (string * string) → exn + Runtime;
  listen_fails : Z → string → bool;        (* listen raises OSError *)
  runtime_close : Runtime → exn + Runtime; (* runtime.close() *)
  new_widget : Cls → addr → M PState Widget
}.

(** ** Field updates *)

Definition set_runtime (r : option Runtime) (p : Proxy) : Proxy :=
  {| _app_name := _app_name p; _runtime := r; _ws := _ws p;
     _widget := _widget p;
     _known_mirrored_classes := _known_mirrored_classes p;
     _pending_commands := _pending_commands p |}.

Definition set_ws (c : option chan) (p : Proxy) : Proxy :=
  {| _app_name := _app_name p; _runtime := _runtime p; _ws := c;
     _widget := _widget p;
     _known_mirrored_classes := _known_mirrored_classes p;
     _pending_commands := _pending_commands p |}.

Definition set_widget (x : option Widget) (p : Proxy) : Proxy :=
  {| _app_name := _app_name p; _runtime := _runtime p; _ws := _ws p;
     _widget := x;
     _known_mirrored_classes := _known_mirrored_classes p;
     _pending_commands := _pending_commands p |}.

Definition set_known (k : gset Cls) (p : Proxy) : Proxy :=
  {| _app_name := _app_name p; _runtime := _runtime p; _ws := _ws p;
     _widget := _widget p;
     _known_mirrored_classes := k;
     _pending_commands := _pending_commands p |}.

Definition set_pending_commands (l : list string) (p : Proxy) : Proxy :=
  {| _app_name := _app_name p; _runtime := _runtime p; _ws := _ws p;
     _widget := _widget p;
     _known_mirrored_classes := _known_mirrored_classes p;
     _pending_commands := l |}.

Definition on_self (f : Proxy → Proxy) (s : PState) : PState :=
  {| self := f (self s); chans := chans s |}.

(** [ws.command(command)] on the channel [c]. *)
Definition chan_command (c : chan) (command : string)
    (chs : chan → Channel) : chan → Channel :=
  λ c', if decide (c' = c)
        then {| close_code := close_code (chs c');
                sent := sent (chs c') ++ [command] |}
        else chs c'.

Definition ws_command (c : chan) (command : string) (s : PState) : PState :=
  {| self := self s; chans := chan_command c command (chans s) |}.

Definition set_heap (h : gmap addr Proxy) (w : World) : World :=
  {| heap := h; channels := channels w; _proxies := _proxies w;
     _tornado_app := _tornado_app w; is_notebook := is_notebook w;
     defined_mirrored_classes := defined_mirrored_classes w |}.

Definition set_channels (chs : chan → Channel) (w : World) : World :=
  {| heap := heap w; channels := chs; _proxies := _proxies w;
     _tornado_app := _tornado_app w; is_notebook := is_notebook w;
     defined_mirrored_classes := defined_mirrored_classes w |}.

Definition set_proxies (d : gmap string Entry) (w : World) : World :=
  {| heap := heap w; channels := channels w; _proxies := d;
     _tornado_app := _tornado_app w; is_notebook := is_notebook w;
     defined_mirrored_classes := defined_mirrored_classes w |}.

Definition set_tornado_app (t : option TornadoApp) (w : World) : World :=
  {| heap := heap w; channels := channels w; _proxies := _proxies w;
     _tornado_app := t; is_notebook := is_notebook w;
     defined_mirrored_classes := defined_mirrored_classes w |}.

(** Run a method of the proxy at [a]; the proxy and the channels it leaves
    are stored back. *)
Definition with_proxy {A} (a : addr) (m : M PState A) : M World A :=
  λ w, match heap w !! a with
       | None => (inl ReferenceError, w)
       | Some p =>
           let '(r, s') := m {| self := p; chans := channels w |} in
           (r, set_channels (chans s') (set_heap (<[a := self s']> (heap w)) w))
       end.

(** [self._proxies[name]]. *)
Definition lookup_entry (name : string) : M World Entry :=
  λ w, match _proxies w !! name with
       | Some e => (inr e, w)
       | None => (inl (KeyError name), w)
       end.

Definition set_entry (name : string) (e : Entry) : M World unit :=
  modify (λ w, set_proxies (<[name := e]> (_proxies w)) w).

(** [l.remove(x)]: the first occurrence goes. *)
Fixpoint list_remove_first (x : addr) (l : list addr) : list addr :=
  match l with
  | [] => []
  | y :: l' => if decide (y = x) then l' else y :: list_remove_first x l'
  end.

(** The truth value of an optional string argument. *)
Definition opt_truthy (o : option string) : bool :=
  match o with
  | Some s => PyStr.truthy s
  | None => false
  end.

(** ** The Proxy class *)

Module ProxyM.

Section Methods.
Context {E : Externals}.

(** The [id] property, ['%x' % id(self)]. *)
Definition id (a : addr) : string := PyStr.fmt_x (Npos a).

(** The [status] property. *)
Definition status (s : PState) : Status :=
  match _ws (self s) with
  | None => PENDING
  | Some c =>
      match close_code (chans s c) with
      | None => CONNECTED
      | Some _ => CLOSED
      end
  end.

Definition _send_command (command : string) : M PState unit :=
  let* st := gets status in
  if decide (st = CONNECTED) then
    let* ws := gets (λ s, _ws (self s)) in
    match ws with
    | Some c => modify (ws_command c command)
    | None => raise (AttributeError "command")
    end
  else if decide (st = PENDING) then
    modify (on_self (λ p,
      set_pending_commands (_pending_commands p ++ [command]) p))
  else raise (RuntimeError AppIsClosed).

Definition _connect_client (ws : chan) : M PState unit :=
  let* old := gets (λ s, _ws (self s)) in
  assert_ (bool_decide (old = None)) >>
  modify (on_self (set_ws (Some ws))) >>
  let* pending := gets (λ s, _pending_commands (self s)) in
  modify (λ s, fold_left (λ s' command, ws_command ws command s') pending s).

Definition _set_widget (widget : Widget) : M PState unit :=
  let* old := gets (λ s, _widget (self s)) in
  assert_ (bool_decide (old = None)) >>
  modify (on_self (set_widget (Some widget))).

Definition close : M PState unit :=
  let* runtime := gets (λ s, _runtime (self s)) in
  match runtime with
  | Some r =>
      match runtime_close r with
      | inr r' => modify (on_self (set_runtime (Some r')))
      | inl e => raise e
      end
  | None => ret tt
  end >>
  let* widget := gets (λ s, _widget (self s)) in
  match widget with
  | Some x =>
      if widget_bool x then modify (on_self (set_widget None)) else ret tt
  | None => ret tt
  end.

(** The loop over [cls.mro()[1:]]; [register] is the recursive call. *)
Fixpoint register_bases (register : Cls → M PState unit)
    (bases : list Cls) : M PState unit :=
  match bases with
  | [] => ret tt
  | cls2 :: bases' =>
      if negb (issubclass_Mirrored cls2) then ret tt
      else
        let* known := gets (λ s, _known_mirrored_classes (self s)) in
        (if decide (cls2 ∈ known) then ret tt else register cls2) >>
        register_bases register bases'
  end.

(** [register_mirrored], with the recursion depth still available. *)
Fixpoint register_mirrored (depth : nat) (cls : Cls) : M PState unit :=
  match depth with
  | O => raise RecursionError
  | S depth' =>
      if negb (is_class cls && issubclass_Mirrored cls)
      then raise (ValueError NotAMirroredClass)
      else
        let* known := gets (λ s, _known_mirrored_classes (self s)) in
        if decide (cls ∈ known) then ret tt
        else
          register_bases (register_mirrored depth') (tail (mro cls)) >>
          modify (on_self (λ p,
            set_known ({[cls]} ∪ _known_mirrored_classes p) p)) >>
          let js := get_js cls in
          let css := get_css cls in
          _send_command ("DEFINE-JS " +:+ js) >>
          if PyStr.truthy (PyStr.strip css)
          then _send_command ("DEFINE-CSS " +:+ css)
          else ret tt
  end.

Definition _exec (code : string) : M PState unit :=
  _send_command ("EXEC " +:+ code).

Definition eval (code : string) : M PState unit :=
  let* ws := gets (λ s, _ws (self s)) in
  match ws with
  | None => raise (RuntimeError AppNotConnected)
  | Some _ => _send_command ("EVAL " +:+ code)
  end.

End Methods.

End ProxyM.

(** ** The server *)

Section Server.
Context {E : Externals}.

(** [_tornado_app.listen(port, host)]. *)
Definition listen (port : Z) (host : string) : M World unit :=
  if listen_fails port host then raise OSError else ret tt.

(** The loop [for i in range(100)] of [init_server] over the remaining
    [candidates]: the port of the first successful [listen], or the error
    of the [else] clause. *)
Fixpoint try_ports (host : string) (candidates : list nat) : M World Z :=
  match candidates with
  | [] => raise (RuntimeError NoFreeAddress)
  | i :: candidates' =>
      let port := port_hash (seed i) in
      except_OSError (listen port host >> ret port)
                     (try_ports host candidates')
  end.

Definition init_server (host : string) (port : option Z) : M World unit :=
  let* app := gets _tornado_app in
  match app with
  | Some _ => ret tt
  | None =>
      modify (set_tornado_app (Some {| serving_at := None |})) >>
      let* port := match port with
                   | Some port => listen port host >> ret port
                   | None => try_ports host (seq 0 100)
                   end in
      modify (set_tornado_app (Some {| serving_at := Some (host, port) |}))
  end.

(** [host, port = _tornado_app.serving_at]. *)
Definition get_serving_at : M World (string * Z) :=
  let* app := gets _tornado_app in
  match app with
  | Some {| serving_at := Some hp |} => ret hp
  | _ => raise (AttributeError "serving_at")
  end.

End Server.

(** ** Creating proxies *)

Section Construction.
Context {E : Externals}.

(** ['http://%s:%i/%s/' % (host, port, name)], for a port that is not
    negative. *)
Definition url (host : string) (port : Z) (name : string) : string :=
  "http://" +:+ host +:+ ":" +:+ PyStr.fmt_i (Z.to_N port) +:+ "/"
    +:+ name +:+ "/".

(** [self._launch_runtime(runtime, **runtime_kwargs)] for the proxy at
    [a]. The [Exporter] of the export mode is a channel of its own, open
    and with nothing sent. *)
Definition _launch_runtime (a : addr) (runtime : string)
    (runtime_kwargs : list (string * string)) : M World unit :=
  if decide (runtime = "<export>") then
    modify (λ w, set_channels
      (λ c, if decide (c = ExporterOf a)
            then {| close_code := None; sent := [] |}
            else channels w c) w) >>
    with_proxy a (modify (on_self (set_ws (Some (ExporterOf a)))))
  else if decide (runtime = "notebook") then ret tt
  else if PyStr.truthy runtime then
    init_server "localhost" None >>
    let* (host, port) := get_serving_at in
    let* app_name := with_proxy a (gets (λ s, _app_name (self s))) in
    let name := if decide (app_name ≠ "__default__")
                then app_name +:+ "-" +:+ ProxyM.id a else app_name in
    let kwargs := if decide (runtime = "nodejs")
                  then [("code", clientCode_get_js)] else runtime_kwargs in
    match launch (url host port name) runtime kwargs with
    | inr r => with_proxy a (modify (on_self (set_runtime (Some r))))
    | inl e => raise e
    end
  else ret tt.

(** [Proxy(app_name, runtime, **runtime_kwargs)]: a new object, at an
    identity no object of the store has, then [__init__]. *)
Definition Proxy_new (app_name : string) (runtime : option string)
    (runtime_kwargs : list (string * string)) : M World addr :=
  let* a := gets (λ w, fresh (dom (heap w))) in
  let* known := gets defined_mirrored_classes in
  modify (λ w, set_heap (<[a :=
    {| _app_name := app_name; _runtime := None; _ws := None;
       _widget := None;
       _known_mirrored_classes := list_to_set known;
       _pending_commands := [] |}]> (heap w)) w) >>
  match runtime with
  | Some r => if PyStr.truthy r then _launch_runtime a r runtime_kwargs
              else ret tt
  | None => ret tt
  end >>
  ret a.

End Construction.

(** ** The application manager *)

Module AppManager.

Section Methods.
Context {E : Externals}.

(** [AppManager()]. *)
Definition init : gmap string Entry := {["__default__" := (None, [], [])]}.

Definition register_app_class (cls : Cls) : M World unit :=
  assert_ (is_class cls && issubclass_Widget cls) >>
  let name := cls_name cls in
  let* d := gets _proxies in
  let '(pending, connected) :=
    match d !! name with
    | Some (oldCls, pending, connected) =>
        if decide (Some cls ≠ oldCls) then (pending, connected)
        else ([], [])
    | None => ([], [])
    end in
  set_entry name (Some cls, pending, connected).

Definition get_default_proxy : M World addr :=
  let* (cls, pending, connected) := lookup_entry "__default__" in
  let proxies := pending ++ connected in
  match last proxies with
  | Some proxy => ret proxy
  | None =>
      let* nb := gets is_notebook in
      let runtime := if nb then "notebook" else "browser" in
      let* proxy := Proxy_new "__default__" (Some runtime)
                              [("title", "Flexx app")] in
      set_entry "__default__" (cls, pending ++ [proxy], connected) >>
      ret proxy
  end.

Definition add_pending_proxy_instance (proxy : addr) : M World unit :=
  let* app_name := with_proxy proxy (gets (λ s, _app_name (self s))) in
  let* d := gets _proxies in
  assert_ (bool_decide (is_Some (d !! app_name))) >>
  let* (cls, pending, connected) := lookup_entry app_name in
  let* st := with_proxy proxy (gets ProxyM.status) in
  if decide (st = PENDING) then
    assert_ (bool_decide (proxy ∉ pending)) >>
    set_entry app_name (cls, pending ++ [proxy], connected)
  else raise (RuntimeError AlreadyConnected).

(** The first part of [connect_client]: the proxy the connection is
    for. The entry of [name] has been read into [cls], [pending] and
    [connected]; the result carries the pending list as this part leaves
    it. *)
Definition find_proxy (name : string) (app_id : option string)
    (cls : option Cls) (pending connected : list addr)
    : M World (addr * list addr) :=
  if decide (name = "__default__") then
    match last pending with
    | Some proxy =>
        let pending' := removelast pending in
        set_entry name (cls, pending', connected) >>
        ret (proxy, pending')
    | None =>
        let* proxy := Proxy_new name None [] in
        ret (proxy, pending)
    end
  else if negb (opt_truthy app_id) then
    match cls with
    | Some c =>
        let* proxy := Proxy_new (cls_name c) None [] in
        let* app := with_proxy proxy (new_widget c proxy) in
        with_proxy proxy (ProxyM._set_widget app) >>
        ret (proxy, pending)
    | None => raise (AttributeError "__name__")
    end
  else
    match List.find (λ proxy, bool_decide (Some (ProxyM.id proxy) = app_id))
                    pending with
    | Some proxy =>
        let pending' := list_remove_first proxy pending in
        set_entry name (cls, pending', connected) >>
        ret (proxy, pending')
    | None =>
        raise (RuntimeError (AppIdNotFound (default "" app_id)))
    end.

Definition connect_client (ws : chan) (name : string)
    (app_id : option string) : M World addr :=
  let* (cls, pending, connected) := lookup_entry name in
  let* (proxy, pending') := find_proxy name app_id cls pending connected in
  let* st := with_proxy proxy (gets ProxyM.status) in
  assert_ (bool_decide (st = PENDING)) >>
  with_proxy proxy (ProxyM._connect_client ws) >>
  set_entry name (cls, pending', connected ++ [proxy]) >>
  ret proxy.

Definition disconnect_client (proxy : addr) : M World unit :=
  let* app_name := with_proxy proxy (gets (λ s, _app_name (self s))) in
  let* (cls, pending, connected) := lookup_entry app_name in
  set_entry app_name (cls, pending, list_remove_first proxy connected) >>
  with_proxy proxy ProxyM.close.

Definition has_app_name (name : string) : M World bool :=
  gets (λ w, bool_decide (is_Some (_proxies w !! name))).

Definition get_proxy_by_id (name : string) (id : string)
    : M World (option addr) :=
  let* (cls, pending, connected) := lookup_entry name in
  ret (List.find (λ proxy, bool_decide (ProxyM.id proxy = id))
                 (pending ++ connected)).

End Methods.

End AppManager.

(** ** Vocabulary of the properties *)

(** What the remote side has been given or will be given first: the
    buffer while there is no channel, the channel's record afterwards. *)
Definition outbox (s : PState) : list string :=
  match _ws (self s) with
  | None => _pending_commands (self s)
  | Some c => sent (chans s c)
  end.

(** A caller issuing the commands of a list one after the other. *)
Fixpoint send_commands (commands : list string) : M PState unit :=
  match commands with
  | [] => ret tt
  | command :: commands' =>
      ProxyM._send_command command >> send_commands commands'
  end.

Section Registration.
Context {E : Externals}.

(** The commands that define one class: the script and, when the style
    is not blank, the style. *)
Definition define_commands (cls : Cls) : list string :=
  ("DEFINE-JS " +:+ get_js cls) ::
  (if PyStr.truthy (PyStr.strip (get_css cls))
   then ["DEFINE-CSS " +:+ get_css cls] else []).

(** The classes of a list up to the first that is not a [Mirrored]
    class. *)
Fixpoint mirrored_prefix (l : list Cls) : list Cls :=
  match l with
  | [] => []
  | c :: l' => if issubclass_Mirrored c then c :: mirrored_prefix l' else []
  end.

(** The ancestors of [cls] the loop of [register_mirrored] looks at,
    nearest first. *)
Definition mirrored_bases (cls : Cls) : list Cls :=
  mirrored_prefix (tail (mro cls)).

(** A method resolution order under single inheritance: each entry is a
    class whose own order is the rest of the list from that entry on. *)
Definition chain (l : list Cls) : Prop :=
  ∀ i c, l !! i = Some c → is_class c = true ∧ mro c = drop i l.

Definition known (s : PState) : gset Cls := _known_mirrored_classes (self s).

(** From [s] to [s'] the proxy kept its channel, no channel was closed or
    reopened, and [commands] were added to the outbox. *)
Definition emits (s s' : PState) (commands : list string) : Prop :=
  _ws (self s') = _ws (self s) ∧
  (∀ c, close_code (chans s' c) = close_code (chans s c)) ∧
  outbox s' = outbox s ++ commands.

(** The definitions of the classes of [l] not in [K], last of [l] first. *)
Definition bases_commands (l : list Cls) (K : gset Cls) : list string :=
  concat (define_commands <$> reverse (filter (λ c, c ∉ K) l)).

(** The last steps of [register_mirrored]: the class is recorded, then
    defined. *)
Definition record_and_define (cls : Cls) : M PState unit :=
  modify (on_self (λ p,
    set_known ({[cls]} ∪ _known_mirrored_classes p) p)) >>
  ProxyM._send_command ("DEFINE-JS " +:+ get_js cls) >>
  if PyStr.truthy (PyStr.strip (get_css cls))
  then ProxyM._send_command ("DEFINE-CSS " +:+ get_css cls)
  else ret tt.

(** What a call on an unknown class at the head of a chain does, for the
    depth [depth]. *)
Definition registers_chain (depth : nat) : Prop :=
  ∀ cls s,
    chain (mro cls) → head (mro cls) = Some cls →
    issubclass_Mirrored cls = true →
    (length (mro cls) ≤ depth)%nat →
    cls ∉ known s →
    ProxyM.status s ≠ CLOSED →
    ∃ s', ProxyM.register_mirrored depth cls s = (inr tt, s') ∧
      emits s s' (bases_commands (mirrored_bases cls) (known s)
                  ++ define_commands cls) ∧
      known s' = known s ∪ list_to_set (mirrored_bases cls) ∪ {[cls]}.

(** The definitions of the classes of [l], in the order of [l]. *)
Definition defines (l : list Cls) : list string :=
  concat (define_commands <$> l).

(** From [x] the class [z] is reached through classes that are not in [K],
    each among the [Mirrored] bases of the one before: the classes a call
    for [x] can come to by recursion while [K] is known. *)
Inductive reaches (K : gset Cls) : Cls → Cls → Prop :=
  | reaches_here x : x ∉ K → reaches K x x
  | reaches_step x y z :
      x ∉ K → y ∈ mirrored_bases x → reaches K y z → reaches K x z.

(** The proxy [Proxy(app_name, ...)] starts from. *)
Definition blank_proxy (app_name : string) (w : World) : Proxy :=
  {| _app_name := app_name; _runtime := None; _ws := None;
     _widget := None;
     _known_mirrored_classes := list_to_set (defined_mirrored_classes w);
     _pending_commands := [] |}.

End Registration.

(** ** A small instance

    Classes [Mirrored] < [Base] < [Button] under [object], an application
    class [Calc], a launcher and a listener that always succeed, and a few
    proxies and states over them. *)

Module Demo.

Definition object : Cls := 1%positive.
Definition Mirrored : Cls := 2%positive.
Definition Base : Cls := 3%positive.
Definition Button : Cls := 4%positive.
Definition Calc : Cls := 5%positive.

Definition mro_of (c : Cls) : list Cls :=
  if decide (c = Button) then [Button; Base; Mirrored; object]
  else if decide (c = Base) then [Base; Mirrored; object]
  else if decide (c = Mirrored) then [Mirrored; object]
  else if decide (c = Calc) then [Calc; object]
  else [object].

Definition externals : Externals := {|
  is_class := λ _, true;
  cls_name := λ c, if decide (c = Calc) then "Calc" else "cls";
  issubclass_Widget := λ c, bool_decide (c = Calc);
  issubclass_Mirrored := λ c,
    bool_decide (c = Mirrored ∨ c = Base ∨ c = Button);
  mro := mro_of;
  get_js := λ c, if decide (c = Button) then "button" else "base";
  get_css := λ c, if decide (c = Button) then ".b{}" else "  ";
  clientCode_get_js := "flexx";
  launch := λ url runtime _,
    inr {| runtime_kind := runtime; runtime_url := url;
           runtime_closed := false |};
  listen_fails := λ _ _, false;
  runtime_close := λ r,
    inr {| runtime_kind := runtime_kind r; runtime_url := runtime_url r;
           runtime_closed := true |};
  new_widget := λ c _, ret {| widget_class := c; widget_bool := true |}
|}.

(** The web socket 2 is closed, every other channel is open. *)
Definition chans0 : chan → Channel :=
  λ c, {| close_code := if decide (c = WebSocket 2) then Some 1000%Z else None;
          sent := [] |}.

Definition pending_proxy : Proxy :=
  {| _app_name := "Calc"; _runtime := None; _ws := None; _widget := None;
     _known_mirrored_classes := {[Mirrored]};
     _pending_commands := ["EXEC x=1"] |}.

Definition connected_proxy : Proxy := set_ws (Some (WebSocket 1)) pending_proxy.

Definition closed_proxy : Proxy := set_ws (Some (WebSocket 2)) pending_proxy.

Definition pending_state : PState := {| self := pending_proxy; chans := chans0 |}.

Definition connected_state : PState :=
  {| self := connected_proxy; chans := chans0 |}.

Definition closed_state : PState := {| self := closed_proxy; chans := chans0 |}.

(** A connected proxy with a runtime and an application object. *)
Definition launched_proxy : Proxy :=
  {| _app_name := "Calc";
     _runtime := Some {| runtime_kind := "xul";
                         runtime_url := "http://localhost:52452/Calc-1/";
                         runtime_closed := false |};
     _ws := Some (WebSocket 1);
     _widget := Some {| widget_class := Calc; widget_bool := true |};
     _known_mirrored_classes := {[Mirrored]};
     _pending_commands := ["EXEC x=1"] |}.

Definition launched_state : PState :=
  {| self := launched_proxy; chans := chans0 |}.

(** A process with the proxies above at the identities 1, 2 and 3 and
    the registry [registry]. *)
Definition world (registry : gmap string Entry) (notebook : bool) : World :=
  {| heap := {[1%positive := pending_proxy; 2%positive := connected_proxy;
               3%positive := closed_proxy]};
     channels := chans0;
     _proxies := registry;
     _tornado_app := None;
     is_notebook := notebook;
     defined_mirrored_classes := [Mirrored] |}.

(** The default entry holds a pending and a connected proxy. *)
Definition default_both : World :=
  world {["__default__" := (None, [1%positive], [2%positive])]} false.

(** The default entry holds one pending proxy, which already has a
    channel. *)
Definition default_attached : World :=
  world {["__default__" := (None, [2%positive], [])]} false.

Definition default_empty : World := world AppManager.init true.

(** [Calc] is registered and has a pending and a connected proxy. *)
Definition calc_registered : World :=
  world (<["Calc" := (Some Calc, [1%positive], [2%positive])]> AppManager.init)
        false.

End Demo.

(** ** Reading numbers back, dictionaries of keyword arguments, launching *)

Module Parse.

(** The value of a digit character, ['0'..'9'] and ['a'..'f']. *)
Definition digit_value (c : ascii) : N :=
  let n := Ascii.N_of_ascii c in
  if (n <? 58)%N then (n - 48)%N else (n - 87)%N.

(** [int(s, b)] for a string of digits, continuing from the value [v]. *)
Fixpoint number_from (b : N) (v : N) (s : string) : N :=
  match s with
  | EmptyString => v
  | String c s' => number_from b (v * b + digit_value c) s'
  end.

Definition number (b : N) (s : string) : N := number_from b 0 s.

End Parse.

(** From [s] to [s'] the proxy kept its name, channel, widget and runtime,
    no channel was closed or reopened, the known classes only grew and
    the outbox was only appended to. *)
Definition advances (s s' : PState) : Prop :=
  _app_name (self s') = _app_name (self s) ∧
  _ws (self s') = _ws (self s) ∧
  _widget (self s') = _widget (self s) ∧
  _runtime (self s') = _runtime (self s) ∧
  (∀ c, close_code (chans s' c) = close_code (chans s c)) ∧
  known s ⊆ known s' ∧
  ∃ commands, outbox s' = outbox s ++ commands.

(** [d[k] = v] on a dictionary kept as the list of its items in insertion
    order: the value of a key that is present is replaced in place, a new
    key goes to the end. *)
Fixpoint dict_set (k v : string) (d : list (string * string))
    : list (string * string) :=
  match d with
  | [] => [(k, v)]
  | (k', v') :: d' =>
      if decide (k' = k) then (k', v) :: d' else (k', v') :: dict_set k v d'
  end.

(** [d.update(items)]. *)
Definition dict_update (d items : list (string * string))
    : list (string * string) :=
  fold_left (λ d kv, dict_set kv.1 kv.2 d) items d.

Section App.
Context {E : Externals}.

(** The function [launch] that [this_is_an_app(cls, **kwargs1)] attaches
    to [cls], called as [launch(runtime, **kwargs)]. *)
Definition launch_app (cls : Cls) (kwargs1 : list (string * string))
    (runtime : option string) (kwargs : list (string * string))
    : M World Widget :=
  let d := dict_update (dict_update [] kwargs1) kwargs in
  let* proxy := Proxy_new (cls_name cls) runtime d in
  let* app := with_proxy proxy (new_widget cls proxy) in
  with_proxy proxy (ProxyM._set_widget app) >>
  AppManager.add_pending_proxy_instance proxy >>
  ret app.

(** [this_is_an_app(cls, **kwargs1)]: the class is registered, gets its
    [launch], and is returned. *)
Definition this_is_an_app (cls : Cls) : M World Cls :=
  AppManager.register_app_class cls >> ret cls.

End App.

(** From [w] to [w'] no application name left the registry. *)
Definition keeps_names (w w' : World) : Prop :=
  dom (_proxies w) ⊆ dom (_proxies w').

(** From [w] to [w'] every registered name kept the class it is
    registered with. *)
Definition keeps_classes (w w' : World) : Prop :=
  ∀ name cls pending connected,
    _proxies w !! name = Some (cls, pending, connected) →
    ∃ pending' connected',
      _proxies w' !! name = Some (cls, pending', connected').

(** [name] is registered with the class [cls]. *)
Definition has_class (name : string) (cls : option Cls) (w : World) : Prop :=
  ∃ pending connected, _proxies w !! name = Some (cls, pending, connected).

(** ** Further instances *)

Module Demo2.

(** The surroundings of [Demo.externals] when nothing cooperates:
    listening fails on every port, and closing a runtime and constructing
    an application object raise. *)
Definition hostile : Externals := {|
  is_class := λ _, true;
  cls_name := λ c, if decide (c = Demo.Calc) then "Calc" else "cls";
  issubclass_Widget := λ c, bool_decide (c = Demo.Calc);
  issubclass_Mirrored := λ c,
    bool_decide (c = Demo.Mirrored ∨ c = Demo.Base ∨ c = Demo.Button);
  mro := Demo.mro_of;
  get_js := λ _, "js";
  get_css := λ _, "";
  clientCode_get_js := "flexx";
  launch := λ url runtime _,
    inr {| runtime_kind := runtime; runtime_url := url;
           runtime_closed := false |};
  listen_fails := λ _ _, true;
  runtime_close := λ _, inl OSError;
  new_widget := λ _ _, raise (ValueError NotAMirroredClass)
|}.

Definition Plain : Cls := 6%positive.
Definition Mixed : Cls := 7%positive.

(** The classes of [Demo.externals] and [class Mixed(Plain, Base)], where
    [Plain] is not a [Mirrored] class. *)
Definition with_mixin : Externals := {|
  is_class := λ _, true;
  cls_name := λ c, if decide (c = Demo.Calc) then "Calc" else "cls";
  issubclass_Widget := λ c, bool_decide (c = Demo.Calc);
  issubclass_Mirrored := λ c,
    bool_decide (c = Demo.Mirrored ∨ c = Demo.Base ∨ c = Demo.Button
                 ∨ c = Mixed);
  mro := λ c,
    if decide (c = Mixed)
    then [Mixed; Plain; Demo.Base; Demo.Mirrored; Demo.object]
    else if decide (c = Plain) then [Plain; Demo.object]
    else Demo.mro_of c;
  get_js := λ c, if decide (c = Mixed) then "mixed" else "base";
  get_css := λ _, "";
  clientCode_get_js := "flexx";
  launch := λ url runtime _,
    inr {| runtime_kind := runtime; runtime_url := url;
           runtime_closed := false |};
  listen_fails := λ _ _, false;
  runtime_close := λ r, inr r;
  new_widget := λ c _, ret {| widget_class := c; widget_bool := true |}
|}.

(** The classes of [Demo.externals] and a diamond: [Left] and [Right]
    derive from [Mirrored], and [class Both(Left, Right)]. *)
Definition Left : Cls := 8%positive.
Definition Right : Cls := 9%positive.
Definition Both : Cls := 10%positive.

Definition diamond : Externals := {|
  is_class := λ _, true;
  cls_name := λ c, if decide (c = Demo.Calc) then "Calc" else "cls";
  issubclass_Widget := λ c, bool_decide (c = Demo.Calc);
  issubclass_Mirrored := λ c,
    bool_decide (c = Demo.Mirrored ∨ c = Left ∨ c = Right ∨ c = Both);
  mro := λ c,
    if decide (c = Both)
    then [Both; Left; Right; Demo.Mirrored; Demo.object]
    else if decide (c = Left) then [Left; Demo.Mirrored; Demo.object]
    else if decide (c = Right) then [Right; Demo.Mirrored; Demo.object]
    else if decide (c = Demo.Mirrored) then [Demo.Mirrored; Demo.object]
    else [Demo.object];
  get_js := λ c,
    if decide (c = Both) then "both"
    else if decide (c = Left) then "left"
    else if decide (c = Right) then "right" else "base";
  get_css := λ _, "";
  clientCode_get_js := "flexx";
  launch := λ url runtime _,
    inr {| runtime_kind := runtime; runtime_url := url;
           runtime_closed := false |};
  listen_fails := λ _ _, false;
  runtime_close := λ r, inr r;
  new_widget := λ c _, ret {| widget_class := c; widget_bool := true |}
|}.

(** [Calc] is registered, nothing is pending, the proxy 2 is connected. *)
Definition calc_idle : World :=
  Demo.world (<["Calc" := (Some Demo.Calc, [], [2%positive])]> AppManager.init)
             false.

End Demo2.

(** * Properties *)

(** ** Formatting and hashing on examples *)

Example fmt_i_0 : PyStr.fmt_i 0 = "0". Proof. reflexivity. Qed.
Example fmt_i_99 : PyStr.fmt_i 99 = "99". Proof. reflexivity. Qed.
Example fmt_i_1000 : PyStr.fmt_i 1000 = "1000". Proof. reflexivity. Qed.
Example fmt_x_255 : PyStr.fmt_x 255 = "ff". Proof. reflexivity. Qed.
Example fmt_x_4096 : PyStr.fmt_x 4096 = "1000". Proof. reflexivity. Qed.
Example strip_ex : PyStr.strip "  a b  " = "a b". Proof. reflexivity. Qed.
Example port_hash_empty : port_hash "" = 49152%Z. Proof. reflexivity. Qed.
Example port_hash_a : port_hash "a" = 65274%Z. Proof. reflexivity. Qed.
Example port_hash_seed0 : port_hash (seed 0) = 52452%Z. Proof. reflexivity. Qed.
Example port_hash_seed1 : port_hash (seed 1) = 57489%Z. Proof. reflexivity. Qed.
Example port_hash_bbtw : port_hash "bbtw" = 65535%Z. Proof. reflexivity. Qed.

(** ** port_hash *)

Lemma port_hash_ords_range (name : list Z) :
  (49152 ≤ port_hash_ords name ≤ 65535)%Z.
Proof.
  unfold port_hash_ords.
  set (val := (_ + (Z.shiftr _ 3 + _))%Z).
  assert (0 ≤ val mod 2 ^ 14 < 2 ^ 14)%Z by (apply Z.mod_pos_bound; lia).
  change (2 ^ 14)%Z with 16384%Z in *. lia.
Qed.

(** C5, as the code has it: for every string the port lies in the closed
    range 49152..65535; the upper end 65535 is reached (by ["bbtw"]); the
    seeds ['flexx+0'] to ['flexx+99'] all map below 65535; and the port is
    a function of the string alone. *)
Theorem port_hash_in_closed_range :
  (∀ name : string, (49152 ≤ port_hash name ≤ 65535)%Z) ∧
  (∀ codes : list Z, (49152 ≤ port_hash_ords codes ≤ 65535)%Z) ∧
  port_hash "bbtw" = 65535%Z ∧
  Forall (λ i, (49152 ≤ port_hash (seed i) < 65535)%Z) (seq 0 100) ∧
  (∀ name1 name2 : string, name1 = name2 → port_hash name1 = port_hash name2).
Proof.
  split; [intros name; apply port_hash_ords_range|].
  split; [apply port_hash_ords_range|].
  split; [reflexivity|].
  split; [|by intros ?? ->].
  apply (bool_decide_unpack _). vm_compute. reflexivity.
Qed.

(** C5 as stated fails: the half-open range excludes a port the function
    returns. *)
Lemma port_hash_reaches_65535 :
  ¬ (∀ s : string, (49152 ≤ port_hash s < 65535)%Z).
Proof.
  intros H. specialize (H "bbtw").
  change (port_hash "bbtw") with 65535%Z in H. lia.
Qed.

(** ** Sending commands *)

Ltac unfold_M :=
  unfold bind, ret, raise, gets, modify, assert_, except_OSError in *.

Lemma chan_command_same c command chs :
  sent (chan_command c command chs c) = sent (chs c) ++ [command].
Proof. unfold chan_command. by rewrite decide_True. Qed.

Lemma chan_command_other c c' command chs :
  c' ≠ c → chan_command c command chs c' = chs c'.
Proof. intros. unfold chan_command. by rewrite decide_False. Qed.

Lemma chan_command_close_code c c' command chs :
  close_code (chan_command c command chs c') = close_code (chs c').
Proof. unfold chan_command. by destruct (decide _). Qed.

Lemma send_command_pending command s :
  _ws (self s) = None →
  ProxyM._send_command command s =
    (inr tt, on_self (λ p,
       set_pending_commands (_pending_commands p ++ [command]) p) s).
Proof.
  intros Hws. unfold ProxyM._send_command, ProxyM.status. unfold_M.
  by rewrite Hws.
Qed.

Lemma send_command_connected command s c :
  _ws (self s) = Some c → close_code (chans s c) = None →
  ProxyM._send_command command s = (inr tt, ws_command c command s).
Proof.
  intros Hws Hc. unfold ProxyM._send_command, ProxyM.status. unfold_M.
  rewrite Hws, Hc. simpl. by rewrite Hws.
Qed.

Lemma send_command_closed command s c code :
  _ws (self s) = Some c → close_code (chans s c) = Some code →
  ProxyM._send_command command s = (inl (RuntimeError AppIsClosed), s).
Proof.
  intros Hws Hc. unfold ProxyM._send_command, ProxyM.status. unfold_M.
  by rewrite Hws, Hc.
Qed.

Lemma status_PENDING s : ProxyM.status s = PENDING ↔ _ws (self s) = None.
Proof.
  unfold ProxyM.status. destruct (_ws (self s)) as [c|]; [|done].
  by destruct (close_code (chans s c)).
Qed.

Lemma status_CONNECTED s :
  ProxyM.status s = CONNECTED ↔
  ∃ c, _ws (self s) = Some c ∧ close_code (chans s c) = None.
Proof.
  unfold ProxyM.status. destruct (_ws (self s)) as [c|].
  - destruct (close_code (chans s c)) eqn:Hc; split; try done.
    + intros (c' & [= <-] & ?). congruence.
    + eauto.
  - split; [done|]. by intros (? & ? & ?).
Qed.

Lemma status_CLOSED s :
  ProxyM.status s = CLOSED ↔
  ∃ c code, _ws (self s) = Some c ∧ close_code (chans s c) = Some code.
Proof.
  unfold ProxyM.status. destruct (_ws (self s)) as [c|].
  - destruct (close_code (chans s c)) eqn:Hc; split; try done.
    + eauto.
    + intros (c' & code & [= <-] & ?). congruence.
  - split; [done|]. by intros (? & ? & ? & ?).
Qed.

(** C6: [_send_command] writes to the channel at once when the proxy is
    CONNECTED, appends to the buffer when it is PENDING, and raises 'Cannot
    send commands; app is closed', with the proxy and the channels as they
    were, when it is CLOSED. *)
Theorem send_command_by_status (command : string) (s : PState) :
  (ProxyM.status s = CONNECTED →
     ∃ c s', _ws (self s) = Some c ∧
       ProxyM._send_command command s = (inr tt, s') ∧
       self s' = self s ∧
       sent (chans s' c) = sent (chans s c) ++ [command] ∧
       ∀ c', c' ≠ c → chans s' c' = chans s c') ∧
  (ProxyM.status s = PENDING →
     ∃ s', ProxyM._send_command command s = (inr tt, s') ∧
       _pending_commands (self s') = _pending_commands (self s) ++ [command] ∧
       set_pending_commands (_pending_commands (self s)) (self s') = self s ∧
       chans s' = chans s) ∧
  (ProxyM.status s = CLOSED →
     ProxyM._send_command command s = (inl (RuntimeError AppIsClosed), s)).
Proof.
  split; [|split].
  - intros (c & Hws & Hc)%status_CONNECTED.
    exists c, (ws_command c command s). split; [done|].
    split; [by apply send_command_connected|].
    split; [done|]. split.
    + apply chan_command_same.
    + intros c' ?. by apply chan_command_other.
  - intros Hws%status_PENDING. eexists. split.
    + by apply send_command_pending.
    + simpl. split; [done|]. split; [|done]. by destruct (self s).
  - intros (c & code & Hws & Hc)%status_CLOSED.
    by eapply send_command_closed.
Qed.

(** ** close *)

Section Close.
Context {E : Externals}.

(** C10: whatever [close()] does (it returns normally unless closing the
    runtime raises), the channel field, the command buffer, every channel
    and hence the status are as they were: a proxy that was CONNECTED is
    still CONNECTED. Only the runtime handle is replaced by the closed
    one, and, when [close()] returns normally, the widget reference is
    dropped. *)
Theorem close_keeps_channel_and_buffer (s : PState) :
  ∃ r s', ProxyM.close s = (r, s') ∧
    _ws (self s') = _ws (self s) ∧
    _pending_commands (self s') = _pending_commands (self s) ∧
    chans s' = chans s ∧
    ProxyM.status s' = ProxyM.status s ∧
    (ProxyM.status s = CONNECTED → ProxyM.status s' = CONNECTED) ∧
    _app_name (self s') = _app_name (self s) ∧
    _known_mirrored_classes (self s') = _known_mirrored_classes (self s) ∧
    match _runtime (self s) with
    | None => r = inr tt ∧ _runtime (self s') = None
    | Some rt =>
        match runtime_close rt with
        | inr rt' => r = inr tt ∧ _runtime (self s') = Some rt'
        | inl e => r = inl e ∧ s' = s
        end
    end ∧
    (r = inr tt →
       _widget (self s') =
         match _widget (self s) with
         | Some x => if widget_bool x then None else Some x
         | None => None
         end).
Proof.
  unfold ProxyM.close, ProxyM.status. unfold_M.
  destruct s as [[name rt ws wd known buf] chs]; simpl.
  destruct rt as [rt|]; simpl; [destruct (runtime_close rt) as [e|rt']|];
    simpl; destruct wd as [x|]; simpl; try destruct (widget_bool x); simpl;
    eexists _, _; (split; [reflexivity|]); simpl; repeat split; done.
Qed.

End Close.

(** ** Buffering and attaching *)

Lemma send_commands_pending commands s :
  _ws (self s) = None →
  send_commands commands s =
    (inr tt, on_self (λ p,
       set_pending_commands (_pending_commands p ++ commands) p) s).
Proof.
  revert s. induction commands as [|command commands IH]; intros s Hws; simpl.
  - unfold_M. destruct s as [[] ?]. unfold on_self, set_pending_commands.
    simpl. by rewrite app_nil_r.
  - unfold bind. rewrite send_command_pending by done.
    rewrite IH by done. destruct s as [[] ?].
    unfold on_self, set_pending_commands. simpl. by rewrite <- app_assoc.
Qed.

Lemma fold_ws_command c commands s :
  let s' := fold_left (λ s' command, ws_command c command s') commands s in
  self s' = self s ∧
  sent (chans s' c) = sent (chans s c) ++ commands ∧
  (∀ c', close_code (chans s' c') = close_code (chans s c')) ∧
  (∀ c', c' ≠ c → chans s' c' = chans s c').
Proof.
  revert s. induction commands as [|command commands IH]; intros s; simpl.
  - by rewrite app_nil_r.
  - destruct (IH (ws_command c command s)) as (Hs & Hsent & Hcode & Hother).
    simpl in *. split; [done|]. split; [|split].
    + rewrite Hsent, chan_command_same. by rewrite <- app_assoc.
    + intros c'. by rewrite Hcode, chan_command_close_code.
    + intros c' Hc'. rewrite Hother by done. by apply chan_command_other.
Qed.

Lemma connect_client_pending ws s :
  _ws (self s) = None →
  ∃ s', ProxyM._connect_client ws s = (inr tt, s') ∧
    self s' = set_ws (Some ws) (self s) ∧
    sent (chans s' ws) = sent (chans s ws) ++ _pending_commands (self s) ∧
    (∀ c, close_code (chans s' c) = close_code (chans s c)) ∧
    (∀ c, c ≠ ws → chans s' c = chans s c).
Proof.
  intros Hws. unfold ProxyM._connect_client. unfold_M. rewrite Hws. simpl.
  eexists. split; [reflexivity|].
  apply (fold_ws_command ws (_pending_commands (self s))
           (on_self (set_ws (Some ws)) s)).
Qed.

Lemma connect_client_attached ws s c :
  _ws (self s) = Some c →
  ProxyM._connect_client ws s = (inl AssertionError, s).
Proof.
  intros Hws. unfold ProxyM._connect_client. unfold_M. by rewrite Hws.
Qed.

Lemma send_commands_connected commands s c :
  _ws (self s) = Some c → close_code (chans s c) = None →
  ∃ s', send_commands commands s = (inr tt, s') ∧
    self s' = self s ∧
    sent (chans s' c) = sent (chans s c) ++ commands ∧
    (∀ c', close_code (chans s' c') = close_code (chans s c')) ∧
    (∀ c', c' ≠ c → chans s' c' = chans s c').
Proof.
  revert s. induction commands as [|command commands IH]; intros s Hws Hc.
  - exists s. simpl. by rewrite app_nil_r.
  - simpl. unfold bind. rewrite (send_command_connected _ _ c) by done.
    destruct (IH (ws_command c command s)) as (s' & Hrun & Hs & Hsent & Hcode & Hother).
    { done. } { simpl. by rewrite chan_command_close_code. }
    exists s'. split; [done|]. simpl in *. split; [done|]. split; [|split].
    + rewrite Hsent, chan_command_same. by rewrite <- app_assoc.
    + intros c'. by rewrite Hcode, chan_command_close_code.
    + intros c' Hc'. rewrite Hother by done. by apply chan_command_other.
Qed.

(** C1: commands sent while the proxy has no channel are appended to its
    buffer; attaching the channel [ws] delivers the buffer to [ws], each
    command once and in the order of issue; commands sent afterwards (the
    channel being open) follow them on [ws], and the buffer no longer
    changes. *)
Theorem buffered_commands_are_flushed_in_order
    (s : PState) (ws : chan) (commands later : list string) :
  _ws (self s) = None →
  let buffered := _pending_commands (self s) ++ commands in
  ∃ s1 s2,
    send_commands commands s = (inr tt, s1) ∧
    _pending_commands (self s1) = buffered ∧
    _ws (self s1) = None ∧
    chans s1 = chans s ∧
    ProxyM._connect_client ws s1 = (inr tt, s2) ∧
    _ws (self s2) = Some ws ∧
    sent (chans s2 ws) = sent (chans s ws) ++ buffered ∧
    (close_code (chans s ws) = None →
       ∃ s3, send_commands later s2 = (inr tt, s3) ∧
         sent (chans s3 ws) = sent (chans s ws) ++ buffered ++ later ∧
         _pending_commands (self s3) = buffered).
Proof.
  intros Hws buffered.
  pose proof (send_commands_pending commands s Hws) as H1.
  set (s1 := on_self _ s) in H1.
  destruct (connect_client_pending ws s1) as (s2 & H2 & Hself & Hsent & Hcode & _).
  { by destruct s as [[]]. }
  exists s1, s2. split; [done|]. split; [done|]. split; [done|].
  split; [done|]. split; [done|].
  split; [by rewrite Hself|]. split; [done|].
  intros Hopen.
  destruct (send_commands_connected later s2 ws) as (s3 & H3 & Hself3 & Hsent3 & _).
  { by rewrite Hself. }
  { by rewrite Hcode. }
  exists s3. split; [done|]. split.
  - rewrite Hsent3, Hsent. by rewrite <- app_assoc.
  - by rewrite Hself3, Hself.
Qed.

(** ** Registering classes *)

Section RegistrationFacts.
Context {E : Externals}.

Lemma emits_refl s : emits s s [].
Proof. unfold emits. by rewrite app_nil_r. Qed.

Lemma emits_trans s1 s2 s3 a b :
  emits s1 s2 a → emits s2 s3 b → emits s1 s3 (a ++ b).
Proof.
  intros (Hw1 & Hc1 & Ho1) (Hw2 & Hc2 & Ho2). split; [congruence|].
  split; [intros c; by rewrite Hc2|].
  by rewrite Ho2, Ho1, app_assoc.
Qed.

Lemma emits_status s s' commands :
  emits s s' commands → ProxyM.status s' = ProxyM.status s.
Proof.
  intros (Hw & Hc & _). unfold ProxyM.status. rewrite Hw.
  destruct (_ws (self s)); [|done]. by rewrite Hc.
Qed.

Lemma send_command_emits command s s' :
  ProxyM._send_command command s = (inr tt, s') →
  emits s s' [command] ∧ known s' = known s.
Proof.
  intros Hrun. destruct (ProxyM.status s) eqn:Hst.
  - apply status_PENDING in Hst.
    rewrite send_command_pending in Hrun by done.
    injection Hrun as <-. unfold emits, outbox, known. simpl.
    by rewrite Hst.
  - apply status_CONNECTED in Hst as (c & Hws & Hc).
    rewrite (send_command_connected _ _ c) in Hrun by done.
    injection Hrun as <-. unfold emits, outbox, known. simpl.
    rewrite Hws. split; [|done]. split; [done|]. split.
    + intros c'. apply chan_command_close_code.
    + apply chan_command_same.
  - apply status_CLOSED in Hst as (c & code & Hws & Hc).
    by rewrite (send_command_closed _ _ c code) in Hrun.
Qed.

Lemma send_command_open command s :
  ProxyM.status s ≠ CLOSED →
  ∃ s', ProxyM._send_command command s = (inr tt, s').
Proof.
  intros Hopen. destruct (ProxyM.status s) eqn:Hst; [| |done].
  - apply status_PENDING in Hst. eexists. by apply send_command_pending.
  - apply status_CONNECTED in Hst as (c & Hws & Hc).
    eexists. by apply send_command_connected.
Qed.

Lemma register_mirrored_unfold depth cls :
  ProxyM.register_mirrored (S depth) cls =
    if negb (is_class cls && issubclass_Mirrored cls)
    then raise (ValueError NotAMirroredClass)
    else
      let* K := gets known in
      if decide (cls ∈ K) then ret tt
      else
        ProxyM.register_bases (ProxyM.register_mirrored depth)
                              (tail (mro cls)) >>
        record_and_define cls.
Proof. reflexivity. Qed.

Lemma record_and_define_emits cls s s' :
  record_and_define cls s = (inr tt, s') →
  emits s s' (define_commands cls) ∧ known s' = {[cls]} ∪ known s.
Proof.
  unfold record_and_define, define_commands. unfold_M. simpl.
  set (s0 := on_self _ s).
  assert (H0 : emits s s0 [] ∧ known s0 = {[cls]} ∪ known s).
  { split; [|done]. unfold emits, outbox. simpl. by rewrite app_nil_r. }
  destruct H0 as [He0 Hk0].
  destruct (ProxyM._send_command _ s0) as [[e|[]] s1] eqn:H1; [done|].
  apply send_command_emits in H1 as [He1 Hk1].
  destruct (PyStr.truthy _).
  - intros [He2 Hk2]%send_command_emits. split; [|congruence].
    apply (emits_trans _ _ _ [] _ He0). by apply (emits_trans _ s1 _ [_] [_]).
  - intros [= <-]. split; [|congruence].
    by apply (emits_trans _ _ _ [] _ He0).
Qed.

Lemma record_and_define_open cls s :
  ProxyM.status s ≠ CLOSED →
  ∃ s', record_and_define cls s = (inr tt, s').
Proof.
  intros Hopen. unfold record_and_define. unfold_M. simpl.
  set (s0 := on_self _ s).
  assert (He0 : emits s s0 []).
  { unfold emits, outbox. simpl. by rewrite app_nil_r. }
  destruct (send_command_open ("DEFINE-JS " +:+ get_js cls) s0) as [s1 H1].
  { by rewrite (emits_status _ _ _ He0). }
  rewrite H1. destruct (PyStr.truthy _); [|by eexists].
  apply send_command_open. apply send_command_emits in H1 as [He1 _].
  by rewrite (emits_status _ _ _ He1), (emits_status _ _ _ He0).
Qed.

End RegistrationFacts.

Section RegistrationOrder.
Context {E : Externals}.

Lemma chain_tail c l : chain (c :: l) → chain l.
Proof. intros Hch i c' Hi. apply (Hch (S i) c' Hi). Qed.

Lemma chain_head c l : chain (c :: l) → is_class c = true ∧ mro c = c :: l.
Proof. intros Hch. apply (Hch 0 c eq_refl). Qed.

Lemma chain_NoDup l : chain l → NoDup l.
Proof.
  intros Hch. apply NoDup_alt. intros i j c Hi Hj.
  pose proof (lookup_lt_Some _ _ _ Hi). pose proof (lookup_lt_Some _ _ _ Hj).
  destruct (Hch i c Hi) as [_ Ei]. destruct (Hch j c Hj) as [_ Ej].
  assert (Hlen : length (drop i l) = length (drop j l)) by congruence.
  rewrite !length_drop in Hlen. lia.
Qed.

Lemma mirrored_prefix_subseteq l : mirrored_prefix l ⊆ l.
Proof.
  induction l as [|c l IH]; simpl; [done|].
  destruct (issubclass_Mirrored c); [|apply list_subseteq_nil].
  intros x [->|Hx]%elem_of_cons; [left|right; by apply IH].
Qed.

Lemma mirrored_prefix_NoDup l : NoDup l → NoDup (mirrored_prefix l).
Proof.
  induction 1 as [|c l Hc Hl IH]; simpl; [constructor|].
  destruct (issubclass_Mirrored c); [|constructor].
  constructor; [|done]. intros Hin. apply Hc.
  by apply mirrored_prefix_subseteq.
Qed.

Lemma filter_all_known (K : gset Cls) (l : list Cls) :
  (∀ c, c ∈ l → c ∈ K) → filter (λ c, c ∉ K) l = [].
Proof.
  intros Hall. induction l as [|c l IH]; [done|].
  rewrite filter_cons_False.
  - apply IH. intros c' Hc'. apply Hall. by right.
  - intros Hc. apply Hc, Hall. by left.
Qed.

Lemma bases_commands_known (K : gset Cls) (l : list Cls) :
  (∀ c, c ∈ l → c ∈ K) → bases_commands l K = [].
Proof. intros Hall. unfold bases_commands. by rewrite filter_all_known. Qed.

Lemma bases_commands_cons_known (K : gset Cls) c l :
  c ∈ K → bases_commands (c :: l) K = bases_commands l K.
Proof.
  intros Hc. unfold bases_commands. rewrite filter_cons_False; [done|].
  by intros Hn.
Qed.

Lemma bases_commands_cons_new (K : gset Cls) c l :
  c ∉ K →
  bases_commands (c :: l) K = bases_commands l K ++ define_commands c.
Proof.
  intros Hc. unfold bases_commands. rewrite filter_cons_True by done.
  rewrite reverse_cons, fmap_app, concat_app. simpl. by rewrite app_nil_r.
Qed.

Lemma register_bases_chain depth :
  registers_chain depth →
  ∀ l s,
    chain l → (length l ≤ depth)%nat → ProxyM.status s ≠ CLOSED →
    ∃ s', ProxyM.register_bases (ProxyM.register_mirrored depth) l s
            = (inr tt, s') ∧
      emits s s' (bases_commands (mirrored_prefix l) (known s)) ∧
      known s' = known s ∪ list_to_set (mirrored_prefix l).
Proof.
  intros IHd. induction l as [|c r IHl]; intros s Hch Hlen Hopen.
  - exists s. split; [done|]. split; [apply emits_refl|]. simpl. set_solver.
  - simpl. destruct (chain_head _ _ Hch) as [Hcls Hmro].
    destruct (issubclass_Mirrored c) eqn:Hm; simpl.
    2:{ exists s. split; [done|]. split; [apply emits_refl|]. set_solver. }
    unfold bind at 1. unfold gets at 1.
    fold (known s). destruct (decide (c ∈ known s)) as [Hk|Hk].
    + unfold bind, ret.
      destruct (IHl s) as (s' & Hrun & Hem & Hkn).
      { by eapply chain_tail. } { simpl in Hlen. lia. } { done. }
      exists s'. split; [done|]. split.
      * by rewrite bases_commands_cons_known.
      * rewrite Hkn. set_solver.
    + destruct (IHd c s) as (s1 & Hrun1 & Hem1 & Hkn1); try done.
      { by rewrite Hmro. } { by rewrite Hmro. } { by rewrite Hmro. }
      unfold mirrored_bases in *. rewrite Hmro in *. simpl in *.
      unfold bind. rewrite Hrun1.
      destruct (IHl s1) as (s2 & Hrun2 & Hem2 & Hkn2).
      { by eapply chain_tail. } { lia. }
      { by rewrite (emits_status _ _ _ Hem1). }
      exists s2. split; [done|]. split.
      * rewrite bases_commands_cons_new by done.
        rewrite bases_commands_known in Hem2.
        2:{ intros x Hx. rewrite Hkn1. set_solver. }
        rewrite <- (app_nil_r (_ ++ define_commands c)).
        by eapply emits_trans.
      * rewrite Hkn2, Hkn1. set_solver.
Qed.

Lemma register_mirrored_chain depth : registers_chain depth.
Proof.
  induction depth as [|depth IHd];
    intros cls s Hch Hhead Hm Hlen Hnew Hopen.
  - destruct (mro cls); [done|simpl in Hlen; lia].
  - destruct (mro cls) as [|c0 t] eqn:Hmro; [done|].
    injection Hhead as ->.
    destruct (chain_head _ _ Hch) as [Hcls _].
    rewrite register_mirrored_unfold, Hcls, Hm. simpl.
    unfold bind at 1. unfold gets at 1.
    rewrite decide_False by done.
    destruct (register_bases_chain depth IHd t s) as (s1 & Hrun1 & Hem1 & Hkn1).
    { by eapply chain_tail. } { simpl in Hlen. lia. } { done. }
    rewrite Hmro. simpl. unfold bind. rewrite Hrun1.
    destruct (record_and_define_open cls s1) as [s2 Hrun2].
    { by rewrite (emits_status _ _ _ Hem1). }
    exists s2. split; [done|].
    apply record_and_define_emits in Hrun2 as [Hem2 Hkn2].
    unfold mirrored_bases. rewrite Hmro. simpl. split.
    + by eapply emits_trans.
    + rewrite Hkn2, Hkn1. set_solver.
Qed.

End RegistrationOrder.

Section RegistrationClaims.
Context {E : Externals}.

(** C7: for a class that is not yet known, whose method resolution order
    is a single-inheritance chain, on a proxy that is not closed,
    [register_mirrored] returns normally; the commands it adds are the
    definitions of the ancestors that were not yet known, the least
    derived first, followed by the definition of the class itself; no
    class among them occurs twice. *)
Theorem register_mirrored_bases_first
    (depth : nat) (cls : Cls) (s : PState) :
  issubclass_Mirrored cls = true →
  head (mro cls) = Some cls →
  chain (mro cls) →
  (length (mro cls) ≤ depth)%nat →
  cls ∉ known s →
  ProxyM.status s ≠ CLOSED →
  let new := filter (λ c, c ∉ known s) (mirrored_bases cls) in
  ∃ s', ProxyM.register_mirrored depth cls s = (inr tt, s') ∧
    outbox s' = outbox s ++ concat (define_commands <$> reverse new)
                         ++ define_commands cls ∧
    NoDup (new ++ [cls]) ∧
    known s' = known s ∪ list_to_set new ∪ {[cls]}.
Proof.
  intros Hm Hhead Hch Hlen Hnew Hopen new.
  destruct (register_mirrored_chain depth cls s) as (s' & Hrun & Hem & Hkn);
    try done.
  exists s'. split; [done|]. split; [apply Hem|]. split.
  - apply chain_NoDup in Hch.
    destruct (mro cls) as [|c t] eqn:Hmro; [done|]. injection Hhead as ->.
    apply NoDup_cons in Hch as [Hnotin Hnd].
    apply NoDup_app. split; [|split].
    + apply NoDup_filter, mirrored_prefix_NoDup. by rewrite Hmro.
    + intros x Hx ->%list_elem_of_singleton. apply Hnotin.
      apply list_elem_of_filter in Hx as [_ Hx].
      unfold mirrored_bases in Hx. rewrite Hmro in Hx.
      by apply mirrored_prefix_subseteq in Hx.
    + apply NoDup_singleton.
  - rewrite Hkn. apply set_eq. intros x. subst new.
    rewrite !elem_of_union, !elem_of_list_to_set, list_elem_of_filter.
    destruct (decide (x ∈ known s)); naive_solver.
Qed.

(** The ways through one call of [register_mirrored]. *)
Lemma register_mirrored_cases depth cls s r s' :
  ProxyM.register_mirrored (S depth) cls s = (r, s') →
  (is_class cls && issubclass_Mirrored cls = false ∧
   r = inl (ValueError NotAMirroredClass) ∧ s' = s) ∨
  (is_class cls && issubclass_Mirrored cls = true ∧ cls ∈ known s ∧
   r = inr tt ∧ s' = s) ∨
  (is_class cls && issubclass_Mirrored cls = true ∧ (cls ∉ known s) ∧
   ∃ r1 s1,
     ProxyM.register_bases (ProxyM.register_mirrored depth) (tail (mro cls)) s
       = (r1, s1) ∧
     ((∃ e, r1 = inl e ∧ r = inl e ∧ s' = s1) ∨
      (r1 = inr tt ∧ record_and_define cls s1 = (r, s')))).
Proof.
  rewrite register_mirrored_unfold.
  destruct (is_class cls && issubclass_Mirrored cls); simpl.
  2:{ intros [= <- <-]. by left. }
  unfold bind at 1. unfold gets at 1.
  destruct (decide (cls ∈ known s)) as [Hk|Hk].
  { intros [= <- <-]. right. by left. }
  unfold bind at 1.
  destruct (ProxyM.register_bases _ _ s) as [[e|[]] s1] eqn:H1.
  - intros [= <- <-]. right. right. do 2 (split; [done|]).
    exists (inl e), s1. split; [done|]. left. by exists e.
  - intros Hrun. right. right. do 2 (split; [done|]).
    exists (inr tt), s1. split; [done|]. by right.
Qed.

(** The ways through one round of the loop over the bases. *)
Lemma register_bases_cases register c l s r s' :
  ProxyM.register_bases register (c :: l) s = (r, s') →
  (issubclass_Mirrored c = false ∧ r = inr tt ∧ s' = s) ∨
  (issubclass_Mirrored c = true ∧ c ∈ known s ∧
   ProxyM.register_bases register l s = (r, s')) ∨
  (issubclass_Mirrored c = true ∧ (c ∉ known s) ∧
   ∃ r1 s1, register c s = (r1, s1) ∧
     ((∃ e, r1 = inl e ∧ r = inl e ∧ s' = s1) ∨
      (r1 = inr tt ∧ ProxyM.register_bases register l s1 = (r, s')))).
Proof.
  simpl. destruct (issubclass_Mirrored c); simpl.
  2:{ intros [= <- <-]. by left. }
  unfold bind at 1. unfold gets at 1.
  destruct (decide (c ∈ _)) as [Hk|Hk].
  { unfold bind, ret. intros Hrun. right. by left. }
  unfold bind.
  destruct (register c s) as [[e|[]] s1] eqn:H1.
  - intros [= <- <-]. right. right. do 2 (split; [done|]).
    exists (inl e), s1. split; [done|]. left. by exists e.
  - intros Hrun. right. right. do 2 (split; [done|]).
    exists (inr tt), s1. split; [done|]. by right.
Qed.

Lemma send_command_known command s r s' :
  ProxyM._send_command command s = (r, s') → known s' = known s.
Proof.
  intros Hrun. destruct (ProxyM.status s) eqn:Hst.
  - apply status_PENDING in Hst.
    rewrite send_command_pending in Hrun by done. by injection Hrun as <- <-.
  - apply status_CONNECTED in Hst as (c & Hws & Hc).
    rewrite (send_command_connected _ _ c) in Hrun by done.
    by injection Hrun as <- <-.
  - apply status_CLOSED in Hst as (c & code & Hws & Hc).
    rewrite (send_command_closed _ _ c code) in Hrun by done.
    by injection Hrun as <- <-.
Qed.

(** The class is recorded whether or not its definition can be sent. *)
Lemma record_and_define_known cls s r s' :
  record_and_define cls s = (r, s') → known s' = {[cls]} ∪ known s.
Proof.
  unfold record_and_define. unfold bind at 1. unfold modify at 1.
  set (s0 := on_self _ s).
  assert (H0 : known s0 = {[cls]} ∪ known s) by done.
  unfold bind at 1.
  destruct (ProxyM._send_command _ s0) as [[e|[]] s1] eqn:H1;
    apply send_command_known in H1.
  - intros [= <- <-]. congruence.
  - destruct (PyStr.truthy _).
    + intros H2%send_command_known. congruence.
    + intros [= <- <-]. congruence.
Qed.

(** On a CLOSED proxy the class is recorded and the first send raises. *)
Lemma record_and_define_closed cls s r s' :
  ProxyM.status s = CLOSED →
  record_and_define cls s = (r, s') →
  r = inl (RuntimeError AppIsClosed) ∧
  ProxyM.status s' = CLOSED ∧ outbox s' = outbox s.
Proof.
  intros (c & code & Hws & Hc)%status_CLOSED.
  unfold record_and_define. unfold bind at 1. unfold modify at 1.
  set (s0 := on_self _ s). unfold bind at 1.
  rewrite (send_command_closed _ s0 c code) by done.
  intros [= <- <-]. split; [done|]. split; [|done].
  apply status_CLOSED. by exists c, code.
Qed.

Lemma register_bases_closed register l :
  (∀ c s r s', ProxyM.status s = CLOSED → register c s = (r, s') →
     ProxyM.status s' = CLOSED ∧ outbox s' = outbox s) →
  ∀ s r s', ProxyM.status s = CLOSED →
    ProxyM.register_bases register l s = (r, s') →
    ProxyM.status s' = CLOSED ∧ outbox s' = outbox s.
Proof.
  intros Hreg. induction l as [|c l IH]; intros s r s' Hst Hrun.
  - by injection Hrun as <- <-.
  - apply register_bases_cases in Hrun
      as [(_ & _ & ->)|[(_ & _ & Hrun)|(_ & _ & r1 & s1 & H1 & Hrest)]].
    + done.
    + by apply IH in Hrun.
    + apply Hreg in H1 as [Hst1 Ho1]; [|done].
      destruct Hrest as [(e & _ & _ & ->)|[_ Hrun]]; [done|].
      apply IH in Hrun as [Hst2 Ho2]; [|done]. split; [done|congruence].
Qed.

(** On a CLOSED proxy no call, returning or raising, sends anything. *)
Lemma register_mirrored_closed depth cls s r s' :
  ProxyM.status s = CLOSED →
  ProxyM.register_mirrored depth cls s = (r, s') →
  ProxyM.status s' = CLOSED ∧ outbox s' = outbox s.
Proof.
  revert cls s r s'. induction depth as [|depth IH]; intros cls s r s' Hst Hrun.
  - by injection Hrun as <- <-.
  - apply register_mirrored_cases in Hrun
      as [(_ & _ & ->)|[(_ & _ & _ & ->)|(_ & _ & r1 & s1 & H1 & Hrest)]];
      [done..|].
    apply (register_bases_closed _ _ IH) in H1 as [Hst1 Ho1]; [|done].
    destruct Hrest as [(e & _ & _ & ->)|[_ Hrun]]; [done|].
    apply record_and_define_closed in Hrun as (_ & Hst2 & Ho2); [|done].
    split; [done|congruence].
Qed.

Lemma reaches_start K x z : reaches K x z → x ∉ K.
Proof. by intros []. Qed.

Lemma reaches_trans K x y z : reaches K x y → reaches K y z → reaches K x z.
Proof.
  induction 1 as [|x y' z' Hx Hy Hrest IH]; [done|].
  intros Hz. apply (reaches_step _ x y'); [done..|]. by apply IH.
Qed.

Lemma reaches_mono K K' x z : K ⊆ K' → reaches K' x z → reaches K x z.
Proof.
  intros HK. induction 1 as [x Hx|x y z Hx Hy Hrest IH].
  - apply reaches_here. set_solver.
  - apply (reaches_step _ x y); [set_solver|done..].
Qed.

(** A class that becomes known during the loop over the bases is reached
    from one of the bases the loop looks at. *)
Lemma register_bases_added register l :
  (∀ c s r s', register c s = (r, s') →
     known s ⊆ known s' ∧
     ∀ z, z ∉ known s → z ∈ known s' → reaches (known s) c z) →
  ∀ s r s', ProxyM.register_bases register l s = (r, s') →
    known s ⊆ known s' ∧
    ∀ z, z ∉ known s → z ∈ known s' →
      ∃ x, x ∈ mirrored_prefix l ∧ reaches (known s) x z.
Proof.
  intros Hreg. induction l as [|c l IH]; intros s r s' Hrun.
  - injection Hrun as <- <-. split; [done|]. by intros z Hz.
  - apply register_bases_cases in Hrun
      as [(_ & _ & ->)|[(Hm & Hk & Hrun)|(Hm & Hk & r1 & s1 & H1 & Hrest)]].
    + split; [done|]. by intros z Hz.
    + apply IH in Hrun as [Hsub Hadd]. split; [done|].
      intros z Hz Hz'. destruct (Hadd z Hz Hz') as (x & Hx & Hp).
      exists x. split; [|done]. simpl. rewrite Hm. by right.
    + apply Hreg in H1 as [Hsub1 Hadd1].
      destruct Hrest as [(e & _ & _ & ->)|[_ Hrun]].
      * split; [done|]. intros z Hz Hz'. exists c.
        split; [simpl; rewrite Hm; by left|by apply Hadd1].
      * apply IH in Hrun as [Hsub2 Hadd2]. split; [set_solver|].
        intros z Hz Hz'. destruct (decide (z ∈ known s1)) as [Hz1|Hz1].
        -- exists c. split; [simpl; rewrite Hm; by left|by apply Hadd1].
        -- destruct (Hadd2 z Hz1 Hz') as (x & Hx & Hp).
           exists x. split; [simpl; rewrite Hm; by right|].
           by apply (reaches_mono _ (known s1)).
Qed.

(** No call forgets a class, and a class that becomes known during a
    call for [cls] is reached from [cls]. *)
Lemma register_mirrored_added depth cls s r s' :
  ProxyM.register_mirrored depth cls s = (r, s') →
  known s ⊆ known s' ∧
  ∀ z, z ∉ known s → z ∈ known s' → reaches (known s) cls z.
Proof.
  revert cls s r s'. induction depth as [|depth IH]; intros cls s r s' Hrun.
  - injection Hrun as <- <-. split; [done|]. by intros z Hz.
  - apply register_mirrored_cases in Hrun
      as [(_ & _ & ->)|[(_ & _ & _ & ->)|(_ & Hk & r1 & s1 & H1 & Hrest)]];
      [split; [done|]; by intros z Hz..|].
    apply (register_bases_added _ _ IH) in H1 as [Hsub1 Hadd1].
    assert (Hloop : ∀ z, z ∉ known s → z ∈ known s1 → reaches (known s) cls z).
    { intros z Hz Hz1. destruct (Hadd1 z Hz Hz1) as (x & Hx & Hp).
      by apply (reaches_step _ cls x z). }
    destruct Hrest as [(e & _ & _ & ->)|[_ Hrun]]; [done|].
    apply record_and_define_known in Hrun. split; [set_solver|].
    intros z Hz Hz'. rewrite Hrun in Hz'.
    apply elem_of_union in Hz' as [->%elem_of_singleton|Hz1].
    + by apply reaches_here.
    + by apply Hloop.
Qed.

(** Classes that lead to each other through their bases: while none of
    them is known, the loop over bases with one of them among those it
    looks at does not come to its end, and none of them becomes known. *)
Lemma register_bases_cycle (I : Cls → Prop) register l :
  (∀ c s r s', (∀ z, I z → z ∉ known s) → register c s = (r, s') →
     (∀ z, I z → z ∉ known s') ∧ (I c → r ≠ inr tt)) →
  ∀ s r s', (∀ z, I z → z ∉ known s) →
    ProxyM.register_bases register l s = (r, s') →
    (∀ z, I z → z ∉ known s') ∧
    ((∃ x, I x ∧ x ∈ mirrored_prefix l) → r ≠ inr tt).
Proof.
  intros Hreg. induction l as [|c l IH]; intros s r s' Hinv Hrun.
  - injection Hrun as <- <-. split; [done|].
    intros (x & _ & Hx). by apply elem_of_nil in Hx.
  - apply register_bases_cases in Hrun
      as [(Hm & _ & ->)|[(Hm & Hk & Hrun)|(Hm & Hk & r1 & s1 & H1 & Hrest)]].
    + split; [done|]. intros (x & _ & Hx). simpl in Hx. rewrite Hm in Hx.
      by apply elem_of_nil in Hx.
    + apply IH in Hrun as [Hinv' Hfail]; [|done]. split; [done|].
      intros (x & HIx & Hx). simpl in Hx. rewrite Hm in Hx.
      apply elem_of_cons in Hx as [->|Hx]; [by apply Hinv in HIx|].
      apply Hfail. eauto.
    + apply Hreg in H1 as [Hinv1 Hfail1]; [|done].
      destruct Hrest as [(e & _ & -> & ->)|[-> Hrun]]; [done|].
      apply IH in Hrun as [Hinv2 Hfail2]; [|done]. split; [done|].
      intros (x & HIx & Hx). simpl in Hx. rewrite Hm in Hx.
      apply elem_of_cons in Hx as [->|Hx]; [by apply Hfail1 in HIx|].
      apply Hfail2. eauto.
Qed.

Lemma register_mirrored_cycle (I : Cls → Prop) :
  (∀ c, I c → ∃ x, I x ∧ x ∈ mirrored_bases c) →
  ∀ depth cls s r s', (∀ z, I z → z ∉ known s) →
    ProxyM.register_mirrored depth cls s = (r, s') →
    (∀ z, I z → z ∉ known s') ∧ (I cls → r ≠ inr tt).
Proof.
  intros HI. induction depth as [|depth IH]; intros cls s r s' Hinv Hrun.
  - by injection Hrun as <- <-.
  - apply register_mirrored_cases in Hrun
      as [(_ & -> & ->)|[(_ & Hk & _ & ->)|(_ & Hk & r1 & s1 & H1 & Hrest)]].
    + done.
    + split; [done|]. intros Hc. by apply Hinv in Hc.
    + apply (register_bases_cycle I _ _ IH) in H1 as [Hinv1 Hfail1]; [|done].
      destruct Hrest as [(e & _ & -> & ->)|[-> Hrun]]; [done|].
      assert (Hnot : ¬ I cls).
      { intros Hc. by apply Hfail1; [apply HI|]. }
      apply record_and_define_known in Hrun. split; [|done].
      intros z Hz. rewrite Hrun.
      intros [->%elem_of_singleton|Hz1]%elem_of_union; [done|].
      by apply (Hinv1 z).
Qed.

(** When a call for a class that was not known returns, the class is
    still not known at the end of the loop over its bases: it is recorded
    by the call itself, and by no call inside it. *)
Lemma register_mirrored_self_unknown depth cls s s' r1 s1 :
  cls ∉ known s →
  ProxyM.register_mirrored (S depth) cls s = (inr tt, s') →
  ProxyM.register_bases (ProxyM.register_mirrored depth) (tail (mro cls)) s
    = (r1, s1) →
  cls ∉ known s1.
Proof.
  intros Hk Hall H1 Hin.
  apply (register_bases_added _ _ (register_mirrored_added depth)) in H1
    as [_ Hadd].
  destruct (Hadd cls Hk Hin) as (x & Hx & Hback).
  set (I := λ z, reaches (known s) z cls ∧ reaches (known s) cls z).
  assert (HI : ∀ c, I c → ∃ y, I y ∧ y ∈ mirrored_bases c).
  { intros c [Hto Hfrom].
    inversion Hto as [c' Hc|c' y z' Hc Hy Hrest]; subst.
    - exists x. split; [|done]. split; [done|].
      apply (reaches_step _ cls x x); [done..|].
      apply reaches_here. by apply reaches_start in Hback.
    - exists y. split; [|done]. split; [done|].
      apply (reaches_trans _ _ c); [done|].
      apply (reaches_step _ c y y); [done..|].
      apply reaches_here. by apply reaches_start in Hrest. }
  destruct (register_mirrored_cycle I HI (S depth) cls s (inr tt) s')
    as [_ Hfail].
  - intros z [Hz _]. by apply reaches_start in Hz.
  - done.
  - apply Hfail; [|done]. split; by apply reaches_here.
Qed.

Lemma register_bases_defines register l :
  (∀ c s s', register c s = (inr tt, s') →
     ∃ ds, emits s s' (defines ds) ∧ NoDup ds ∧
       (∀ x, x ∈ ds → x ∉ known s) ∧ known s' = known s ∪ list_to_set ds) →
  ∀ s s', ProxyM.register_bases register l s = (inr tt, s') →
    ∃ ds, emits s s' (defines ds) ∧ NoDup ds ∧
      (∀ x, x ∈ ds → x ∉ known s) ∧ known s' = known s ∪ list_to_set ds.
Proof.
  intros Hreg.
  assert (Hnone : ∀ s, ∃ ds, emits s s (defines ds) ∧ NoDup ds ∧
            (∀ x, x ∈ ds → x ∉ known s) ∧ known s = known s ∪ list_to_set ds).
  { intros s. exists []. split; [apply emits_refl|]. split; [constructor|].
    split; [by intros x Hx%elem_of_nil|]. set_solver. }
  induction l as [|c l IH]; intros s s' Hrun.
  - injection Hrun as <-. apply Hnone.
  - apply register_bases_cases in Hrun
      as [(_ & _ & ->)|[(_ & _ & Hrun)|(_ & _ & r1 & s1 & H1 & Hrest)]].
    + apply Hnone.
    + by apply IH.
    + destruct Hrest as [(e & _ & [=] & _)|[-> Hrun]].
      apply Hreg in H1 as (ds1 & He1 & Hn1 & Hu1 & Hk1).
      apply IH in Hrun as (ds2 & He2 & Hn2 & Hu2 & Hk2).
      exists (ds1 ++ ds2). split; [|split; [|split]].
      * unfold defines. rewrite fmap_app, concat_app. by eapply emits_trans.
      * apply NoDup_app. split; [done|]. split; [|done].
        intros x Hx1 Hx2. apply (Hu2 x Hx2). rewrite Hk1. set_solver.
      * intros x [Hx|Hx]%elem_of_app; [by apply Hu1|].
        intros Hin. apply (Hu2 x Hx). rewrite Hk1. set_solver.
      * rewrite Hk2, Hk1, list_to_set_app_L. set_solver.
Qed.

(** What a call that returns has sent: the definitions of classes that
    were not known, each once, the class of the call last. *)
Lemma register_mirrored_defines depth cls s s' :
  ProxyM.register_mirrored depth cls s = (inr tt, s') →
  ∃ ds, emits s s' (defines ds) ∧ NoDup ds ∧
    (∀ x, x ∈ ds → x ∉ known s) ∧
    known s' = known s ∪ list_to_set ds ∧
    (cls ∈ known s → s' = s) ∧
    (cls ∉ known s → ProxyM.status s ≠ CLOSED ∧ ∃ before, ds = before ++ [cls]).
Proof.
  revert cls s s'. induction depth as [|depth IH]; intros cls s s' Hrun;
    [done|].
  pose proof Hrun as Hall.
  apply register_mirrored_cases in Hrun
    as [(_ & [=] & _)|[(_ & Hk & _ & ->)|(_ & Hk & r1 & s1 & H1 & Hrest)]].
  - exists []. split; [apply emits_refl|]. split; [constructor|].
    split; [by intros x Hx%elem_of_nil|]. split; [set_solver|].
    split; [done|]. by intros Hn.
  - destruct Hrest as [(e & _ & [=] & _)|[-> Hrun]].
    pose proof (register_mirrored_self_unknown _ _ _ _ _ _ Hk Hall H1) as Hself.
    apply register_bases_defines in H1 as (ds & He1 & Hn1 & Hu1 & Hk1).
    2:{ intros c t t' Ht. apply IH in Ht as (ds & ? & ? & ? & ? & _).
        by exists ds. }
    pose proof Hrun as Hrec.
    apply record_and_define_emits in Hrun as [He2 Hk2].
    exists (ds ++ [cls]). split; [|split; [|split; [|split; [|split]]]].
    + unfold defines. rewrite fmap_app, concat_app. simpl.
      rewrite app_nil_r. by eapply emits_trans.
    + apply NoDup_app. split; [done|]. split; [|apply NoDup_singleton].
      intros x Hx ->%list_elem_of_singleton. apply Hself. rewrite Hk1.
      set_solver.
    + intros x [Hx| ->%list_elem_of_singleton]%elem_of_app; [by apply Hu1|done].
    + rewrite Hk2, Hk1, list_to_set_app_L. set_solver.
    + by intros Hin.
    + intros _. split; [|by exists ds].
      intros Hclosed. rewrite <- (emits_status _ _ _ He1) in Hclosed.
      by apply (record_and_define_closed _ _ _ _ Hclosed) in Hrec as [[=] _].
Qed.

Lemma mirrored_prefix_Mirrored l x :
  x ∈ mirrored_prefix l → issubclass_Mirrored x = true.
Proof.
  induction l as [|c l IH]; simpl; [by intros ?%elem_of_nil|].
  destruct (issubclass_Mirrored c) eqn:Hm; [|by intros ?%elem_of_nil].
  intros [->|Hx]%elem_of_cons; [done|by apply IH].
Qed.

Lemma register_bases_returns register l :
  (∀ x, x ∈ mirrored_prefix l → ∀ t, ProxyM.status t ≠ CLOSED →
     ∃ t', register x t = (inr tt, t') ∧ ProxyM.status t' = ProxyM.status t) →
  ∀ s, ProxyM.status s ≠ CLOSED →
    ∃ s', ProxyM.register_bases register l s = (inr tt, s') ∧
      ProxyM.status s' = ProxyM.status s.
Proof.
  induction l as [|c l IH]; intros Hreg s Hopen.
  - by exists s.
  - simpl. simpl in Hreg.
    destruct (issubclass_Mirrored c) eqn:Hm; simpl; [|by exists s].
    unfold bind at 1. unfold gets at 1.
    assert (Hrest : ∀ x, x ∈ mirrored_prefix l → ∀ t,
              ProxyM.status t ≠ CLOSED →
              ∃ t', register x t = (inr tt, t') ∧
                ProxyM.status t' = ProxyM.status t).
    { intros x Hx. apply Hreg. by right. }
    destruct (decide (c ∈ _)) as [Hk|Hk].
    + unfold bind, ret. by apply IH.
    + destruct (Hreg c (list_elem_of_here _ _) s Hopen) as (s1 & Hrun1 & Hst1).
      unfold bind. rewrite Hrun1.
      destruct (IH Hrest s1) as (s2 & Hrun2 & Hst2); [congruence|].
      exists s2. split; [done|congruence].
Qed.

(** With classes ranked above their [Mirrored] bases, as the classes of a
    program are, a call on a proxy that is not CLOSED returns when the
    depth exceeds the rank of the class. *)
Lemma register_mirrored_returns (rank : Cls → nat) :
  (∀ c x, x ∈ mirrored_bases c → is_class x = true ∧ (rank x < rank c)%nat) →
  ∀ depth cls s,
    is_class cls && issubclass_Mirrored cls = true →
    (rank cls < depth)%nat →
    ProxyM.status s ≠ CLOSED →
    ∃ s', ProxyM.register_mirrored depth cls s = (inr tt, s') ∧
      ProxyM.status s' = ProxyM.status s.
Proof.
  intros Hrank. induction depth as [|depth IH]; intros cls s Hvalid Hlt Hopen;
    [lia|].
  rewrite register_mirrored_unfold, Hvalid. simpl.
  unfold bind at 1. unfold gets at 1.
  destruct (decide (cls ∈ known s)) as [Hk|Hk]; [by exists s|].
  destruct (register_bases_returns (ProxyM.register_mirrored depth)
              (tail (mro cls))) with (s := s) as (s1 & Hrun1 & Hst1); [|done|].
  { intros x Hx t Ht. destruct (Hrank cls x Hx) as [Hcls Hr].
    apply IH; [|lia|done]. rewrite Hcls. simpl.
    by apply (mirrored_prefix_Mirrored (tail (mro cls))). }
  unfold bind. rewrite Hrun1.
  destruct (record_and_define_open cls s1) as [s2 Hrun2]; [congruence|].
  exists s2. split; [done|].
  apply record_and_define_emits in Hrun2 as [Hem _].
  rewrite (emits_status _ _ _ Hem). done.
Qed.

(** C9, as the code has it. When a call of [register_mirrored] for a class
    the proxy does not know returns, the proxy is not CLOSED and the
    commands the call added are the definitions of classes that were not
    known, no class twice, the class of the call last: its definition is
    emitted exactly once. The class is known afterwards, and a second call
    returns at once with the proxy and the channels as the first call left
    them, so it emits nothing and the known classes stay the same. For a
    class that is already known the first call changes nothing either. On
    a CLOSED proxy no call, returning or raising, adds a command, and the
    first call for a class that is not known does not return: two calls
    emit no definition at all. On a proxy that is not CLOSED the first call
    does return for a [Mirrored] class with a single-inheritance chain,
    given the depth of that chain, and more generally whenever the classes
    can be ranked above their [Mirrored] bases and the depth exceeds the
    rank of the class. *)
Theorem register_mirrored_defines_once
    (depth : nat) (cls : Cls) (s : PState) :
  (∀ s1, ProxyM.register_mirrored depth cls s = (inr tt, s1) →
     cls ∈ known s1 ∧
     (∀ depth', ProxyM.register_mirrored (S depth') cls s1 = (inr tt, s1)) ∧
     (cls ∈ known s → s1 = s) ∧
     (cls ∉ known s →
        ProxyM.status s ≠ CLOSED ∧
        ∃ before,
          emits s s1 (defines (before ++ [cls])) ∧
          NoDup (before ++ [cls]) ∧
          (∀ c, c ∈ before → c ∉ known s) ∧
          known s1 = known s ∪ list_to_set (before ++ [cls]))) ∧
  (ProxyM.status s = CLOSED →
   ∀ r s1, ProxyM.register_mirrored depth cls s = (r, s1) →
     outbox s1 = outbox s ∧
     (cls ∉ known s → r ≠ inr tt) ∧
     ∀ depth' r' s2, ProxyM.register_mirrored depth' cls s1 = (r', s2) →
       outbox s2 = outbox s) ∧
  (issubclass_Mirrored cls = true →
   head (mro cls) = Some cls →
   chain (mro cls) →
   (length (mro cls) ≤ depth)%nat →
   ProxyM.status s ≠ CLOSED →
   ∃ s1, ProxyM.register_mirrored depth cls s = (inr tt, s1)) ∧
  (∀ rank : Cls → nat,
     (∀ c x, x ∈ mirrored_bases c →
        is_class x = true ∧ (rank x < rank c)%nat) →
     is_class cls && issubclass_Mirrored cls = true →
     (rank cls < depth)%nat →
     ProxyM.status s ≠ CLOSED →
     ∃ s1, ProxyM.register_mirrored depth cls s = (inr tt, s1)).
Proof.
  split; [|split; [|split]].
  - intros s1 Hrun. pose proof Hrun as Hfirst.
    apply register_mirrored_defines in Hrun
      as (ds & Hem & Hnd & Hun & Hkn & Hsame & Hnew).
    assert (Hvalid : is_class cls && issubclass_Mirrored cls = true).
    { destruct depth; [done|].
      by apply register_mirrored_cases in Hfirst
        as [(_ & [=] & _)|[(? & _)|(? & _)]]. }
    assert (Hin : cls ∈ known s1).
    { destruct (decide (cls ∈ known s)) as [Hc|Hc].
      - by rewrite (Hsame Hc).
      - destruct (Hnew Hc) as (_ & before & Hds).
        rewrite Hkn, Hds, list_to_set_app_L. set_solver. }
    split; [done|]. split; [|split; [done|]].
    + intros depth'. rewrite register_mirrored_unfold, Hvalid. simpl.
      unfold bind, gets. by rewrite decide_True.
    + intros Hc. destruct (Hnew Hc) as (Hopen & before & Hds). subst ds.
      split; [done|]. exists before.
      split; [done|]. split; [done|]. split; [|done].
      intros c Hc'. apply Hun, elem_of_app. by left.
  - intros Hclosed r s1 Hrun.
    destruct (register_mirrored_closed _ _ _ _ _ Hclosed Hrun) as [Hst1 Ho1].
    split; [done|]. split.
    + intros Hc ->.
      apply register_mirrored_defines in Hrun
        as (ds & _ & _ & _ & _ & _ & Hnew).
      by destruct (Hnew Hc).
    + intros depth' r' s2 Hrun2.
      apply (register_mirrored_closed _ _ _ _ _ Hst1) in Hrun2 as [_ Ho2].
      congruence.
  - intros Hm Hhead Hch Hlen Hopen.
    destruct (decide (cls ∈ known s)) as [Hc|Hc].
    + destruct (mro cls) as [|c t] eqn:Hmro; [done|]. injection Hhead as ->.
      destruct (chain_head _ _ Hch) as [Hcls _].
      destruct depth as [|depth]; [simpl in Hlen; lia|].
      exists s. rewrite register_mirrored_unfold, Hcls, Hm. simpl.
      unfold bind, gets. by rewrite decide_True.
    + destruct (register_mirrored_chain depth cls s) as (s1 & Hrun & _);
        try done.
      by exists s1.
  - intros rank Hrank Hvalid Hlt Hopen.
    destruct (register_mirrored_returns rank Hrank depth cls s)
      as (s1 & Hrun & _); try done.
    by exists s1.
Qed.

End RegistrationClaims.

(** ** The manager *)

Lemma world_eta w :
  set_channels (channels w) (set_heap (heap w) w) = w.
Proof. by destruct w. Qed.

Lemma with_proxy_gets {A} (f : PState → A) a p w :
  heap w !! a = Some p →
  with_proxy a (gets f) w = (inr (f {| self := p; chans := channels w |}), w).
Proof.
  intros Ha. unfold with_proxy, gets. rewrite Ha. simpl.
  rewrite insert_id by done. by rewrite world_eta.
Qed.

Lemma with_proxy_raises {A} (m : M PState A) a p w e :
  heap w !! a = Some p →
  m {| self := p; chans := channels w |}
    = (inl e, {| self := p; chans := channels w |}) →
  with_proxy a m w = (inl e, w).
Proof.
  intros Ha Hm. unfold with_proxy. rewrite Ha, Hm. simpl.
  rewrite insert_id by done. by rewrite world_eta.
Qed.

Lemma bind_ok {S A B} (m : M S A) (k : A → M S B) s a s' :
  m s = (inr a, s') → bind m k s = k a s'.
Proof. intros Hm. unfold bind. by rewrite Hm. Qed.

Lemma bind_raises {S A B} (m : M S A) (k : A → M S B) s e s' :
  m s = (inl e, s') → bind m k s = (inl e, s').
Proof. intros Hm. unfold bind. by rewrite Hm. Qed.

Lemma lookup_entry_ok name e w :
  _proxies w !! name = Some e → lookup_entry name w = (inr e, w).
Proof. intros He. unfold lookup_entry. by rewrite He. Qed.

Lemma find_no_match {A} (f : A → bool) (l : list A) :
  (∀ x, x ∈ l → f x = false) → List.find f l = None.
Proof.
  induction l as [|x l IH]; intros Hall; simpl; [done|].
  rewrite (Hall x) by left. apply IH. intros y Hy. apply Hall. by right.
Qed.

Section ManagerClaims.
Context {E : Externals}.

(** C3: for a registered name other than ['__default__'] and an instance
    id that is given (a non-empty string) and is the id of no proxy in
    the pending list of that name, [connect_client] raises 'Asked for app
    id ..., but could not find it', and the whole state, every list of
    the registry included, is as it was. *)
Theorem connect_client_dangling_id
    (ws : chan) (name app_id : string) (w : World)
    (cls : option Cls) (pending connected : list addr) :
  name ≠ "__default__" →
  _proxies w !! name = Some (cls, pending, connected) →
  PyStr.truthy app_id = true →
  (∀ proxy, proxy ∈ pending → ProxyM.id proxy ≠ app_id) →
  AppManager.connect_client ws name (Some app_id) w
    = (inl (RuntimeError (AppIdNotFound app_id)), w).
Proof.
  intros Hname Hentry Hgiven Hnone.
  unfold AppManager.connect_client.
  rewrite (bind_ok _ _ _ _ _ (lookup_entry_ok _ _ _ Hentry)).
  apply bind_raises. unfold AppManager.find_proxy.
  rewrite decide_False by done. simpl. rewrite Hgiven. simpl.
  rewrite find_no_match; [done|].
  intros proxy Hin. apply bool_decide_eq_false. intros [= Heq].
  by apply (Hnone proxy).
Qed.

(** C8: [_connect_client] on a proxy that has a channel raises
    [AssertionError] and changes nothing; after a successful attachment
    a further one fails in this way; and when the proxy [connect_client]
    has found for a connection already has a channel, [connect_client]
    raises [AssertionError] and the proxy keeps the channel it had. *)
Theorem attach_to_attached_proxy_fails :
  (∀ (s : PState) (ws c : chan),
     _ws (self s) = Some c →
     ProxyM._connect_client ws s = (inl AssertionError, s)) ∧
  (∀ (s s' : PState) (ws ws' : chan),
     ProxyM._connect_client ws s = (inr tt, s') →
     _ws (self s') = Some ws ∧
     ProxyM._connect_client ws' s' = (inl AssertionError, s')) ∧
  (∀ (w w1 : World) (ws c : chan) (name : string) (app_id : option string)
     (cls : option Cls) (pending connected pending' : list addr)
     (proxy : addr) (p : Proxy),
     _proxies w !! name = Some (cls, pending, connected) →
     AppManager.find_proxy name app_id cls pending connected w
       = (inr (proxy, pending'), w1) →
     heap w1 !! proxy = Some p →
     _ws p = Some c →
     AppManager.connect_client ws name app_id w = (inl AssertionError, w1)).
Proof.
  split; [|split].
  - intros s ws c Hws. by eapply connect_client_attached.
  - intros s s' ws ws' Hrun.
    destruct (_ws (self s)) as [c|] eqn:Hws.
    { by rewrite (connect_client_attached _ _ c) in Hrun. }
    destruct (connect_client_pending ws s Hws) as (s2 & Hrun2 & Hself & _).
    rewrite Hrun2 in Hrun. injection Hrun as <-.
    assert (_ws (self s2) = Some ws) by by rewrite Hself.
    split; [done|]. by eapply connect_client_attached.
  - intros w w1 ws c name app_id cls pending connected pending' proxy p
      Hentry Hfind Hp Hws.
    unfold AppManager.connect_client.
    rewrite (bind_ok _ _ _ _ _ (lookup_entry_ok _ _ _ Hentry)).
    rewrite (bind_ok _ _ _ _ _ Hfind).
    rewrite (bind_ok _ _ _ _ _ (with_proxy_gets _ _ _ _ Hp)).
    apply bind_raises. unfold ProxyM.status. simpl. rewrite Hws.
    by destruct (close_code (channels w1 c)).
Qed.

End ManagerClaims.

Section DefaultProxy.
Context {E : Externals}.

Lemma try_ports_state host candidates w r w' :
  try_ports host candidates w = (r, w') → w' = w.
Proof.
  revert r w'. induction candidates as [|i l IH]; intros r w'; simpl.
  - unfold raise. by intros [= _ <-].
  - unfold except_OSError, bind, listen.
    destruct (listen_fails _ _); simpl; [apply IH|].
    unfold ret. by intros [= _ <-].
Qed.

(** [init_server] touches the tornado application only. *)
Lemma init_server_state host port w r w' :
  init_server host port w = (r, w') →
  heap w' = heap w ∧ channels w' = channels w ∧ _proxies w' = _proxies w.
Proof.
  unfold init_server. unfold bind at 1. unfold gets at 1.
  destruct (_tornado_app w); [by intros [= _ <-]|].
  unfold bind at 1. unfold modify at 1.
  set (w0 := set_tornado_app _ w).
  unfold bind at 1.
  destruct port as [port|].
  - unfold bind, listen. destruct (listen_fails _ _); simpl.
    + by intros [= _ <-].
    + unfold modify. by intros [= _ <-].
  - destruct (try_ports _ _ w0) as [[e|port] w1] eqn:Htry;
      apply try_ports_state in Htry as ->.
    + by intros [= _ <-].
    + unfold modify. by intros [= _ <-].
Qed.

Lemma get_serving_at_state w r w' : get_serving_at w = (r, w') → w' = w.
Proof.
  unfold get_serving_at, bind, gets.
  destruct (_tornado_app w) as [[[hp|]]|]; by intros [= _ <-].
Qed.

(** Launching a runtime other than the exporter leaves the registry
    alone and changes at most the [_runtime] field of the proxy. *)
Lemma launch_runtime_state a p runtime kwargs w r w' :
  runtime ≠ "<export>" →
  heap w !! a = Some p →
  _launch_runtime a runtime kwargs w = (r, w') →
  _proxies w' = _proxies w ∧
  ∃ rt, heap w' = <[a := set_runtime rt p]> (heap w).
Proof.
  intros Hne Ha. unfold _launch_runtime.
  rewrite decide_False by done.
  assert (Hid : heap w = <[a := set_runtime (_runtime p) p]> (heap w)).
  { rewrite insert_id; [done|]. rewrite Ha. by destruct p. }
  destruct (decide (runtime = "notebook")).
  { intros [= _ <-]. eauto. }
  destruct (PyStr.truthy runtime); [|intros [= _ <-]; eauto].
  unfold bind at 1.
  destruct (init_server _ _ w) as [[e|[]] w1] eqn:Hinit;
    apply init_server_state in Hinit as (Hh & Hc & Hp).
  { intros [= _ <-]. rewrite Hh. eauto. }
  unfold bind at 1.
  destruct (get_serving_at w1) as [[e|[host port]] w2] eqn:Hserv;
    apply get_serving_at_state in Hserv as ->.
  { intros [= _ <-]. rewrite Hh. eauto. }
  rewrite <- Hh in Ha.
  rewrite (bind_ok _ _ _ _ _ (with_proxy_gets _ _ _ _ Ha)). simpl.
  destruct (launch _ _ _) as [e|rt].
  { intros [= _ <-]. rewrite Hh. eauto. }
  unfold with_proxy, modify. rewrite Ha. simpl.
  intros [= _ <-]. simpl. rewrite Hh. eauto.
Qed.

Lemma launch_runtime_notebook a kwargs w :
  _launch_runtime a "notebook" kwargs w = (inr tt, w).
Proof. reflexivity. Qed.

Lemma Proxy_new_state app_name runtime kwargs w r w' :
  runtime ≠ "<export>" →
  Proxy_new app_name (Some runtime) kwargs w = (r, w') →
  let a := fresh (dom (heap w)) in
  heap w !! a = None ∧
  _proxies w' = _proxies w ∧
  (∃ rt, heap w' = <[a := set_runtime rt (blank_proxy app_name w)]> (heap w)) ∧
  (∀ a', r = inr a' → a' = a).
Proof.
  intros Hne. unfold Proxy_new.
  unfold bind at 1. unfold gets at 1.
  unfold bind at 1. unfold gets at 1.
  unfold bind at 1. unfold modify at 1.
  set (a := fresh (dom (heap w))).
  fold (blank_proxy app_name w).
  set (w0 := set_heap _ w).
  intros Hrun. simpl.
  split; [apply not_elem_of_dom, is_fresh|].
  assert (Ha : heap w0 !! a = Some (blank_proxy app_name w))
    by apply lookup_insert_eq.
  assert (H0 : heap w0 =
    <[a := set_runtime None (blank_proxy app_name w)]> (heap w)) by done.
  unfold bind at 1 in Hrun.
  destruct (PyStr.truthy runtime).
  - destruct (_launch_runtime a runtime kwargs w0) as [[e|[]] w1] eqn:Hl;
      apply (launch_runtime_state _ _ _ _ _ _ _ Hne Ha) in Hl
        as (Hp & rt & Hh);
      injection Hrun as <- <-; rewrite Hp, Hh; simpl;
      (split; [done|]); (split; [|by intros ? [=]]);
      exists rt; by rewrite insert_insert_eq.
  - injection Hrun as <- <-. split; [done|]. split; [eauto|by intros ? [=]].
Qed.

Lemma last_app_last (pending connected : list addr) :
  last (pending ++ connected) =
    match last connected with
    | Some a => Some a
    | None => last pending
    end.
Proof. apply last_app. Qed.

(** With a proxy in one of the two lists, the last element of
    [pending + connected] is returned and nothing changes. *)
Lemma get_default_proxy_nonempty w cls pending connected proxy :
  _proxies w !! "__default__" = Some (cls, pending, connected) →
  last (pending ++ connected) = Some proxy →
  AppManager.get_default_proxy w = (inr proxy, w).
Proof.
  intros Hentry Hl. unfold AppManager.get_default_proxy.
  rewrite (bind_ok _ _ _ _ _ (lookup_entry_ok _ _ _ Hentry)).
  by rewrite Hl.
Qed.

(** C2, as the code has it: when the default entry has a pending or a
    connected proxy, [get_default_proxy] returns the last element of
    [pending + connected] (the last connected proxy if there is one,
    else the last pending proxy) and changes nothing. When both lists
    are empty it creates a proxy at a new identity; if that returns
    normally (it always does in the notebook) the proxy has no widget,
    no channel and an empty buffer, and is the only element of the
    pending list; if it raises, the registry is as it was. *)
Theorem get_default_proxy_returns_last
    (w : World) (cls : option Cls) (pending connected : list addr) :
  _proxies w !! "__default__" = Some (cls, pending, connected) →
  (∀ proxy, last (pending ++ connected) = Some proxy →
     AppManager.get_default_proxy w = (inr proxy, w)) ∧
  (∀ proxy, last connected = Some proxy →
     AppManager.get_default_proxy w = (inr proxy, w)) ∧
  (∀ proxy, connected = [] → last pending = Some proxy →
     AppManager.get_default_proxy w = (inr proxy, w)) ∧
  (pending = [] → connected = [] →
     ∀ r w', AppManager.get_default_proxy w = (r, w') →
       match r with
       | inr proxy =>
           heap w !! proxy = None ∧
           (∃ p, heap w' !! proxy = Some p ∧
                 _app_name p = "__default__" ∧ _widget p = None ∧
                 _ws p = None ∧ _pending_commands p = []) ∧
           _proxies w' = <["__default__" := (cls, [proxy], [])]> (_proxies w)
       | inl _ => _proxies w' = _proxies w
       end) ∧
  (pending = [] → connected = [] → is_notebook w = true →
     ∃ proxy w', AppManager.get_default_proxy w = (inr proxy, w')).
Proof.
  intros Hentry.
  assert (Hlast : ∀ proxy, last (pending ++ connected) = Some proxy →
            AppManager.get_default_proxy w = (inr proxy, w)).
  { intros proxy Hl. by eapply get_default_proxy_nonempty. }
  split; [done|]. split; [|split; [|split]].
  - intros proxy Hl. apply Hlast. by rewrite last_app_last, Hl.
  - intros proxy -> Hl. apply Hlast. by rewrite app_nil_r.
  - intros -> -> r w'. unfold AppManager.get_default_proxy.
    rewrite (bind_ok _ _ _ _ _ (lookup_entry_ok _ _ _ Hentry)). simpl.
    unfold bind at 1. unfold gets at 1.
    unfold bind at 1.
    set (runtime := if is_notebook w then _ else _).
    assert (Hne : runtime ≠ "<export>") by (subst runtime; by destruct (is_notebook w)).
    destruct (Proxy_new _ _ _ w) as [[e|a] w1] eqn:Hnew;
      apply (Proxy_new_state _ _ _ _ _ _ Hne) in Hnew
        as (Hfresh & Hp & (rt & Hh) & Ha).
    + by intros [= <- <-].
    + rewrite <- (Ha a eq_refl) in *. unfold bind, set_entry, modify, ret.
      intros [= <- <-]. simpl. split; [done|]. split; [|by rewrite Hp].
      eexists. rewrite Hh. split; [apply lookup_insert_eq|done].
  - intros -> -> Hnb. unfold AppManager.get_default_proxy.
    rewrite (bind_ok _ _ _ _ _ (lookup_entry_ok _ _ _ Hentry)). simpl.
    unfold bind at 1. unfold gets at 1. rewrite Hnb.
    unfold Proxy_new, bind, gets, modify, set_entry, ret. simpl. eauto.
Qed.

End DefaultProxy.

Section Registry.
Context {E : Externals}.

(** [register_app_class] on a name that is registered with another
    class: the class is replaced and the lists are kept. *)
Lemma register_app_class_other_class cls old pending connected w :
  is_class cls && issubclass_Widget cls = true →
  _proxies w !! cls_name cls = Some (old, pending, connected) →
  old ≠ Some cls →
  AppManager.register_app_class cls w =
    (inr tt, set_proxies (<[cls_name cls := (Some cls, pending, connected)]>
                            (_proxies w)) w).
Proof.
  intros Hvalid Hentry Hold. unfold AppManager.register_app_class.
  rewrite Hvalid. unfold assert_, bind, ret, gets. rewrite Hentry.
  rewrite decide_True by congruence. done.
Qed.

(** [register_app_class] on a name that is registered with this very
    class: the entry gets two new, empty lists. *)
Lemma register_app_class_same_class cls pending connected w :
  is_class cls && issubclass_Widget cls = true →
  _proxies w !! cls_name cls = Some (Some cls, pending, connected) →
  AppManager.register_app_class cls w =
    (inr tt, set_proxies (<[cls_name cls := (Some cls, [], [])]>
                            (_proxies w)) w).
Proof.
  intros Hvalid Hentry. unfold AppManager.register_app_class.
  rewrite Hvalid. unfold assert_, bind, ret, gets. rewrite Hentry.
  rewrite decide_False by (by intros Hne). done.
Qed.

End Registry.

(** C4 fails when the class registered again is the class already stored:
    [Calc] is registered with the pending list [[1]] and the connected
    list [[2]]; registering [Calc] again returns normally and leaves both
    lists empty. *)
Theorem register_app_class_again_drops_lists :
  _proxies Demo.calc_registered !! "Calc"
    = Some (Some Demo.Calc, [1%positive], [2%positive]) ∧
  ∃ w', AppManager.register_app_class (E := Demo.externals) Demo.Calc
          Demo.calc_registered = (inr tt, w') ∧
        _proxies w' !! "Calc" = Some (Some Demo.Calc, [], []).
Proof.
  assert (Hentry : _proxies Demo.calc_registered !! "Calc"
                   = Some (Some Demo.Calc, [1%positive], [2%positive]))
    by apply lookup_insert_eq.
  split; [done|]. eexists. split.
  - by apply (register_app_class_same_class (E := Demo.externals) Demo.Calc
                [1%positive] [2%positive]).
  - apply lookup_insert_eq.
Qed.

(** ** The theorems at the small instance *)

Lemma port_hash_in_closed_range_witness :
  (49152 ≤ port_hash "flexx+0" ≤ 65535)%Z ∧
  port_hash (seed 0) = port_hash "flexx+0".
Proof.
  destruct port_hash_in_closed_range as (Hrange & _ & _ & _ & Hsame).
  split; [apply Hrange|]. apply Hsame. reflexivity.
Defined.

Lemma send_command_by_status_witness :
  (∃ s', ProxyM._send_command "EXEC y=2" Demo.connected_state = (inr tt, s') ∧
         sent (chans s' (WebSocket 1)) = ["EXEC y=2"] ∧
         _pending_commands (self s') = ["EXEC x=1"]) ∧
  (∃ s', ProxyM._send_command "EXEC y=2" Demo.pending_state = (inr tt, s') ∧
         _pending_commands (self s') = ["EXEC x=1"; "EXEC y=2"] ∧
         chans s' = Demo.chans0) ∧
  ProxyM._send_command "EXEC y=2" Demo.closed_state
    = (inl (RuntimeError AppIsClosed), Demo.closed_state).
Proof.
  split; [|split].
  - destruct (send_command_by_status "EXEC y=2" Demo.connected_state)
      as (Hconnected & _ & _).
    destruct (Hconnected eq_refl) as (c & s' & Hws & Hrun & Hself & Hsent & _).
    injection Hws as <-. exists s'. split; [exact Hrun|].
    split; [exact Hsent|]. rewrite Hself. reflexivity.
  - destruct (send_command_by_status "EXEC y=2" Demo.pending_state)
      as (_ & Hpending & _).
    destruct (Hpending eq_refl) as (s' & Hrun & Hbuf & _ & Hchans).
    exists s'. split; [exact Hrun|]. split; [exact Hbuf|exact Hchans].
  - destruct (send_command_by_status "EXEC y=2" Demo.closed_state)
      as (_ & _ & Hclosed).
    apply Hclosed. reflexivity.
Defined.

Lemma buffered_commands_are_flushed_in_order_witness :
  _ws (self Demo.pending_state) = None ∧
  ∃ s1 s2 s3,
    send_commands ["EXEC y=2"] Demo.pending_state = (inr tt, s1) ∧
    _pending_commands (self s1) = ["EXEC x=1"; "EXEC y=2"] ∧
    ProxyM._connect_client (WebSocket 1) s1 = (inr tt, s2) ∧
    sent (chans s2 (WebSocket 1)) = ["EXEC x=1"; "EXEC y=2"] ∧
    send_commands ["EXEC z=3"] s2 = (inr tt, s3) ∧
    sent (chans s3 (WebSocket 1)) = ["EXEC x=1"; "EXEC y=2"; "EXEC z=3"] ∧
    _pending_commands (self s3) = ["EXEC x=1"; "EXEC y=2"].
Proof.
  split; [reflexivity|].
  destruct (buffered_commands_are_flushed_in_order Demo.pending_state
              (WebSocket 1) ["EXEC y=2"] ["EXEC z=3"] eq_refl)
    as (s1 & s2 & Hsend & Hbuf & _ & _ & Hattach & _ & Hsent & Hlater).
  destruct (Hlater eq_refl) as (s3 & Hsend3 & Hsent3 & Hbuf3).
  exists s1, s2, s3.
  split; [exact Hsend|]. split; [exact Hbuf|]. split; [exact Hattach|].
  split; [exact Hsent|]. split; [exact Hsend3|].
  split; [exact Hsent3|exact Hbuf3].
Defined.

Lemma demo_chain : chain (E := Demo.externals) (mro (Externals := Demo.externals) Demo.Button).
Proof.
  intros i c Hi. simpl in Hi. unfold Demo.mro_of in Hi. simpl in Hi.
  destruct i as [|[|[|[|i]]]]; simpl in Hi; [| | | |done];
    injection Hi as <-; split; reflexivity.
Qed.

Lemma register_mirrored_bases_first_witness :
  ∃ s', ProxyM.register_mirrored (E := Demo.externals) 4 Demo.Button
          Demo.pending_state = (inr tt, s') ∧
    outbox s' = ["EXEC x=1"; "DEFINE-JS base"; "DEFINE-JS button";
                 "DEFINE-CSS .b{}"] ∧
    known s' = {[Demo.Mirrored]} ∪ list_to_set [Demo.Base] ∪ {[Demo.Button]}.
Proof.
  destruct (register_mirrored_bases_first (E := Demo.externals) 4 Demo.Button
              Demo.pending_state) as (s' & Hrun & Hout & _ & Hknown).
  - reflexivity.
  - reflexivity.
  - exact demo_chain.
  - simpl. lia.
  - change (Demo.Button ∉ ({[Demo.Mirrored]} : gset Cls)).
    intros Hin%elem_of_singleton. discriminate.
  - discriminate.
  - exists s'. split; [exact Hrun|]. split; [exact Hout|exact Hknown].
Defined.

(** In the diamond every class has a longer method resolution order than
    its bases. *)
Lemma diamond_ranked c x :
  x ∈ mirrored_bases (E := Demo2.diamond) c →
  @is_class Demo2.diamond x = true ∧
  (length (@mro Demo2.diamond x) < length (@mro Demo2.diamond c))%nat.
Proof.
  intros Hx. split; [done|]. revert Hx. unfold mirrored_bases.
  cbn [mro Demo2.diamond].
  destruct (decide (c = Demo2.Both)) as [->|];
    [|destruct (decide (c = Demo2.Left)) as [->|];
      [|destruct (decide (c = Demo2.Right)) as [->|];
        [|destruct (decide (c = Demo.Mirrored)) as [->|]]]].
  - intros Hx.
    assert (Hcases : x = Demo2.Left ∨ x = Demo2.Right ∨ x = Demo.Mirrored).
    { change (x ∈ [Demo2.Left; Demo2.Right; Demo.Mirrored]) in Hx.
      set_solver. }
    destruct Hcases as [->|[->| ->]]; vm_compute; lia.
  - intros Hx. change (x ∈ [Demo.Mirrored]) in Hx.
    apply list_elem_of_singleton in Hx as ->. vm_compute. lia.
  - intros Hx. change (x ∈ [Demo.Mirrored]) in Hx.
    apply list_elem_of_singleton in Hx as ->. vm_compute. lia.
  - intros Hx. change (x ∈ []) in Hx. by apply elem_of_nil in Hx.
  - intros Hx. change (x ∈ []) in Hx. by apply elem_of_nil in Hx.
Qed.

Lemma register_mirrored_defines_once_witness :
  (∃ s1, ProxyM.register_mirrored (E := Demo.externals) 4 Demo.Button
           Demo.pending_state = (inr tt, s1) ∧
     Demo.Button ∈ known s1 ∧
     ProxyM.register_mirrored (E := Demo.externals) 1 Demo.Button s1
       = (inr tt, s1) ∧
     outbox s1 = ["EXEC x=1"; "DEFINE-JS base"; "DEFINE-JS button";
                  "DEFINE-CSS .b{}"] ∧
     ∃ before,
       outbox s1 = outbox Demo.pending_state
                     ++ defines (E := Demo.externals) (before ++ [Demo.Button]) ∧
       NoDup (before ++ [Demo.Button])) ∧
  (∃ s1, ProxyM.register_mirrored (E := Demo2.diamond) 6 Demo2.Both
           Demo.connected_state = (inr tt, s1) ∧
     ProxyM.register_mirrored (E := Demo2.diamond) 6 Demo2.Both s1
       = (inr tt, s1) ∧
     outbox s1 = ["DEFINE-JS left"; "DEFINE-JS right"; "DEFINE-JS both"] ∧
     ∃ before,
       outbox s1 = outbox Demo.connected_state
                     ++ defines (E := Demo2.diamond) (before ++ [Demo2.Both]) ∧
       NoDup (before ++ [Demo2.Both])).
Proof.
  split.
  - destruct (register_mirrored_defines_once (E := Demo.externals) 4
                Demo.Button Demo.pending_state) as (Hsecond & _ & Hfirst & _).
    destruct Hfirst as (s1 & Hrun).
    + reflexivity.
    + reflexivity.
    + exact demo_chain.
    + simpl. lia.
    + discriminate.
    + destruct (Hsecond s1 Hrun) as (Hin & Hagain & _ & Hnew).
      destruct Hnew as (_ & before & (_ & _ & Hout) & Hnd & _).
      { change (Demo.Button ∉ ({[Demo.Mirrored]} : gset Cls)).
        intros Hb%elem_of_singleton. discriminate. }
      exists s1. split; [exact Hrun|]. split; [exact Hin|].
      split; [apply Hagain|]. split.
      * vm_compute in Hrun. injection Hrun as <-. reflexivity.
      * exists before. split; [exact Hout|exact Hnd].
  - destruct (register_mirrored_defines_once (E := Demo2.diamond) 6
                Demo2.Both Demo.connected_state) as (Hsecond & _ & _ & Hfirst).
    destruct (Hfirst (λ c, length (@mro Demo2.diamond c))) as (s1 & Hrun).
    + exact diamond_ranked.
    + reflexivity.
    + simpl. lia.
    + discriminate.
    + destruct (Hsecond s1 Hrun) as (_ & Hagain & _ & Hnew).
      destruct Hnew as (_ & before & (_ & _ & Hout) & Hnd & _).
      { change (Demo2.Both ∉ ({[Demo.Mirrored]} : gset Cls)).
        intros Hb%elem_of_singleton. discriminate. }
      exists s1. split; [exact Hrun|]. split; [apply Hagain|]. split.
      * vm_compute in Hrun. injection Hrun as <-. reflexivity.
      * exists before. split; [exact Hout|exact Hnd].
Defined.

(** C9 as stated fails on a CLOSED proxy. [Base] is a [Mirrored] class
    the proxy does not know. The first call records it and raises at the
    first send, the second call returns at once: the two calls have put
    no command on any channel nor into the buffer, and [Base] counts as
    known without ever having been defined. *)
Lemma register_mirrored_closed_defines_nothing :
  ProxyM.status Demo.closed_state = CLOSED ∧
  @is_class Demo.externals Demo.Base
    && @issubclass_Mirrored Demo.externals Demo.Base = true ∧
  (Demo.Base ∉ known Demo.closed_state) ∧
  ∃ s1,
    ProxyM.register_mirrored (E := Demo.externals) 2 Demo.Base Demo.closed_state
      = (inl (RuntimeError AppIsClosed), s1) ∧
    ProxyM.register_mirrored (E := Demo.externals) 2 Demo.Base s1
      = (inr tt, s1) ∧
    Demo.Base ∈ known s1 ∧
    chans s1 = chans Demo.closed_state ∧
    _pending_commands (self s1) = _pending_commands (self Demo.closed_state) ∧
    outbox s1 = [].
Proof.
  split; [reflexivity|]. split; [reflexivity|]. split.
  { change (Demo.Base ∉ ({[Demo.Mirrored]} : gset Cls)).
    intros Hb%elem_of_singleton. discriminate. }
  exists (on_self (set_known ({[Demo.Base]} ∪ known Demo.closed_state))
            Demo.closed_state).
  split; [reflexivity|]. split; [reflexivity|]. split.
  { unfold known. simpl. apply elem_of_union_l. by apply elem_of_singleton. }
  split; [reflexivity|]. split; reflexivity.
Qed.

Lemma demo_default_both_entry :
  _proxies Demo.default_both !! "__default__"
    = Some (None, [1%positive], [2%positive]).
Proof. apply lookup_singleton_eq. Qed.

(** C2 as stated fails: the default entry has the pending proxy 1 and the
    connected proxy 2, and the connected one is returned. *)
Lemma get_default_proxy_prefers_connected :
  _proxies Demo.default_both !! "__default__"
    = Some (None, [1%positive], [2%positive]) ∧
  last [1%positive] = Some 1%positive ∧
  AppManager.get_default_proxy (E := Demo.externals) Demo.default_both
    = (inr 2%positive, Demo.default_both) ∧
  AppManager.get_default_proxy (E := Demo.externals) Demo.default_both
    ≠ (inr 1%positive, Demo.default_both).
Proof.
  assert (Hrun : AppManager.get_default_proxy (E := Demo.externals)
                   Demo.default_both = (inr 2%positive, Demo.default_both)).
  { eapply get_default_proxy_nonempty; [apply demo_default_both_entry|done]. }
  split; [apply demo_default_both_entry|]. split; [done|]. split; [done|].
  rewrite Hrun. by intros [=].
Qed.

Lemma get_default_proxy_returns_last_witness :
  AppManager.get_default_proxy (E := Demo.externals) Demo.default_both
    = (inr 2%positive, Demo.default_both) ∧
  ∃ proxy w', AppManager.get_default_proxy (E := Demo.externals)
                Demo.default_empty = (inr proxy, w').
Proof.
  split.
  - destruct (get_default_proxy_returns_last (E := Demo.externals)
                Demo.default_both None [1%positive] [2%positive]
                demo_default_both_entry) as (Hlast & _).
    apply Hlast. reflexivity.
  - destruct (get_default_proxy_returns_last (E := Demo.externals)
                Demo.default_empty None [] [])
      as (_ & _ & _ & _ & Hnew).
    + apply lookup_singleton_eq.
    + apply Hnew; reflexivity.
Defined.

Lemma demo_calc_entry :
  _proxies Demo.calc_registered !! "Calc"
    = Some (Some Demo.Calc, [1%positive], [2%positive]).
Proof. apply lookup_insert_eq. Qed.

Lemma connect_client_dangling_id_witness :
  AppManager.connect_client (E := Demo.externals) (WebSocket 3) "Calc"
    (Some "ff") Demo.calc_registered
  = (inl (RuntimeError (AppIdNotFound "ff")), Demo.calc_registered).
Proof.
  apply (connect_client_dangling_id (E := Demo.externals) (WebSocket 3)
           "Calc" "ff" Demo.calc_registered (Some Demo.Calc)
           [1%positive] [2%positive]).
  - discriminate.
  - apply demo_calc_entry.
  - reflexivity.
  - intros proxy Hin%list_elem_of_singleton. subst proxy. discriminate.
Defined.

Lemma attach_to_attached_proxy_fails_witness :
  ProxyM._connect_client (WebSocket 3) Demo.connected_state
    = (inl AssertionError, Demo.connected_state) ∧
  (∃ s', ProxyM._connect_client (WebSocket 1) Demo.pending_state = (inr tt, s') ∧
         ProxyM._connect_client (WebSocket 3) s' = (inl AssertionError, s')) ∧
  ∃ w1, AppManager.connect_client (E := Demo.externals) (WebSocket 3)
          "__default__" None Demo.default_attached = (inl AssertionError, w1) ∧
        heap w1 !! 2%positive = Some Demo.connected_proxy.
Proof.
  destruct (attach_to_attached_proxy_fails (E := Demo.externals))
    as (Hdirect & Htwice & Hmanager).
  split; [|split].
  - apply (Hdirect Demo.connected_state (WebSocket 3) (WebSocket 1)).
    reflexivity.
  - set (s' := snd (ProxyM._connect_client (WebSocket 1) Demo.pending_state)).
    assert (Hrun : ProxyM._connect_client (WebSocket 1) Demo.pending_state
                   = (inr tt, s')) by reflexivity.
    exists s'. split; [exact Hrun|].
    apply (Htwice Demo.pending_state s' (WebSocket 1) (WebSocket 3) Hrun).
  - set (w1 := snd (AppManager.find_proxy (E := Demo.externals) "__default__"
                      None None [2%positive] [] Demo.default_attached)).
    assert (Hp : heap w1 !! 2%positive = Some Demo.connected_proxy)
      by (vm_compute; reflexivity).
    exists w1. split; [|exact Hp].
    apply (Hmanager Demo.default_attached w1 (WebSocket 3) (WebSocket 1)
             "__default__" None None [2%positive] [] [] 2%positive
             Demo.connected_proxy).
    + apply lookup_singleton_eq.
    + reflexivity.
    + exact Hp.
    + reflexivity.
Defined.

Lemma close_keeps_channel_and_buffer_witness :
  ProxyM.status Demo.launched_state = CONNECTED ∧
  ∃ s', ProxyM.close (E := Demo.externals) Demo.launched_state = (inr tt, s') ∧
    ProxyM.status s' = CONNECTED ∧
    _ws (self s') = Some (WebSocket 1) ∧
    _pending_commands (self s') = ["EXEC x=1"] ∧
    _widget (self s') = None.
Proof.
  split; [reflexivity|].
  destruct (close_keeps_channel_and_buffer (E := Demo.externals)
              Demo.launched_state)
    as (r & s' & Hrun & Hws & Hbuf & _ & _ & Hst & _ & _ & [-> _] & Hwidget).
  exists s'. split; [exact Hrun|]. split; [exact (Hst eq_refl)|].
  split; [exact Hws|]. split; [exact Hbuf|exact (Hwidget eq_refl)].
Defined.

(** * Further properties *)

(** ** Identifiers *)

Lemma digit_value_digit (b d : N) :
  (b = 10 ∨ b = 16)%N → (d < b)%N →
  Parse.digit_value (PyStr.digit d (b =? 16)%N) = d.
Proof.
  intros Hb Hd.
  assert (Hall : Forall (λ n, Parse.digit_value (PyStr.digit (N.of_nat n) true)
                              = N.of_nat n) (seq 0 16))
    by (apply (bool_decide_unpack _); vm_compute; reflexivity).
  assert (Hten : Forall (λ n, Parse.digit_value (PyStr.digit (N.of_nat n) false)
                              = N.of_nat n) (seq 0 10))
    by (apply (bool_decide_unpack _); vm_compute; reflexivity).
  rewrite Forall_forall in Hall, Hten.
  rewrite <- (N2Nat.id d).
  destruct Hb as [-> | ->]; simpl.
  - apply Hten, elem_of_seq. lia.
  - apply Hall, elem_of_seq. lia.
Qed.

Lemma digits_number (b : N) (fuel : nat) :
  (b = 10 ∨ b = 16)%N →
  ∀ n acc, (n < 2 ^ N.of_nat fuel)%N →
    Parse.number b (PyStr.digits fuel b n acc) = Parse.number_from b n acc.
Proof.
  intros Hb. induction fuel as [|fuel IH]; intros n acc Hn.
  - simpl in *. assert (n = 0%N) as -> by lia. reflexivity.
  - assert (Hb2 : (2 ≤ b)%N) by lia.
    assert (Hmod : (n mod b < b)%N) by (apply N.mod_lt; lia).
    cbn [PyStr.digits].
    destruct (n / b =? 0)%N eqn:Hq.
    + apply N.eqb_eq in Hq. apply N.div_small_iff in Hq; [|lia].
      unfold Parse.number. cbn [Parse.number_from].
      rewrite digit_value_digit by done.
      rewrite N.mod_small by done. reflexivity.
    + rewrite IH.
      * cbn [Parse.number_from]. rewrite digit_value_digit by done.
        f_equal. rewrite (N.div_mod n b) at 3 by lia. lia.
      * rewrite Nat2N.inj_succ, N.pow_succ_r' in Hn.
        apply N.Div0.div_lt_upper_bound.
        assert (2 * 2 ^ N.of_nat fuel ≤ b * 2 ^ N.of_nat fuel)%N
          by (apply N.mul_le_mono_r; lia).
        lia.
Qed.

Lemma fuel_enough (n : N) : (n < 2 ^ N.of_nat (S (N.to_nat (N.log2 n))))%N.
Proof.
  rewrite Nat2N.inj_succ, N2Nat.id.
  destruct n as [|p]; [done|]. apply N.log2_spec. lia.
Qed.

Lemma digits_nonempty fuel b n acc :
  acc ≠ EmptyString → PyStr.digits fuel b n acc ≠ EmptyString.
Proof.
  revert n acc. induction fuel as [|fuel IH]; intros n acc Hacc; [done|].
  cbn [PyStr.digits]. destruct (n / b =? 0)%N; [done|]. by apply IH.
Qed.

Lemma fmt_nonempty fuel b n : PyStr.digits (S fuel) b n "" ≠ EmptyString.
Proof.
  cbn [PyStr.digits]. destruct (n / b =? 0)%N; [done|].
  by apply digits_nonempty.
Qed.

Lemma fmt_x_number (n : N) : Parse.number 16 (PyStr.fmt_x n) = n.
Proof.
  unfold PyStr.fmt_x. rewrite digits_number; [done|by right|apply fuel_enough].
Qed.

Lemma id_inj (a b : addr) : ProxyM.id a = ProxyM.id b → a = b.
Proof.
  intros Heq. apply (f_equal (Parse.number 16)) in Heq.
  unfold ProxyM.id in Heq. rewrite !fmt_x_number in Heq. by injection Heq.
Qed.

Lemma id_truthy (a : addr) : PyStr.truthy (ProxyM.id a) = true.
Proof.
  unfold ProxyM.id, PyStr.fmt_x.
  pose proof (fmt_nonempty (N.to_nat (N.log2 (N.pos a))) 16 (N.pos a)).
  by destruct (PyStr.digits _ _ _ _).
Qed.

(** X1. The id of a proxy, read as a hexadecimal number, is the identity of
    the proxy: distinct proxies have distinct ids, and no id is the empty
    string (so an id always counts as given in [connect_client]). In the
    same way the decimal text in a seed or a url reads back as the number
    written. *)
Theorem proxy_id_identifies (a b : addr) :
  Parse.number 16 (ProxyM.id a) = Npos a ∧
  (ProxyM.id a = ProxyM.id b → a = b) ∧
  PyStr.truthy (ProxyM.id a) = true ∧
  (∀ n : N, Parse.number 10 (PyStr.fmt_i n) = n).
Proof.
  split; [apply fmt_x_number|]. split; [apply id_inj|].
  split; [apply id_truthy|].
  intros n. unfold PyStr.fmt_i.
  rewrite digits_number; [done|by left|apply fuel_enough].
Qed.

Lemma proxy_id_identifies_witness :
  ProxyM.id 255%positive = "ff" ∧
  ProxyM.id 255%positive ≠ ProxyM.id 4095%positive.
Proof.
  split; [reflexivity|].
  intros Heq.
  destruct (proxy_id_identifies 255%positive 4095%positive) as (_ & Hinj & _).
  specialize (Hinj Heq). discriminate Hinj.
Defined.

(** ** Connections *)

Lemma with_proxy_run {A} (m : M PState A) a p w r s' :
  heap w !! a = Some p →
  m {| self := p; chans := channels w |} = (r, s') →
  with_proxy a m w =
    (r, set_channels (chans s') (set_heap (<[a := self s']> (heap w)) w)).
Proof. intros Ha Hm. unfold with_proxy. by rewrite Ha, Hm. Qed.

Lemma find_by_id (proxy : addr) (pending : list addr) :
  proxy ∈ pending →
  List.find (λ q, bool_decide (Some (ProxyM.id q) = Some (ProxyM.id proxy)))
            pending = Some proxy.
Proof.
  induction pending as [|q l IH]; intros Hin; [by apply elem_of_nil in Hin|].
  simpl. destruct (decide (q = proxy)) as [->|Hne].
  - by rewrite bool_decide_eq_true_2.
  - rewrite bool_decide_eq_false_2.
    + apply IH. apply elem_of_cons in Hin as [->|]; done.
    + intros [= Heq]. by apply id_inj in Heq.
Qed.

Section Connections.
Context {E : Externals}.

(** The end of [connect_client] for a proxy without a channel: it is
    attached, its buffer goes to the channel, and it is appended to the
    connected list. *)
Lemma connect_client_attach ws name app_id w w1 cls pending connected
    pending' proxy p :
  _proxies w !! name = Some (cls, pending, connected) →
  AppManager.find_proxy name app_id cls pending connected w
    = (inr (proxy, pending'), w1) →
  heap w1 !! proxy = Some p →
  _ws p = None →
  ∃ w', AppManager.connect_client ws name app_id w = (inr proxy, w') ∧
    _proxies w' = <[name := (cls, pending', connected ++ [proxy])]> (_proxies w1) ∧
    heap w' = <[proxy := set_ws (Some ws) p]> (heap w1) ∧
    sent (channels w' ws) = sent (channels w1 ws) ++ _pending_commands p ∧
    (∀ c, c ≠ ws → channels w' c = channels w1 c) ∧
    (∀ c, close_code (channels w' c) = close_code (channels w1 c)).
Proof.
  intros Hentry Hfind Hp Hws.
  unfold AppManager.connect_client.
  rewrite (bind_ok _ _ _ _ _ (lookup_entry_ok _ _ _ Hentry)).
  rewrite (bind_ok _ _ _ _ _ Hfind).
  rewrite (bind_ok _ _ _ _ _ (with_proxy_gets _ _ _ _ Hp)).
  assert (Hst : ProxyM.status {| self := p; chans := channels w1 |} = PENDING)
    by by apply status_PENDING.
  rewrite Hst. simpl.
  destruct (connect_client_pending ws {| self := p; chans := channels w1 |} Hws)
    as (s' & Hrun & Hself & Hsent & Hcode & Hother).
  unfold bind at 1. unfold ret at 1.
  rewrite (bind_ok _ _ _ _ _ (with_proxy_run _ _ _ _ _ _ Hp Hrun)).
  unfold bind, set_entry, modify, ret. simpl.
  eexists. split; [reflexivity|]. simpl. rewrite Hself. done.
Qed.

(** X2. A connection that carries the id of a pending proxy without a channel
    gets that very proxy: it leaves the pending list, is attached to the
    channel, which receives its buffer after what it had already received,
    and becomes the last of the connected list; no other entry, proxy or
    channel changes. If the channel is open the proxy is then CONNECTED. *)
Theorem connect_client_by_id
    (ws : chan) (name : string) (w : World) (cls : option Cls)
    (pending connected : list addr) (proxy : addr) (p : Proxy) :
  name ≠ "__default__" →
  _proxies w !! name = Some (cls, pending, connected) →
  proxy ∈ pending →
  heap w !! proxy = Some p →
  _ws p = None →
  ∃ w', AppManager.connect_client ws name (Some (ProxyM.id proxy)) w
          = (inr proxy, w') ∧
    _proxies w' = <[name := (cls, list_remove_first proxy pending,
                             connected ++ [proxy])]> (_proxies w) ∧
    heap w' = <[proxy := set_ws (Some ws) p]> (heap w) ∧
    sent (channels w' ws) = sent (channels w ws) ++ _pending_commands p ∧
    (∀ c, c ≠ ws → channels w' c = channels w c) ∧
    (close_code (channels w ws) = None →
       ProxyM.status {| self := set_ws (Some ws) p; chans := channels w' |}
         = CONNECTED).
Proof.
  intros Hname Hentry Hin Hp Hws.
  set (pending' := list_remove_first proxy pending).
  set (w1 := set_proxies (<[name := (cls, pending', connected)]> (_proxies w)) w).
  assert (Hfind : AppManager.find_proxy name (Some (ProxyM.id proxy)) cls
                    pending connected w = (inr (proxy, pending'), w1)).
  { unfold AppManager.find_proxy. rewrite decide_False by done.
    simpl. rewrite id_truthy. simpl. by rewrite find_by_id. }
  destruct (connect_client_attach ws name _ w w1 cls pending connected pending'
              proxy p Hentry Hfind Hp Hws)
    as (w' & Hrun & Hreg & Hheap & Hsent & Hother & Hcode).
  exists w'. split; [done|]. split; [|split; [done|split; [done|split; [done|]]]].
  - rewrite Hreg. subst w1. simpl. by rewrite insert_insert_eq.
  - intros Hopen. apply status_CONNECTED. exists ws. split; [done|].
    simpl. by rewrite Hcode.
Qed.

(** X3. A connection for ['__default__'] takes the proxy added last to the
    pending list (whatever id it carries), attaches it and appends it to
    the connected list. *)
Theorem connect_client_default_takes_last
    (ws : chan) (app_id : option string) (w : World) (cls : option Cls)
    (pending connected : list addr) (proxy : addr) (p : Proxy) :
  _proxies w !! "__default__" = Some (cls, pending ++ [proxy], connected) →
  heap w !! proxy = Some p →
  _ws p = None →
  ∃ w', AppManager.connect_client ws "__default__" app_id w = (inr proxy, w') ∧
    _proxies w' = <["__default__" := (cls, pending, connected ++ [proxy])]>
                    (_proxies w) ∧
    heap w' = <[proxy := set_ws (Some ws) p]> (heap w) ∧
    sent (channels w' ws) = sent (channels w ws) ++ _pending_commands p ∧
    (∀ c, c ≠ ws → channels w' c = channels w c).
Proof.
  intros Hentry Hp Hws.
  set (w1 := set_proxies (<["__default__" := (cls, pending, connected)]>
                            (_proxies w)) w).
  assert (Hfind : AppManager.find_proxy "__default__" app_id cls
                    (pending ++ [proxy]) connected w = (inr (proxy, pending), w1)).
  { unfold AppManager.find_proxy. rewrite decide_True by done.
    rewrite last_snoc, removelast_last. reflexivity. }
  destruct (connect_client_attach ws _ _ w w1 cls _ connected pending
              proxy p Hentry Hfind Hp Hws)
    as (w' & Hrun & Hreg & Hheap & Hsent & Hother & _).
  exists w'. split; [done|]. split; [|done].
  rewrite Hreg. subst w1. simpl. by rewrite insert_insert_eq.
Qed.

(** X4. A connection for ['__default__'] with nothing pending creates a proxy
    at a new identity, without widget or runtime, attaches it and appends
    it to the connected list; nothing is sent and the pending list stays
    empty. *)
Theorem connect_client_default_creates
    (ws : chan) (app_id : option string) (w : World) (cls : option Cls)
    (connected : list addr) :
  _proxies w !! "__default__" = Some (cls, [], connected) →
  let proxy := fresh (dom (heap w)) in
  ∃ w', AppManager.connect_client ws "__default__" app_id w = (inr proxy, w') ∧
    heap w !! proxy = None ∧
    _proxies w' = <["__default__" := (cls, [], connected ++ [proxy])]>
                    (_proxies w) ∧
    heap w' = <[proxy := set_ws (Some ws) (blank_proxy "__default__" w)]>
                (heap w) ∧
    (∀ c, channels w' c = channels w c).
Proof.
  intros Hentry proxy.
  set (w1 := set_heap (<[proxy := blank_proxy "__default__" w]> (heap w)) w).
  assert (Hfind : AppManager.find_proxy "__default__" app_id cls [] connected w
                  = (inr (proxy, []), w1)) by reflexivity.
  destruct (connect_client_attach ws _ _ w w1 cls _ connected []
              proxy (blank_proxy "__default__" w) Hentry Hfind)
    as (w' & Hrun & Hreg & Hheap & Hsent & Hother & Hcode).
  { apply lookup_insert_eq. } { done. }
  exists w'. split; [done|].
  split; [apply not_elem_of_dom, is_fresh|]. split; [done|].
  split; [by rewrite Hheap; subst w1; simpl; rewrite insert_insert_eq|].
  intros c. destruct (decide (c = ws)) as [->|Hne]; [|by apply Hother].
  specialize (Hcode ws). simpl in Hsent, Hcode. rewrite app_nil_r in Hsent.
  destruct (channels w' ws), (channels w ws). simpl in *. congruence.
Qed.

Lemma set_widget_run (widget : Widget) (s : PState) :
  _widget (self s) = None →
  ProxyM._set_widget widget s = (inr tt, on_self (set_widget (Some widget)) s).
Proof.
  intros Hw. unfold ProxyM._set_widget. unfold_M. by rewrite Hw.
Qed.

(** X5. A connection without id for a registered application creates a proxy
    at a new identity, named after the class, builds the application
    object on it and attaches the channel: the commands the constructor
    issued on the proxy are the first the channel receives from it, and
    the proxy becomes the last of the connected list while the pending
    list is as it was. If the constructor raises, so does [connect_client],
    and the registry is unchanged. *)
Theorem connect_client_fresh_instance
    (ws : chan) (name : string) (app_id : option string) (w : World)
    (c : Cls) (pending connected : list addr) :
  name ≠ "__default__" →
  _proxies w !! name = Some (Some c, pending, connected) →
  opt_truthy app_id = false →
  let proxy := fresh (dom (heap w)) in
  let s0 := {| self := blank_proxy (cls_name c) w; chans := channels w |} in
  (∀ app s1,
     new_widget c proxy s0 = (inr app, s1) →
     _widget (self s1) = None →
     _ws (self s1) = None →
     ∃ w', AppManager.connect_client ws name app_id w = (inr proxy, w') ∧
       _proxies w' = <[name := (Some c, pending, connected ++ [proxy])]>
                       (_proxies w) ∧
       heap w' = <[proxy := set_ws (Some ws) (set_widget (Some app) (self s1))]>
                   (heap w) ∧
       sent (channels w' ws) = sent (chans s1 ws) ++ _pending_commands (self s1) ∧
       (∀ c', c' ≠ ws → channels w' c' = chans s1 c')) ∧
  (∀ e s1,
     new_widget c proxy s0 = (inl e, s1) →
     ∃ w', AppManager.connect_client ws name app_id w = (inl e, w') ∧
       _proxies w' = _proxies w).
Proof.
  intros Hname Hentry Hid proxy s0.
  set (w0 := set_heap (<[proxy := blank_proxy (cls_name c) w]> (heap w)) w).
  assert (Hp0 : heap w0 !! proxy = Some (blank_proxy (cls_name c) w))
    by apply lookup_insert_eq.
  assert (Hnew : Proxy_new (cls_name c) None [] w = (inr proxy, w0))
    by reflexivity.
  split.
  - intros app s1 Hctor Hwidget Hws.
    set (w1 := set_channels (chans s1)
                 (set_heap (<[proxy := self s1]> (heap w0)) w0)).
    assert (Hp1 : heap w1 !! proxy = Some (self s1)) by apply lookup_insert_eq.
    set (w2 := set_channels (channels w1)
                 (set_heap (<[proxy := set_widget (Some app) (self s1)]>
                              (heap w1)) w1)).
    assert (Hfind : AppManager.find_proxy name app_id (Some c) pending
                      connected w = (inr (proxy, pending), w2)).
    { unfold AppManager.find_proxy. rewrite decide_False by done.
      rewrite Hid. simpl.
      rewrite (bind_ok _ _ _ _ _ Hnew).
      rewrite (bind_ok _ _ _ _ _ (with_proxy_run _ _ _ _ _ _ Hp0 Hctor)).
      fold w1.
      assert (Hset : ProxyM._set_widget app
                       {| self := self s1; chans := channels w1 |}
                     = (inr tt, on_self (set_widget (Some app))
                                  {| self := self s1; chans := channels w1 |}))
        by by apply set_widget_run.
      rewrite (bind_ok _ _ _ _ _ (with_proxy_run _ _ _ _ _ _ Hp1 Hset)).
      reflexivity. }
    destruct (connect_client_attach ws name app_id w w2 (Some c) pending
                connected pending proxy (set_widget (Some app) (self s1))
                Hentry Hfind)
      as (w' & Hrun & Hreg & Hheap & Hsent & Hother & _).
    { apply lookup_insert_eq. } { done. }
    exists w'. split; [done|]. split; [done|]. split; [|done].
    rewrite Hheap. subst w2 w1 w0. simpl. by rewrite !insert_insert_eq.
  - intros e s1 Hctor.
    set (w1 := set_channels (chans s1)
                 (set_heap (<[proxy := self s1]> (heap w0)) w0)).
    assert (Hfind : AppManager.find_proxy name app_id (Some c) pending
                      connected w = (inl e, w1)).
    { unfold AppManager.find_proxy. rewrite decide_False by done.
      rewrite Hid. simpl.
      rewrite (bind_ok _ _ _ _ _ Hnew).
      apply bind_raises. apply (with_proxy_run _ _ _ _ _ _ Hp0 Hctor). }
    exists w1. split; [|done]. unfold AppManager.connect_client.
    rewrite (bind_ok _ _ _ _ _ (lookup_entry_ok _ _ _ Hentry)).
    by apply bind_raises.
Qed.

End Connections.

(** ** Pending proxies, disconnecting, looking up *)

Lemma list_remove_first_absent (x : addr) (l : list addr) :
  x ∉ l → list_remove_first x l = l.
Proof.
  induction l as [|y l IH]; intros Hx; [done|]. simpl.
  apply not_elem_of_cons in Hx as [Hne Hx].
  rewrite decide_False by done. by rewrite IH.
Qed.

Lemma list_remove_first_snoc (x : addr) (l : list addr) :
  x ∉ l → list_remove_first x (l ++ [x]) = l.
Proof.
  induction l as [|y l IH]; intros Hx; simpl.
  - by rewrite decide_True.
  - apply not_elem_of_cons in Hx as [Hne Hx].
    rewrite decide_False by done. by rewrite IH.
Qed.

Lemma list_remove_first_NoDup (x : addr) (l : list addr) :
  NoDup l →
  NoDup (list_remove_first x l) ∧ (x ∉ list_remove_first x l) ∧
  (∀ y, y ≠ x → y ∈ list_remove_first x l ↔ y ∈ l).
Proof.
  induction 1 as [|y l Hy Hl IH]; simpl.
  - split; [constructor|]. split; [apply not_elem_of_nil|done].
  - destruct (decide (y = x)) as [->|Hne].
    + split; [done|]. split; [done|]. intros z Hz. rewrite elem_of_cons.
      naive_solver.
    + destruct IH as (IH1 & IH2 & IH3). split; [|split].
      * constructor; [|done]. intros Hin. apply Hy. by apply IH3.
      * rewrite not_elem_of_cons. naive_solver.
      * intros z Hz. rewrite !elem_of_cons, IH3 by done. done.
Qed.

Lemma bind_gets {S A B} (f : S → A) (k : A → M S B) s :
  bind (gets f) k s = k (f s) s.
Proof. reflexivity. Qed.

Lemma bind_assert_true {S B} (k : unit → M S B) s :
  bind (assert_ true) k s = k tt s.
Proof. reflexivity. Qed.

Lemma bind_assert_false {S B} (k : unit → M S B) s :
  bind (assert_ false) k s = (inl AssertionError, s).
Proof. reflexivity. Qed.

Section Bookkeeping.
Context {E : Externals}.

(** What [close] leaves alone and what it does, whatever its outcome. *)
Lemma close_frame (s : PState) :
  ∃ r s', ProxyM.close s = (r, s') ∧
    _ws (self s') = _ws (self s) ∧
    _pending_commands (self s') = _pending_commands (self s) ∧
    _app_name (self s') = _app_name (self s) ∧
    _known_mirrored_classes (self s') = _known_mirrored_classes (self s) ∧
    chans s' = chans s ∧
    match _runtime (self s) with
    | None => r = inr tt
    | Some rt =>
        match runtime_close rt with
        | inr _ => r = inr tt
        | inl e => r = inl e
        end
    end ∧
    (r = inr tt →
       _widget (self s') = match _widget (self s) with
                           | Some x => if widget_bool x then None else Some x
                           | None => None
                           end).
Proof.
  unfold ProxyM.close. unfold_M.
  destruct s as [[name rt ws wd known buf] chs]; simpl.
  destruct rt as [rt|]; simpl; [destruct (runtime_close rt) as [e|rt']|];
    simpl; destruct wd as [x|]; simpl; try destruct (widget_bool x); simpl;
    eexists _, _; (split; [reflexivity|]); simpl; repeat split; done.
Qed.

(** X6. [add_pending_proxy_instance] appends a proxy without channel to the
    pending list of its application, and changes nothing else. It raises
    [AssertionError] when the application name is not registered or the
    proxy is already in the list, and 'Cannot add proxy instances that
    are/were already connected' when the proxy has a channel; in these
    cases the state is as it was. *)
Theorem add_pending_proxy_instance_cases (proxy : addr) (p : Proxy) (w : World) :
  heap w !! proxy = Some p →
  (_proxies w !! _app_name p = None →
     AppManager.add_pending_proxy_instance proxy w = (inl AssertionError, w)) ∧
  (∀ cls pending connected,
     _proxies w !! _app_name p = Some (cls, pending, connected) →
     (∀ c, _ws p = Some c →
        AppManager.add_pending_proxy_instance proxy w
          = (inl (RuntimeError AlreadyConnected), w)) ∧
     (_ws p = None → proxy ∈ pending →
        AppManager.add_pending_proxy_instance proxy w = (inl AssertionError, w)) ∧
     (_ws p = None → proxy ∉ pending →
        AppManager.add_pending_proxy_instance proxy w
          = (inr tt, set_proxies (<[_app_name p :=
                        (cls, pending ++ [proxy], connected)]> (_proxies w)) w))).
Proof.
  intros Hp. unfold AppManager.add_pending_proxy_instance.
  rewrite (bind_ok _ _ _ _ _ (with_proxy_gets _ _ _ _ Hp)).
  rewrite bind_gets. cbv beta. cbn [self]. unfold Entry in *.
  split.
  - intros Hnone. rewrite Hnone.
    rewrite bool_decide_eq_false_2 by (by intros [? ?]).
    apply bind_assert_false.
  - intros cls pending connected Hentry. rewrite Hentry.
    rewrite bool_decide_eq_true_2 by eauto.
    rewrite bind_assert_true.
    rewrite (bind_ok _ _ _ _ _ (lookup_entry_ok _ _ _ Hentry)).
    rewrite (bind_ok _ _ _ _ _ (with_proxy_gets _ _ _ _ Hp)).
    split; [|split].
    + intros c Hws. rewrite decide_False; [done|].
      intros Hst%status_PENDING. simpl in Hst. congruence.
    + intros Hws Hin. rewrite decide_True by by apply status_PENDING.
      rewrite bool_decide_eq_false_2 by naive_solver.
      apply bind_assert_false.
    + intros Hws Hin. rewrite decide_True by by apply status_PENDING.
      rewrite bool_decide_eq_true_2 by done.
      by rewrite bind_assert_true.
Qed.

(** X7. [disconnect_client] takes the proxy out of the connected list of its
    application and closes it. A proxy that is not in the list (a second
    disconnect) is tolerated: the registry is then unchanged. The pending
    list, the channels and the proxy's channel and buffer are never
    touched, and the only exception possible is the one closing the
    runtime raises. With an unregistered application name [KeyError] is
    raised and nothing changes. *)
Theorem disconnect_client_removes (proxy : addr) (p : Proxy) (w : World) :
  heap w !! proxy = Some p →
  (_proxies w !! _app_name p = None →
     AppManager.disconnect_client proxy w = (inl (KeyError (_app_name p)), w)) ∧
  (∀ cls pending connected,
     _proxies w !! _app_name p = Some (cls, pending, connected) →
     ∃ r w' p',
       AppManager.disconnect_client proxy w = (r, w') ∧
       _proxies w' = <[_app_name p :=
         (cls, pending, list_remove_first proxy connected)]> (_proxies w) ∧
       (proxy ∉ connected → _proxies w' = _proxies w) ∧
       (NoDup connected → proxy ∉ list_remove_first proxy connected) ∧
       channels w' = channels w ∧
       heap w' = <[proxy := p']> (heap w) ∧
       _ws p' = _ws p ∧ _pending_commands p' = _pending_commands p ∧
       match _runtime p with
       | None => r = inr tt
       | Some rt =>
           match runtime_close rt with
           | inr _ => r = inr tt
           | inl e => r = inl e
           end
       end ∧
       (r = inr tt →
          _widget p' = match _widget p with
                       | Some x => if widget_bool x then None else Some x
                       | None => None
                       end)).
Proof.
  intros Hp. unfold AppManager.disconnect_client.
  rewrite (bind_ok _ _ _ _ _ (with_proxy_gets _ _ _ _ Hp)).
  cbv beta. cbn [self].
  split.
  - intros Hnone. apply bind_raises. unfold lookup_entry. by rewrite Hnone.
  - intros cls pending connected Hentry.
    rewrite (bind_ok _ _ _ _ _ (lookup_entry_ok _ _ _ Hentry)).
    set (w1 := set_proxies (<[_app_name p :=
                  (cls, pending, list_remove_first proxy connected)]>
                  (_proxies w)) w).
    assert (Hset : set_entry (_app_name p)
                     (cls, pending, list_remove_first proxy connected) w
                   = (inr tt, w1)) by reflexivity.
    rewrite (bind_ok _ _ _ _ _ Hset).
    destruct (close_frame {| self := p; chans := channels w1 |})
      as (r & s' & Hrun & Hws & Hbuf & _ & _ & Hch & Hrt & Hwd).
    assert (Hp1 : heap w1 !! proxy = Some p) by done.
    rewrite (with_proxy_run _ _ _ _ _ _ Hp1 Hrun).
    eexists r, _, (self s'). split; [reflexivity|]. simpl.
    split; [done|]. split.
    { intros Hnot. rewrite list_remove_first_absent by done.
      by apply insert_id. }
    split; [intros Hnd; by apply list_remove_first_NoDup|].
    split; [by rewrite Hch|]. done.
Qed.

End Bookkeeping.

Lemma find_by_id_plain (proxy : addr) (l : list addr) :
  proxy ∈ l →
  List.find (λ q, bool_decide (ProxyM.id q = ProxyM.id proxy)) l = Some proxy.
Proof.
  induction l as [|q l IH]; intros Hin; [by apply elem_of_nil in Hin|].
  simpl. destruct (decide (q = proxy)) as [->|Hne].
  - by rewrite bool_decide_eq_true_2.
  - rewrite bool_decide_eq_false_2.
    + apply IH. apply elem_of_cons in Hin as [->|]; done.
    + intros Heq. by apply id_inj in Heq.
Qed.

Section Lookup.
Context {E : Externals}.

(** X8. [get_proxy_by_id] with the id of a proxy that is pending or connected
    under the name returns that proxy; with an id no such proxy has it
    returns [None]; for a name that is not registered it raises
    [KeyError], which is also what [connect_client] does, and
    [has_app_name] tells the two cases apart. Nothing is changed. *)
Theorem get_proxy_by_id_finds (name : string) (w : World) :
  (_proxies w !! name = None →
     AppManager.has_app_name name w = (inr false, w) ∧
     (∀ id, AppManager.get_proxy_by_id name id w = (inl (KeyError name), w)) ∧
     (∀ ws app_id,
        AppManager.connect_client ws name app_id w = (inl (KeyError name), w))) ∧
  (∀ cls pending connected,
     _proxies w !! name = Some (cls, pending, connected) →
     AppManager.has_app_name name w = (inr true, w) ∧
     (∀ proxy, proxy ∈ pending ++ connected →
        AppManager.get_proxy_by_id name (ProxyM.id proxy) w
          = (inr (Some proxy), w)) ∧
     (∀ id, (∀ proxy, proxy ∈ pending ++ connected → ProxyM.id proxy ≠ id) →
        AppManager.get_proxy_by_id name id w = (inr None, w))).
Proof.
  unfold Entry in *. split.
  - intros Hnone.
    assert (Hl : lookup_entry name w = (inl (KeyError name), w))
      by (unfold lookup_entry; unfold Entry in *; by rewrite Hnone).
    split; [|split].
    + unfold AppManager.has_app_name, gets. unfold Entry in *.
      by rewrite bool_decide_eq_false_2 by (rewrite Hnone; by intros [? ?]).
    + intros id. by apply bind_raises.
    + intros ws app_id. by apply bind_raises.
  - intros cls pending connected Hentry. split; [|split].
    + unfold AppManager.has_app_name, gets. unfold Entry in *.
      by rewrite bool_decide_eq_true_2 by (rewrite Hentry; eauto).
    + intros proxy Hin. unfold AppManager.get_proxy_by_id.
      rewrite (bind_ok _ _ _ _ _ (lookup_entry_ok _ _ _ Hentry)).
      by rewrite find_by_id_plain.
    + intros id Hnone. unfold AppManager.get_proxy_by_id.
      rewrite (bind_ok _ _ _ _ _ (lookup_entry_ok _ _ _ Hentry)).
      rewrite find_no_match; [done|].
      intros q Hq. apply bool_decide_eq_false_2. by apply Hnone.
Qed.

End Lookup.

(** ** The server *)

Section ServerFacts.
Context {E : Externals}.

Lemma try_ports_all_busy host candidates w :
  (∀ i, i ∈ candidates → listen_fails (port_hash (seed i)) host = true) →
  try_ports host candidates w = (inl (RuntimeError NoFreeAddress), w).
Proof.
  induction candidates as [|i l IH]; intros Hbusy; [done|].
  simpl. unfold except_OSError, bind, listen.
  rewrite (Hbusy i) by left. simpl. apply IH.
  intros j Hj. apply Hbusy. by right.
Qed.

Lemma try_ports_first_free host busy i rest w :
  (∀ j, j ∈ busy → listen_fails (port_hash (seed j)) host = true) →
  listen_fails (port_hash (seed i)) host = false →
  try_ports host (busy ++ i :: rest) w = (inr (port_hash (seed i)), w).
Proof.
  induction busy as [|j l IH]; intros Hbusy Hfree; simpl.
  - unfold except_OSError, bind, listen. by rewrite Hfree.
  - unfold except_OSError, bind, listen.
    rewrite (Hbusy j) by left. simpl. apply IH; [|done].
    intros k Hk. apply Hbusy. by right.
Qed.

(** X9. Without a port, the first [init_server] of a process listens on the
    port of the first seed ['flexx+i'], [i] from 0 to 99 in this order,
    on which listening does not fail, and records host and port; the port
    lies between 49152 and 65535. If listening fails for all hundred
    seeds it raises 'Could not bind to free address'. *)
Theorem init_server_binds_first_free (host : string) (w : World) :
  _tornado_app w = None →
  (∀ i, (i < 100)%nat →
     listen_fails (port_hash (seed i)) host = false →
     (∀ j, (j < i)%nat → listen_fails (port_hash (seed j)) host = true) →
     init_server host None w =
       (inr tt, set_tornado_app
                  (Some {| serving_at := Some (host, port_hash (seed i)) |}) w) ∧
     (49152 ≤ port_hash (seed i) ≤ 65535)%Z) ∧
  ((∀ i, (i < 100)%nat → listen_fails (port_hash (seed i)) host = true) →
     init_server host None w =
       (inl (RuntimeError NoFreeAddress),
        set_tornado_app (Some {| serving_at := None |}) w)).
Proof.
  intros Hnone. split.
  - intros i Hi Hfree Hbusy. split; [|apply port_hash_ords_range].
    unfold init_server. rewrite bind_gets, Hnone.
    assert (Hseq : seq 0 100 = seq 0 i ++ i :: seq (S i) (100 - S i)).
    { replace 100%nat with (i + S (100 - S i))%nat at 1 by lia.
      by rewrite seq_app. }
    unfold bind, modify. rewrite Hseq.
    rewrite try_ports_first_free; [done| |done].
    intros j Hj%elem_of_seq. apply Hbusy. lia.
  - intros Hbusy. unfold init_server. rewrite bind_gets, Hnone.
    unfold bind, modify.
    rewrite try_ports_all_busy; [done|].
    intros j Hj%elem_of_seq. apply Hbusy. lia.
Qed.

(** X10. [init_server] acts once per process. When a tornado application
    exists it returns at once and changes nothing, whatever host and port
    it is given. That is also so after a failed attempt: the application
    is created before listening, so after 'Could not bind to free address'
    or the [OSError] of an explicit port the application exists without
    an address and no later call listens again. *)
Theorem init_server_acts_once (host : string) (port : option Z) (w : World) :
  (∀ app, _tornado_app w = Some app → init_server host port w = (inr tt, w)) ∧
  (_tornado_app w = None →
     ∀ e w', init_server host port w = (inl e, w') →
       _tornado_app w' = Some {| serving_at := None |} ∧
       heap w' = heap w ∧ _proxies w' = _proxies w ∧
       ∀ host' port', init_server host' port' w' = (inr tt, w')) ∧
  (_tornado_app w = None →
     ∀ w', init_server host port w = (inr tt, w') →
       ∃ p, _tornado_app w' = Some {| serving_at := Some (host, p) |} ∧
            listen_fails p host = false ∧
            ∀ host' port', init_server host' port' w' = (inr tt, w')).
Proof.
  assert (Hdone : ∀ w0 app h p, _tornado_app w0 = Some app →
                    init_server h p w0 = (inr tt, w0)).
  { intros w0 app h p Happ. unfold init_server. by rewrite bind_gets, Happ. }
  split; [intros app; apply Hdone|].
  split.
  - intros Hnone e w'. unfold init_server. rewrite bind_gets, Hnone.
    unfold bind at 1. unfold modify at 1.
    set (w0 := set_tornado_app _ w). unfold bind at 1.
    destruct port as [port|].
    + unfold bind, listen. destruct (listen_fails port host); simpl; [|done].
      intros [= <- <-]. by repeat split.
    + destruct (try_ports _ _ w0) as [[e'|port] w1] eqn:Htry;
        apply try_ports_state in Htry as ->; [|done].
      intros [= <- <-]. by repeat split.
  - intros Hnone w'. unfold init_server. rewrite bind_gets, Hnone.
    unfold bind at 1. unfold modify at 1.
    set (w0 := set_tornado_app _ w). unfold bind at 1.
    destruct port as [port|].
    + unfold bind, listen.
      destruct (listen_fails port host) eqn:Hl; simpl; [done|].
      unfold modify. intros [= <-]. exists port. by repeat split.
    + destruct (try_ports _ _ w0) as [[e'|port] w1] eqn:Htry; [done|].
      pose proof (try_ports_state _ _ _ _ _ Htry) as ->.
      unfold modify. intros [= <-]. exists port. split; [done|].
      split; [|intros h p; by eapply Hdone].
      revert Htry. generalize (seq 0 100). intros l.
      induction l as [|i l IH]; simpl; [done|].
      unfold except_OSError, bind, listen.
      destruct (listen_fails (port_hash (seed i)) host) eqn:Hl; simpl.
      * apply IH.
      * unfold ret. by intros [= <-].
Qed.

End ServerFacts.

(** ** The life of a proxy *)

Lemma advances_refl s : advances s s.
Proof.
  unfold advances. repeat split; try done. exists []. by rewrite app_nil_r.
Qed.

Lemma advances_trans s1 s2 s3 : advances s1 s2 → advances s2 s3 → advances s1 s3.
Proof.
  intros (Hn1 & Hw1 & Hd1 & Hr1 & Hc1 & Hk1 & a & Ho1)
         (Hn2 & Hw2 & Hd2 & Hr2 & Hc2 & Hk2 & b & Ho2).
  split; [congruence|]. split; [congruence|]. split; [congruence|].
  split; [congruence|]. split; [intros c; by rewrite Hc2|].
  split; [set_solver|].
  exists (a ++ b). by rewrite Ho2, Ho1, app_assoc.
Qed.

Lemma advances_status s s' : advances s s' → ProxyM.status s' = ProxyM.status s.
Proof.
  intros (_ & Hw & _ & _ & Hc & _). unfold ProxyM.status. rewrite Hw.
  destruct (_ws (self s)); [|done]. by rewrite Hc.
Qed.

Lemma send_command_advances command s r s' :
  ProxyM._send_command command s = (r, s') → advances s s'.
Proof.
  intros Hrun. destruct (ProxyM.status s) eqn:Hst.
  - apply status_PENDING in Hst.
    rewrite send_command_pending in Hrun by done.
    injection Hrun as <- <-. unfold advances, outbox, known. simpl.
    rewrite Hst. repeat split; try done. by eexists.
  - apply status_CONNECTED in Hst as (c & Hws & Hc).
    rewrite (send_command_connected _ _ c) in Hrun by done.
    injection Hrun as <- <-. unfold advances, outbox, known. simpl.
    rewrite Hws. repeat split; try done.
    + intros c'. apply chan_command_close_code.
    + eexists. apply chan_command_same.
  - apply status_CLOSED in Hst as (c & code & Hws & Hc).
    rewrite (send_command_closed _ _ c code) in Hrun by done.
    injection Hrun as <- <-. apply advances_refl.
Qed.

Section ProxyLife.
Context {E : Externals}.

Lemma record_and_define_advances cls s r s' :
  record_and_define cls s = (r, s') → advances s s' ∧ cls ∈ known s'.
Proof.
  unfold record_and_define. unfold bind at 1. unfold modify at 1.
  set (s0 := on_self _ s).
  assert (H0 : advances s s0).
  { unfold advances, outbox, known. simpl. repeat split; try done.
    - set_solver.
    - exists []. by rewrite app_nil_r. }
  assert (Hk0 : cls ∈ known s0) by (unfold known; simpl; set_solver).
  unfold bind at 1.
  destruct (ProxyM._send_command _ s0) as [[e|[]] s1] eqn:H1;
    apply send_command_advances in H1.
  - intros [= <- <-]. split; [by eapply advances_trans|].
    destruct H1 as (_ & _ & _ & _ & _ & Hk & _). by apply Hk.
  - assert (Hk1 : cls ∈ known s1).
    { destruct H1 as (_ & _ & _ & _ & _ & Hk & _). by apply Hk. }
    destruct (PyStr.truthy _).
    + intros H2%send_command_advances. split.
      * eapply advances_trans; [|done]. by eapply advances_trans.
      * destruct H2 as (_ & _ & _ & _ & _ & Hk & _). by apply Hk.
    + intros [= <- <-]. split; [by eapply advances_trans|done].
Qed.

Lemma register_bases_advances register l :
  (∀ cls s r s', register cls s = (r, s') → advances s s') →
  ∀ s r s', ProxyM.register_bases register l s = (r, s') → advances s s'.
Proof.
  intros Hreg. induction l as [|c l IH]; intros s r s'; simpl.
  - intros [= <- <-]. apply advances_refl.
  - destruct (issubclass_Mirrored c); simpl;
      [|intros [= <- <-]; apply advances_refl].
    rewrite bind_gets. cbv beta.
    destruct (decide (c ∈ _)).
    + unfold bind, ret. apply IH.
    + unfold bind.
      destruct (register c s) as [[e|[]] s1] eqn:H1; apply Hreg in H1.
      * by intros [= <- <-].
      * intros H2%IH. by eapply advances_trans.
Qed.

Lemma register_mirrored_advances depth cls s r s' :
  ProxyM.register_mirrored depth cls s = (r, s') → advances s s'.
Proof.
  revert cls s r s'. induction depth as [|depth IHd]; intros cls s r s'.
  - intros [= <- <-]. apply advances_refl.
  - rewrite register_mirrored_unfold.
    destruct (negb _); [intros [= <- <-]; apply advances_refl|].
    rewrite bind_gets. cbv beta.
    destruct (decide (cls ∈ known s)); [intros [= <- <-]; apply advances_refl|].
    unfold bind.
    destruct (ProxyM.register_bases _ _ s) as [[e|[]] s1] eqn:H1;
      apply (register_bases_advances _ _ IHd) in H1.
    + by intros [= <- <-].
    + intros [H2 _]%record_and_define_advances. by eapply advances_trans.
Qed.

(** Launching a runtime other than the exporter touches no channel. *)
Lemma launch_runtime_channels a p runtime kwargs w r w' :
  runtime ≠ "<export>" →
  heap w !! a = Some p →
  _launch_runtime a runtime kwargs w = (r, w') →
  channels w' = channels w.
Proof.
  intros Hne Ha. unfold _launch_runtime. rewrite decide_False by done.
  destruct (decide (runtime = "notebook")); [by intros [= _ <-]|].
  destruct (PyStr.truthy runtime); [|by intros [= _ <-]].
  unfold bind at 1.
  destruct (init_server _ _ w) as [[e|[]] w1] eqn:Hinit;
    apply init_server_state in Hinit as (Hh & Hc & Hp).
  { by intros [= _ <-]. }
  unfold bind at 1.
  destruct (get_serving_at w1) as [[e|[host port]] w2] eqn:Hserv;
    apply get_serving_at_state in Hserv as ->.
  { by intros [= _ <-]. }
  rewrite <- Hh in Ha.
  rewrite (bind_ok _ _ _ _ _ (with_proxy_gets _ _ _ _ Ha)). simpl.
  destruct (launch _ _ _) as [e|rt].
  { by intros [= _ <-]. }
  unfold with_proxy, modify. rewrite Ha. simpl. by intros [= _ <-].
Qed.

(** X11. Which methods of a proxy change its status. Whatever they return
    or raise, [_send_command], [_exec], [eval] and [register_mirrored] keep
    name, channel, widget and runtime of the proxy, close no channel,
    forget no known class and only append to the buffer or to the channel;
    [_set_widget], [close] and [_launch_runtime] with a runtime other than
    ['<export>'] keep the status and what has been sent or buffered.
    [_connect_client] changes a proxy only when it has no channel, and the
    proxy has the given channel afterwards. [_launch_runtime] with
    ['<export>'] gives the proxy a new open channel whatever its status
    was, a CLOSED proxy included, and delivers none of the buffered
    commands to it. *)
Theorem proxy_methods_and_status (s : PState) :
  (∀ command r s',
     ProxyM._send_command command s = (r, s') →
     advances s s' ∧ ProxyM.status s' = ProxyM.status s) ∧
  (∀ code r s',
     ProxyM._exec code s = (r, s') →
     advances s s' ∧ ProxyM.status s' = ProxyM.status s) ∧
  (∀ code r s',
     ProxyM.eval code s = (r, s') →
     advances s s' ∧ ProxyM.status s' = ProxyM.status s) ∧
  (∀ depth cls r s',
     ProxyM.register_mirrored depth cls s = (r, s') →
     advances s s' ∧ ProxyM.status s' = ProxyM.status s) ∧
  (∀ widget r s',
     ProxyM._set_widget widget s = (r, s') →
     ProxyM.status s' = ProxyM.status s ∧ outbox s' = outbox s) ∧
  (∀ r s',
     ProxyM.close s = (r, s') →
     ProxyM.status s' = ProxyM.status s ∧ outbox s' = outbox s) ∧
  (∀ ws r s',
     ProxyM._connect_client ws s = (r, s') →
     (ProxyM.status s ≠ PENDING → r = inl AssertionError ∧ s' = s) ∧
     (ProxyM.status s = PENDING → r = inr tt ∧ _ws (self s') = Some ws)) ∧
  (∀ a w runtime kwargs r w',
     heap w !! a = Some (self s) → channels w = chans s →
     runtime ≠ "<export>" →
     _launch_runtime a runtime kwargs w = (r, w') →
     ∃ p', heap w' !! a = Some p' ∧
       ProxyM.status {| self := p'; chans := channels w' |} = ProxyM.status s ∧
       outbox {| self := p'; chans := channels w' |} = outbox s) ∧
  (∀ a w kwargs,
     heap w !! a = Some (self s) → channels w = chans s →
     ∃ w', _launch_runtime a "<export>" kwargs w = (inr tt, w') ∧
       heap w' !! a = Some (set_ws (Some (ExporterOf a)) (self s)) ∧
       _pending_commands (set_ws (Some (ExporterOf a)) (self s))
         = _pending_commands (self s) ∧
       let s' := {| self := set_ws (Some (ExporterOf a)) (self s);
                    chans := channels w' |} in
       ProxyM.status s' = CONNECTED ∧ outbox s' = []).
Proof.
  split; [|split; [|split; [|split; [|split; [|split; [|split; [|split]]]]]]].
  - intros command r s' Hrun%send_command_advances.
    split; [done|by apply advances_status].
  - intros code r s' Hrun%send_command_advances.
    split; [done|by apply advances_status].
  - intros code r s'. unfold ProxyM.eval. rewrite bind_gets. cbv beta.
    destruct (_ws (self s)).
    + intros Hrun%send_command_advances.
      split; [done|by apply advances_status].
    + intros [= <- <-]. split; [apply advances_refl|done].
  - intros depth cls r s' Hrun%register_mirrored_advances.
    split; [done|by apply advances_status].
  - intros widget r s'. unfold ProxyM._set_widget. rewrite bind_gets. cbv beta.
    destruct (_widget (self s)); simpl; by intros [= <- <-].
  - intros r s' Hrun.
    destruct (close_frame s) as (r0 & s0 & Hrun0 & Hws & Hbuf & _ & _ & Hch & _).
    rewrite Hrun in Hrun0. injection Hrun0 as <- <-.
    unfold ProxyM.status, outbox. by rewrite Hws, Hbuf, Hch.
  - intros ws r s' Hrun. split.
    + intros Hst. destruct (_ws (self s)) as [c|] eqn:Hws.
      * rewrite (connect_client_attached _ _ c) in Hrun by done.
        by injection Hrun as <- <-.
      * by apply status_PENDING in Hws.
    + intros Hws%status_PENDING.
      destruct (connect_client_pending ws s Hws) as (s2 & Hrun2 & Hself & _).
      rewrite Hrun in Hrun2. injection Hrun2 as -> ->.
      by rewrite Hself.
  - intros a w runtime kwargs r w' Hp Hch Hne Hrun.
    pose proof (launch_runtime_channels _ _ _ _ _ _ _ Hne Hp Hrun) as Hch'.
    apply (launch_runtime_state _ _ _ _ _ _ _ Hne Hp) in Hrun
      as (_ & rt & Hheap).
    exists (set_runtime rt (self s)).
    split; [rewrite Hheap; apply lookup_insert_eq|].
    unfold ProxyM.status, outbox. simpl. by rewrite Hch', Hch.
  - intros a w kwargs Hp Hch. unfold _launch_runtime.
    rewrite decide_True by done.
    unfold bind, modify, with_proxy. simpl. rewrite Hp. simpl.
    eexists. split; [reflexivity|]. simpl.
    split; [apply lookup_insert_eq|]. split; [done|].
    unfold ProxyM.status, outbox. simpl. by rewrite decide_True.
Qed.

End ProxyLife.

Section ProxyEdges.
Context {E : Externals}.

(** X12. [eval] never buffers: on a proxy without channel it raises 'App not
    connected' and changes nothing, where [_exec] with the same code adds
    ['EXEC ' + code] to the buffer; on a proxy with a channel it is
    [_send_command('EVAL ' + code)]. *)
Theorem eval_needs_channel (code : string) (s : PState) :
  (_ws (self s) = None →
     ProxyM.eval code s = (inl (RuntimeError AppNotConnected), s) ∧
     ∃ s', ProxyM._exec code s = (inr tt, s') ∧
           _pending_commands (self s')
             = _pending_commands (self s) ++ ["EXEC " +:+ code]) ∧
  (∀ c, _ws (self s) = Some c →
     ProxyM.eval code s = ProxyM._send_command ("EVAL " +:+ code) s ∧
     (close_code (chans s c) = None →
        ∃ s', ProxyM.eval code s = (inr tt, s') ∧
              sent (chans s' c) = sent (chans s c) ++ ["EVAL " +:+ code] ∧
              self s' = self s) ∧
     (∀ n, close_code (chans s c) = Some n →
        ProxyM.eval code s = (inl (RuntimeError AppIsClosed), s))).
Proof.
  split.
  - intros Hws. split.
    + unfold ProxyM.eval. rewrite bind_gets. cbv beta. by rewrite Hws.
    + unfold ProxyM._exec. rewrite send_command_pending by done.
      eexists. split; [reflexivity|done].
  - intros c Hws.
    assert (Heval : ProxyM.eval code s
                    = ProxyM._send_command ("EVAL " +:+ code) s).
    { unfold ProxyM.eval. rewrite bind_gets. cbv beta. by rewrite Hws. }
    split; [done|]. rewrite Heval. split.
    + intros Hopen. rewrite (send_command_connected _ _ c) by done.
      eexists. split; [reflexivity|]. split; [apply chan_command_same|done].
    + intros n Hclosed. by eapply send_command_closed.
Qed.

(** X13. The widget of a proxy is set once: after a [_set_widget] that
    returned, a further one raises [AssertionError] and the first widget
    stays. Only [close()] makes room again: once it has returned and
    dropped the widget, [_set_widget] succeeds anew. *)
Theorem set_widget_once (x y : Widget) (s : PState) :
  _widget (self s) = None →
  ∃ s1, ProxyM._set_widget x s = (inr tt, s1) ∧
    _widget (self s1) = Some x ∧
    ProxyM._set_widget y s1 = (inl AssertionError, s1) ∧
    (widget_bool x = true →
       ∀ s2, ProxyM.close s1 = (inr tt, s2) →
         ∃ s3, ProxyM._set_widget y s2 = (inr tt, s3) ∧
               _widget (self s3) = Some y).
Proof.
  intros Hnone. rewrite set_widget_run by done.
  eexists. split; [reflexivity|]. split; [done|]. split.
  - unfold ProxyM._set_widget. by rewrite bind_gets.
  - intros Hx s2 Hclose.
    destruct (close_frame (on_self (set_widget (Some x)) s))
      as (r & s2' & Hrun & _ & _ & _ & _ & _ & _ & Hwd).
    rewrite Hclose in Hrun. injection Hrun as <- <-.
    specialize (Hwd eq_refl). simpl in Hwd. rewrite Hx in Hwd.
    rewrite set_widget_run by done. eexists. split; [reflexivity|done].
Qed.

Lemma register_bases_known register (l : list Cls) (s : PState) :
  (∀ b, b ∈ mirrored_prefix l → b ∈ known s) →
  ProxyM.register_bases register l s = (inr tt, s).
Proof.
  induction l as [|c l IH]; intros Hknown; simpl; [done|].
  simpl in Hknown.
  destruct (issubclass_Mirrored c); simpl; [|done].
  rewrite bind_gets. cbv beta.
  rewrite decide_True by (apply Hknown; by left).
  unfold bind, ret. apply IH. intros b Hb. apply Hknown. by right.
Qed.

Lemma mirrored_prefix_stops (front rest : list Cls) (b : Cls) :
  Forall (λ c, issubclass_Mirrored c = true) front →
  issubclass_Mirrored b = false →
  mirrored_prefix (front ++ b :: rest) = front.
Proof.
  intros Hfront Hb. induction Hfront as [|c l Hc _ IH]; simpl.
  - by rewrite Hb.
  - by rewrite Hc, IH.
Qed.

(** X14. [register_mirrored] rejects what is not a [Mirrored] class with 'Not
    a Mirrored class' and changes nothing. On a closed proxy, a class that
    was not known and whose [Mirrored] bases are known is recorded as
    known before the send fails with 'Cannot send commands; app is
    closed'; nothing is sent, and a second call returns normally without
    defining the class. *)
Theorem register_mirrored_failures (depth : nat) (cls : Cls) (s : PState) :
  (is_class cls && issubclass_Mirrored cls = false →
     ProxyM.register_mirrored (S depth) cls s
       = (inl (ValueError NotAMirroredClass), s)) ∧
  (is_class cls && issubclass_Mirrored cls = true →
   ProxyM.status s = CLOSED →
   cls ∉ known s →
   (∀ b, b ∈ mirrored_bases cls → b ∈ known s) →
     ∃ s', ProxyM.register_mirrored (S depth) cls s
             = (inl (RuntimeError AppIsClosed), s') ∧
       known s' = {[cls]} ∪ known s ∧
       outbox s' = outbox s ∧
       chans s' = chans s ∧
       ProxyM.register_mirrored (S depth) cls s' = (inr tt, s')).
Proof.
  split.
  - intros Hinvalid. rewrite register_mirrored_unfold. by rewrite Hinvalid.
  - intros Hvalid Hclosed Hnew Hbases.
    apply status_CLOSED in Hclosed as (c & code & Hws & Hcode).
    set (s' := on_self (λ p, set_known ({[cls]} ∪ _known_mirrored_classes p) p) s).
    exists s'.
    assert (Hrun : ProxyM.register_mirrored (S depth) cls s
                   = (inl (RuntimeError AppIsClosed), s')).
    { rewrite register_mirrored_unfold, Hvalid. simpl.
      rewrite bind_gets. cbv beta. rewrite decide_False by done.
      rewrite (bind_ok _ _ _ _ _ (register_bases_known _ _ s Hbases)).
      unfold record_and_define. unfold bind at 1. unfold modify at 1.
      fold s'. apply bind_raises.
      by apply (send_command_closed _ s' c code). }
    split; [done|]. split; [done|]. split; [done|]. split; [done|].
    rewrite register_mirrored_unfold, Hvalid. simpl.
    rewrite bind_gets. cbv beta. rewrite decide_True; [done|].
    unfold known. simpl. set_solver.
Qed.

(** X15. The loop over the bases stops at the first class of the method
    resolution order that is not a [Mirrored] class: when the classes
    before it are known, an unknown class is defined on its own, and the
    classes after it, [Mirrored] or not, known or not, are neither
    defined nor recorded. *)
Theorem register_mirrored_stops_at_first_other_class
    (depth : nat) (cls b : Cls) (front rest : list Cls) (s : PState) :
  is_class cls && issubclass_Mirrored cls = true →
  mro cls = cls :: front ++ b :: rest →
  Forall (λ c, issubclass_Mirrored c = true ∧ c ∈ known s) front →
  issubclass_Mirrored b = false →
  cls ∉ known s →
  ProxyM.status s ≠ CLOSED →
  ∃ s', ProxyM.register_mirrored (S depth) cls s = (inr tt, s') ∧
    outbox s' = outbox s ++ define_commands cls ∧
    known s' = {[cls]} ∪ known s.
Proof.
  intros Hvalid Hmro Hfront Hb Hnew Hopen.
  assert (Hprefix : mirrored_prefix (front ++ b :: rest) = front).
  { apply mirrored_prefix_stops; [|done].
    eapply Forall_impl; [done|]. by intros c [? _]. }
  assert (Hbases : ∀ c, c ∈ mirrored_prefix (tail (mro cls)) → c ∈ known s).
  { rewrite Hmro. simpl. rewrite Hprefix. intros c Hc.
    rewrite Forall_forall in Hfront. by apply Hfront. }
  destruct (record_and_define_open cls s Hopen) as [s' Hrun].
  exists s'.
  pose proof (record_and_define_emits _ _ _ Hrun) as [(_ & _ & Hout) Hk].
  split; [|done].
  rewrite register_mirrored_unfold, Hvalid. simpl.
  rewrite bind_gets. cbv beta. rewrite decide_False by done.
  by rewrite (bind_ok _ _ _ _ _ (register_bases_known _ _ s Hbases)).
Qed.

End ProxyEdges.

(** ** What the manager never drops *)

Lemma keeps_classes_refl w : keeps_classes w w.
Proof. intros name cls p c H. eauto. Qed.

Lemma keeps_classes_trans w1 w2 w3 :
  keeps_classes w1 w2 → keeps_classes w2 w3 → keeps_classes w1 w3.
Proof.
  intros H12 H23 name cls p c H.
  apply H12 in H as (p' & c' & H). by apply H23 in H.
Qed.

Lemma keeps_classes_names w w' : keeps_classes w w' → keeps_names w w'.
Proof.
  intros H name [[[cls p] c] Hn]%elem_of_dom.
  apply H in Hn as (p' & c' & Hn). apply elem_of_dom. eauto.
Qed.

Lemma has_class_kept name cls w w' :
  keeps_classes w w' → has_class name cls w → has_class name cls w'.
Proof. intros H (p & c & Hn). apply H in Hn. exact Hn. Qed.

(** A computation built with [bind] keeps the classes when its parts do, as
    long as [name] is registered with [cls]. *)
Lemma bind_keeps_at {A B} name cls (m : M World A) (k : A → M World B) :
  (∀ w r w', has_class name cls w → m w = (r, w') → keeps_classes w w') →
  (∀ a w r w', has_class name cls w → k a w = (r, w') → keeps_classes w w') →
  ∀ w r w', has_class name cls w → bind m k w = (r, w') → keeps_classes w w'.
Proof.
  intros Hm Hk w r w' Hpre. unfold bind.
  destruct (m w) as [[e|a] w1] eqn:Hrun; apply (Hm _ _ _ Hpre) in Hrun.
  - by intros [= <- <-].
  - intros Hrest. apply Hk in Hrest.
    + by eapply keeps_classes_trans.
    + by eapply has_class_kept.
Qed.

Lemma bind_keeps {A B} (m : M World A) (k : A → M World B) :
  (∀ w r w', m w = (r, w') → keeps_classes w w') →
  (∀ a w r w', k a w = (r, w') → keeps_classes w w') →
  ∀ w r w', bind m k w = (r, w') → keeps_classes w w'.
Proof.
  intros Hm Hk w r w'. unfold bind.
  destruct (m w) as [[e|a] w1] eqn:Hrun; apply Hm in Hrun.
  - by intros [= <- <-].
  - intros Hrest%Hk. by eapply keeps_classes_trans.
Qed.

(** After [self._proxies[name]] has been read, [name] is registered with
    the class that was read. *)
Lemma bind_lookup_keeps {B} name (k : Entry → M World B) :
  (∀ cls pending connected w r w',
     has_class name cls w → _proxies w !! name = Some (cls, pending, connected) →
     k (cls, pending, connected) w = (r, w') → keeps_classes w w') →
  ∀ w r w', bind (lookup_entry name) k w = (r, w') → keeps_classes w w'.
Proof.
  intros Hk w r w'. unfold bind, lookup_entry.
  destruct (_proxies w !! name) as [[[cls p] c]|] eqn:Hn.
  - apply Hk; [by exists p, c|done].
  - intros [= <- <-]. apply keeps_classes_refl.
Qed.

Lemma same_registry_keeps w w' :
  _proxies w' = _proxies w → keeps_classes w w'.
Proof. intros Heq name cls p c H. rewrite Heq. eauto. Qed.

(** Writing an entry back with the class it was read with. *)
Lemma set_entry_keeps name cls pending connected w r w' :
  has_class name cls w →
  set_entry name (cls, pending, connected) w = (r, w') → keeps_classes w w'.
Proof.
  intros (p & c & Hn). unfold set_entry, modify. intros [= <- <-].
  intros name0 cls0 p0 c0 H0. simpl.
  destruct (decide (name0 = name)) as [->|Hne].
  - rewrite lookup_insert_eq. unfold Entry in *. rewrite Hn in H0.
    injection H0 as <- _ _. eauto.
  - rewrite lookup_insert_ne by done. eauto.
Qed.

Lemma with_proxy_keeps {A} a (m : M PState A) w r w' :
  with_proxy a m w = (r, w') → keeps_classes w w'.
Proof.
  unfold with_proxy. destruct (heap w !! a) as [p|] eqn:Hp.
  - destruct (m _) as [r0 s']. intros [= <- <-]. by apply same_registry_keeps.
  - intros [= <- <-]. apply keeps_classes_refl.
Qed.

Lemma assert_keeps b w r w' :
  assert_ (S := World) b w = (r, w') → keeps_classes w w'.
Proof. destruct b; intros [= <- <-]; apply keeps_classes_refl. Qed.

Lemma gets_keeps {A} (f : World → A) w r w' :
  gets f w = (r, w') → keeps_classes w w'.
Proof. intros [= <- <-]. apply keeps_classes_refl. Qed.

Lemma ret_keeps {A} (a : A) w r w' :
  ret (S := World) a w = (r, w') → keeps_classes w w'.
Proof. intros [= <- <-]. apply keeps_classes_refl. Qed.

Lemma raise_keeps {A} e w r w' :
  raise (S := World) (A := A) e w = (r, w') → keeps_classes w w'.
Proof. intros [= <- <-]. apply keeps_classes_refl. Qed.

Section Keeping.
Context {E : Externals}.

Lemma init_server_keeps host port w r w' :
  init_server host port w = (r, w') → keeps_classes w w'.
Proof.
  intros (_ & _ & Hp)%init_server_state. by apply same_registry_keeps.
Qed.

Lemma launch_runtime_keeps a runtime kwargs w r w' :
  _launch_runtime a runtime kwargs w = (r, w') → keeps_classes w w'.
Proof.
  unfold _launch_runtime. destruct (decide (runtime = "<export>")).
  { revert w r w'. apply bind_keeps.
    - intros w r w'. unfold modify. intros [= <- <-].
      by apply same_registry_keeps.
    - intros _ w r w'. apply with_proxy_keeps. }
  destruct (decide (runtime = "notebook")); [apply ret_keeps|].
  destruct (PyStr.truthy runtime); [|apply ret_keeps].
  revert w r w'. apply bind_keeps; [apply init_server_keeps|]. intros _.
  apply bind_keeps.
  { intros w r w' ->%get_serving_at_state. apply keeps_classes_refl. }
  intros [host port]. apply bind_keeps; [intros w r w'; apply with_proxy_keeps|].
  intros app_name w r w'. destruct (launch _ _ _).
  - apply raise_keeps.
  - apply with_proxy_keeps.
Qed.

Lemma Proxy_new_keeps app_name runtime kwargs w r w' :
  Proxy_new app_name runtime kwargs w = (r, w') → keeps_classes w w'.
Proof.
  unfold Proxy_new. revert w r w'.
  apply bind_keeps; [intros w r w'; apply gets_keeps|]. intros a.
  apply bind_keeps; [intros w r w'; apply gets_keeps|]. intros known.
  apply bind_keeps.
  { intros w r w'. unfold modify. intros [= <- <-].
    by apply same_registry_keeps. }
  intros _. apply bind_keeps; [|intros _ w r w'; apply ret_keeps].
  intros w r w'. destruct runtime as [rt|]; [|apply ret_keeps].
  destruct (PyStr.truthy rt); [apply launch_runtime_keeps|apply ret_keeps].
Qed.

Lemma add_pending_keeps proxy w r w' :
  AppManager.add_pending_proxy_instance proxy w = (r, w') → keeps_classes w w'.
Proof.
  unfold AppManager.add_pending_proxy_instance. revert w r w'.
  apply bind_keeps; [intros w r w'; apply with_proxy_keeps|]. intros app_name.
  apply bind_keeps; [intros w r w'; apply gets_keeps|]. intros d.
  apply bind_keeps; [intros w r w'; apply assert_keeps|]. intros _.
  apply bind_lookup_keeps. intros cls pending connected w r w' Hcls _.
  cbv beta iota. revert w r w' Hcls.
  apply bind_keeps_at; [intros w r w' _; apply with_proxy_keeps|].
  intros st w r w' Hcls. destruct (decide _); [|apply raise_keeps].
  revert w r w' Hcls.
  apply bind_keeps_at; [intros w r w' _; apply assert_keeps|]. intros _.
  intros w r w'. apply set_entry_keeps.
Qed.

(** X16. The registry of the manager only grows: no operation, whether it
    returns or raises, removes an application name, and every operation
    other than [register_app_class] leaves each name with the class it was
    registered with. So ['__default__'], registered from the start, stays
    registered. *)
Theorem manager_keeps_names_and_classes (w : World) :
  (∀ cls r w', AppManager.register_app_class cls w = (r, w') →
     keeps_names w w') ∧
  (∀ r w', AppManager.get_default_proxy w = (r, w') → keeps_classes w w') ∧
  (∀ proxy r w', AppManager.add_pending_proxy_instance proxy w = (r, w') →
     keeps_classes w w') ∧
  (∀ ws name app_id r w', AppManager.connect_client ws name app_id w = (r, w') →
     keeps_classes w w') ∧
  (∀ proxy r w', AppManager.disconnect_client proxy w = (r, w') →
     keeps_classes w w') ∧
  (∀ cls kwargs1 runtime kwargs r w',
     launch_app cls kwargs1 runtime kwargs w = (r, w') → keeps_classes w w') ∧
  (∀ w', keeps_classes w w' → keeps_names w w') ∧
  (∀ w', keeps_names w w' →
     is_Some (_proxies w !! "__default__") →
     AppManager.has_app_name "__default__" w' = (inr true, w')).
Proof.
  split; [|split; [|split; [|split; [|split; [|split; [|split]]]]]].
  - intros cls r w'.
    unfold AppManager.register_app_class, bind, assert_, ret, raise, gets.
    destruct (is_class cls && issubclass_Widget cls);
      [|intros [= <- <-]; by unfold keeps_names].
    cbv beta iota.
    destruct (_proxies w !! cls_name cls) as [[[old p0] c0]|];
      [destruct (decide (Some cls ≠ old))|];
      unfold set_entry, modify; intros [= <- <-];
      unfold keeps_names; simpl; rewrite dom_insert; set_solver.
  - unfold AppManager.get_default_proxy. revert w.
    apply bind_lookup_keeps. intros cls pending connected w r w' Hcls _.
    cbv beta iota. destruct (last _); [apply ret_keeps|]. revert w r w' Hcls.
    apply bind_keeps_at; [intros w r w' _; apply gets_keeps|]. intros nb.
    apply bind_keeps_at; [intros w r w' _; apply Proxy_new_keeps|]. intros proxy.
    apply bind_keeps_at; [intros w r w'; apply set_entry_keeps|].
    intros _ w r w' _. apply ret_keeps.
  - intros proxy r w'. apply add_pending_keeps.
  - intros ws name app_id. unfold AppManager.connect_client. revert w.
    apply bind_lookup_keeps. intros cls pending connected w r w' Hcls _.
    cbv beta iota. revert w r w' Hcls. apply bind_keeps_at.
    { intros w r w' Hcls. unfold AppManager.find_proxy.
      destruct (decide (name = "__default__")).
      - destruct (last pending).
        + revert w r w' Hcls.
          apply bind_keeps_at; [intros w r w'; apply set_entry_keeps|].
          intros _ w r w' _. apply ret_keeps.
        + clear Hcls. revert w r w'. apply bind_keeps; [apply Proxy_new_keeps|].
          intros a w r w'. apply ret_keeps.
      - destruct (negb _).
        + destruct cls as [c|]; [|apply raise_keeps]. revert w r w' Hcls.
          apply bind_keeps_at; [intros w r w' _; apply Proxy_new_keeps|].
          intros a.
          apply bind_keeps_at; [intros w r w' _; apply with_proxy_keeps|].
          intros app.
          apply bind_keeps_at; [intros w r w' _; apply with_proxy_keeps|].
          intros _ w r w' _. apply ret_keeps.
        + destruct (List.find _ _); [|apply raise_keeps]. revert w r w' Hcls.
          apply bind_keeps_at; [intros w r w'; apply set_entry_keeps|].
          intros _ w r w' _. apply ret_keeps. }
    intros [proxy pending'].
    apply bind_keeps_at; [intros w r w' _; apply with_proxy_keeps|]. intros st.
    apply bind_keeps_at; [intros w r w' _; apply assert_keeps|]. intros _.
    apply bind_keeps_at; [intros w r w' _; apply with_proxy_keeps|]. intros _.
    apply bind_keeps_at; [intros w r w'; apply set_entry_keeps|].
    intros _ w r w' _. apply ret_keeps.
  - intros proxy. unfold AppManager.disconnect_client. revert w.
    apply bind_keeps; [intros w r w'; apply with_proxy_keeps|]. intros app_name.
    apply bind_lookup_keeps. intros cls pending connected w r w' Hcls _.
    cbv beta iota. revert w r w' Hcls.
    apply bind_keeps_at; [intros w r w'; apply set_entry_keeps|].
    intros _ w r w' _. apply with_proxy_keeps.
  - intros cls kwargs1 runtime kwargs. unfold launch_app. revert w.
    apply bind_keeps; [apply Proxy_new_keeps|]. intros proxy.
    apply bind_keeps; [intros w r w'; apply with_proxy_keeps|]. intros app.
    apply bind_keeps; [intros w r w'; apply with_proxy_keeps|]. intros _.
    apply bind_keeps; [|intros _ w r w'; apply ret_keeps].
    intros w r w'. apply add_pending_keeps.
  - intros w'. apply keeps_classes_names.
  - intros w' Hnames Hdefault. unfold AppManager.has_app_name, gets.
    rewrite bool_decide_eq_true_2; [done|].
    apply elem_of_dom, Hnames, elem_of_dom, Hdefault.
Qed.

End Keeping.

(** ** Registering and launching an application *)

Lemma with_proxy_inv {A} (m : M PState A) a p w r w' :
  heap w !! a = Some p →
  with_proxy a m w = (r, w') →
  ∃ s', m {| self := p; chans := channels w |} = (r, s') ∧
    w' = set_channels (chans s') (set_heap (<[a := self s']> (heap w)) w).
Proof.
  intros Hp. unfold with_proxy. rewrite Hp.
  destruct (m _) as [r0 s'] eqn:Hm. intros [= <- <-]. by exists s'.
Qed.

Lemma set_widget_inv (x : Widget) (s : PState) s' :
  ProxyM._set_widget x s = (inr tt, s') →
  _widget (self s) = None ∧ s' = on_self (set_widget (Some x)) s.
Proof.
  unfold ProxyM._set_widget. rewrite bind_gets. cbv beta.
  destruct (_widget (self s)); simpl; [done|]. by intros [= <-].
Qed.

Section Launching.
Context {E : Externals}.

Lemma launch_runtime_proxy a p runtime kwargs w r w' :
  heap w !! a = Some p →
  _launch_runtime a runtime kwargs w = (r, w') →
  _proxies w' = _proxies w ∧
  ∃ p', heap w' = <[a := p']> (heap w) ∧
        _app_name p' = _app_name p ∧ _widget p' = _widget p.
Proof.
  intros Hp. destruct (decide (runtime = "<export>")) as [->|Hne].
  - unfold _launch_runtime. rewrite decide_True by done.
    unfold bind, modify, with_proxy. simpl. rewrite Hp. simpl.
    intros [= <- <-]. simpl. split; [done|]. by eexists.
  - intros (Hreg & rt & Hheap)%(launch_runtime_state _ _ _ _ _ _ _ Hne Hp).
    split; [done|]. by eexists.
Qed.

Lemma Proxy_new_inv app_name runtime kwargs w a w1 :
  Proxy_new app_name runtime kwargs w = (inr a, w1) →
  a = fresh (dom (heap w)) ∧
  _proxies w1 = _proxies w ∧
  ∃ p, heap w1 = <[a := p]> (heap w) ∧
       _app_name p = app_name ∧ _widget p = None.
Proof.
  unfold Proxy_new. rewrite !bind_gets. cbv beta.
  unfold bind at 1. unfold modify at 1.
  fold (blank_proxy app_name w).
  set (a0 := fresh (dom (heap w))).
  set (w0 := set_heap _ w).
  assert (Hp0 : heap w0 !! a0 = Some (blank_proxy app_name w))
    by apply lookup_insert_eq.
  unfold bind.
  destruct runtime as [rt|]; [destruct (PyStr.truthy rt)|].
  - destruct (_launch_runtime a0 rt kwargs w0) as [[e|[]] w2] eqn:Hl; [done|].
    apply (launch_runtime_proxy _ _ _ _ _ _ _ Hp0) in Hl
      as (Hreg & p' & Hheap & Hname & Hwidget).
    intros [= <- <-]. split; [done|]. split; [done|].
    exists p'. split; [|done]. rewrite Hheap. subst w0. simpl.
    by rewrite insert_insert_eq.
  - intros [= <- <-]. split; [done|]. split; [done|]. by eexists.
  - intros [= <- <-]. split; [done|]. split; [done|]. by eexists.
Qed.

Lemma add_pending_inv proxy p w w' :
  heap w !! proxy = Some p →
  AppManager.add_pending_proxy_instance proxy w = (inr tt, w') →
  _ws p = None ∧
  ∃ cls pending connected,
    _proxies w !! _app_name p = Some (cls, pending, connected) ∧
    (proxy ∉ pending) ∧
    w' = set_proxies (<[_app_name p := (cls, pending ++ [proxy], connected)]>
                        (_proxies w)) w.
Proof.
  intros Hp. unfold AppManager.add_pending_proxy_instance.
  rewrite (bind_ok _ _ _ _ _ (with_proxy_gets _ _ _ _ Hp)).
  rewrite bind_gets. cbv beta. cbn [self]. unfold Entry in *.
  destruct (_proxies w !! _app_name p) as [[[cls pending] connected]|] eqn:Hentry;
    unfold Entry in Hentry; rewrite Hentry.
  2:{ rewrite bool_decide_eq_false_2 by (by intros [? ?]).
      by rewrite bind_assert_false. }
  rewrite bool_decide_eq_true_2 by eauto. rewrite bind_assert_true.
  rewrite (bind_ok _ _ _ _ _ (lookup_entry_ok _ _ _ Hentry)).
  rewrite (bind_ok _ _ _ _ _ (with_proxy_gets _ _ _ _ Hp)).
  destruct (decide (ProxyM.status _ = PENDING)) as [Hst|Hst]; [|done].
  apply status_PENDING in Hst. simpl in Hst.
  destruct (decide (proxy ∈ pending)) as [Hin|Hin].
  - rewrite bool_decide_eq_false_2 by naive_solver.
    by rewrite bind_assert_false.
  - rewrite bool_decide_eq_true_2 by done. rewrite bind_assert_true.
    intros [= <-]. split; [done|]. by exists cls, pending, connected.
Qed.

(** X17. Launching an application and connecting to it. When [launch] of a
    registered class returns the application object, a proxy at a new
    identity, named after the class, without channel and holding that
    object, has been appended to the pending list of the class. A
    connection that then carries the id of this proxy gets this proxy: it
    moves to the end of the connected list, the pending list is what it
    was before the launch, and the commands buffered since the launch are
    what the channel receives. (The constructor of the application object
    is assumed not to rename the proxy.) *)
Theorem launch_then_connect
    (cls : Cls) (kwargs1 kwargs : list (string * string))
    (runtime : option string) (ws : chan) (w w1 : World) (app : Widget)
    (c0 : option Cls) (pending connected : list addr) :
  let name := cls_name cls in
  let proxy := fresh (dom (heap w)) in
  name ≠ "__default__" →
  _proxies w !! name = Some (c0, pending, connected) →
  (∀ s r s', new_widget cls proxy s = (r, s') →
             _app_name (self s') = _app_name (self s)) →
  launch_app cls kwargs1 runtime kwargs w = (inr app, w1) →
  heap w !! proxy = None ∧
  (proxy ∉ pending) ∧
  _proxies w1 = <[name := (c0, pending ++ [proxy], connected)]> (_proxies w) ∧
  ∃ p, heap w1 !! proxy = Some p ∧
    _app_name p = name ∧ _ws p = None ∧ _widget p = Some app ∧
    ∃ w2, AppManager.connect_client ws name (Some (ProxyM.id proxy)) w1
            = (inr proxy, w2) ∧
      _proxies w2 = <[name := (c0, pending, connected ++ [proxy])]> (_proxies w) ∧
      heap w2 = <[proxy := set_ws (Some ws) p]> (heap w1) ∧
      sent (channels w2 ws) = sent (channels w1 ws) ++ _pending_commands p.
Proof.
  intros name proxy Hname Hentry Hctor. unfold launch_app.
  unfold bind at 1.
  destruct (Proxy_new _ _ _ w) as [[e|a] wa] eqn:Hnew; [done|].
  apply Proxy_new_inv in Hnew as (-> & Hrega & pa & Hheapa & Hnamea & Hwidgeta).
  fold proxy in Hheapa |- *.
  assert (Hpa : heap wa !! proxy = Some pa)
    by (rewrite Hheapa; apply lookup_insert_eq).
  unfold bind at 1.
  destruct (with_proxy proxy (new_widget cls proxy) wa) as [[e|app'] wb] eqn:Hb;
    [done|].
  apply (with_proxy_inv _ _ _ _ _ _ Hpa) in Hb as (sb & Hrunb & ->).
  apply Hctor in Hrunb as Hnameb. simpl in Hnameb.
  set (wb := set_channels _ _).
  assert (Hpb : heap wb !! proxy = Some (self sb)) by apply lookup_insert_eq.
  unfold bind at 1.
  destruct (with_proxy proxy (ProxyM._set_widget app') wb) as [[e|[]] wc] eqn:Hc;
    [done|].
  apply (with_proxy_inv _ _ _ _ _ _ Hpb) in Hc as (sc & Hrunc & ->).
  apply set_widget_inv in Hrunc as [Hnone ->]. simpl.
  set (pc := set_widget (Some app') (self sb)).
  set (wc := set_channels _ _).
  assert (Hpc : heap wc !! proxy = Some pc) by apply lookup_insert_eq.
  unfold bind at 1.
  destruct (AppManager.add_pending_proxy_instance proxy wc)
    as [[e|[]] wd] eqn:Hd; [done|].
  apply (add_pending_inv _ _ _ _ Hpc) in Hd
    as (Hws & c1 & pending1 & connected1 & Hentry1 & Hnotin & ->).
  unfold ret. intros [= -> <-].
  assert (Hsb : _app_name (self sb) = name) by by rewrite Hnameb.
  change (_app_name pc) with (_app_name (self sb)) in Hentry1.
  change (_proxies wc) with (_proxies wa) in Hentry1.
  rewrite Hsb, Hrega in Hentry1. unfold Entry in *.
  rewrite Hentry in Hentry1. injection Hentry1 as <- <- <-.
  cbn [_app_name pc set_widget]. rewrite Hsb.
  change (_proxies wc) with (_proxies wa). rewrite Hrega.
  set (wd := set_proxies _ wc).
  assert (Hentryd : _proxies wd !! name = Some (c0, pending ++ [proxy], connected))
    by apply lookup_insert_eq.
  split; [apply not_elem_of_dom, is_fresh|]. split; [done|].
  split; [done|].
  exists pc. split; [done|]. split; [done|]. split; [done|]. split; [done|].
  set (we := set_proxies (<[name := (c0, pending, connected)]> (_proxies wd)) wd).
  assert (Hfind : AppManager.find_proxy name (Some (ProxyM.id proxy)) c0
                    (pending ++ [proxy]) connected wd = (inr (proxy, pending), we)).
  { unfold AppManager.find_proxy. rewrite decide_False by done.
    simpl. rewrite id_truthy. simpl.
    rewrite find_by_id by (apply elem_of_app; right; by left).
    by rewrite list_remove_first_snoc. }
  destruct (connect_client_attach ws name _ wd we c0 _ connected pending
              proxy pc Hentryd Hfind)
    as (w2 & Hrun & Hreg & Hheap & Hsent & _); [done|done|].
  exists w2. split; [done|]. split; [|done].
  rewrite Hreg. subst we wd. simpl. by rewrite !insert_insert_eq.
Qed.

(** X18. [register_app_class] raises [AssertionError] and changes nothing for
    what is not a [Widget] class. Otherwise it returns, the class is
    stored under its name, which [has_app_name] then confirms, and no
    other entry, proxy or channel changes; a name that was free gets
    empty lists, and a name that held another class keeps its lists.
    [this_is_an_app] registers in the same way and returns the class. *)
Theorem register_app_class_registers (cls : Cls) (w : World) :
  (is_class cls && issubclass_Widget cls = false →
     AppManager.register_app_class cls w = (inl AssertionError, w) ∧
     this_is_an_app cls w = (inl AssertionError, w)) ∧
  (is_class cls && issubclass_Widget cls = true →
     ∃ w' pending connected,
       AppManager.register_app_class cls w = (inr tt, w') ∧
       this_is_an_app cls w = (inr cls, w') ∧
       _proxies w' = <[cls_name cls := (Some cls, pending, connected)]>
                       (_proxies w) ∧
       heap w' = heap w ∧ channels w' = channels w ∧
       AppManager.has_app_name (cls_name cls) w' = (inr true, w') ∧
       (_proxies w !! cls_name cls = None → pending = [] ∧ connected = []) ∧
       (∀ old pending0 connected0,
          _proxies w !! cls_name cls = Some (old, pending0, connected0) →
          old ≠ Some cls →
          pending = pending0 ∧ connected = connected0)).
Proof.
  split.
  - intros Hinvalid. unfold this_is_an_app, AppManager.register_app_class.
    rewrite Hinvalid. by rewrite !bind_assert_false.
  - intros Hvalid.
    assert (Hhas : ∀ e, AppManager.has_app_name (cls_name cls)
                          (set_proxies (<[cls_name cls := e]> (_proxies w)) w)
                        = (inr true, set_proxies (<[cls_name cls := e]>
                                                    (_proxies w)) w)).
    { intros e. unfold AppManager.has_app_name, gets. simpl.
      by rewrite bool_decide_eq_true_2 by (rewrite lookup_insert_eq; eauto). }
    assert (Hrun : ∃ pending connected,
      AppManager.register_app_class cls w =
        (inr tt, set_proxies (<[cls_name cls := (Some cls, pending, connected)]>
                                (_proxies w)) w) ∧
      (_proxies w !! cls_name cls = None → pending = [] ∧ connected = []) ∧
      (∀ old pending0 connected0,
         _proxies w !! cls_name cls = Some (old, pending0, connected0) →
         old ≠ Some cls → pending = pending0 ∧ connected = connected0)).
    { destruct (_proxies w !! cls_name cls) as [[[old pending0] connected0]|]
        eqn:Hentry.
      - destruct (decide (old = Some cls)) as [->|Hne].
        + exists [], []. split; [by eapply register_app_class_same_class|].
          split; [done|]. by intros ??? [= <- <- <-] Hold.
        + exists pending0, connected0.
          split; [by eapply register_app_class_other_class|].
          split; [done|]. by intros ??? [= <- <- <-] _.
      - exists [], []. split; [|by split].
        unfold AppManager.register_app_class. rewrite Hvalid.
        rewrite bind_assert_true, bind_gets. cbv beta.
        unfold Entry in *. by rewrite Hentry. }
    destruct Hrun as (pending & connected & Hrun & Hnew & Hother).
    eexists _, pending, connected. split; [exact Hrun|].
    split; [unfold this_is_an_app; by rewrite (bind_ok _ _ _ _ _ Hrun)|].
    split; [done|]. split; [done|]. split; [done|]. split; [apply Hhas|].
    by split.
Qed.

End Launching.

(** ** New proxies *)

Section NewProxies.
Context {E : Externals}.

Lemma add_pending_attached proxy p c e w :
  heap w !! proxy = Some p →
  _proxies w !! _app_name p = Some e →
  _ws p = Some c →
  AppManager.add_pending_proxy_instance proxy w
    = (inl (RuntimeError AlreadyConnected), w).
Proof.
  intros Hp Hentry Hws. unfold AppManager.add_pending_proxy_instance.
  rewrite (bind_ok _ _ _ _ _ (with_proxy_gets _ _ _ _ Hp)).
  rewrite bind_gets. cbv beta. cbn [self]. unfold Entry in *.
  rewrite Hentry. rewrite bool_decide_eq_true_2 by eauto.
  rewrite bind_assert_true.
  rewrite (bind_ok _ _ _ _ _ (lookup_entry_ok _ _ _ Hentry)).
  destruct e as [[cls pending] connected].
  rewrite (bind_ok _ _ _ _ _ (with_proxy_gets _ _ _ _ Hp)).
  rewrite decide_False; [done|].
  intros Hst%status_PENDING. simpl in Hst. congruence.
Qed.

(** X19. What [Proxy(app_name, runtime, ...)] creates, at an identity no proxy
    of the store has. Without runtime, with the empty string or with
    ['notebook'], only the new proxy is added: no server is started and
    nothing is launched. With ['<export>'] the proxy is born with its own
    open channel, the exporter, which has received nothing; the manager
    then refuses it as pending. And a class the client code has already
    defined is known to every new proxy, so registering it sends
    nothing. *)
Theorem Proxy_new_kinds
    (app_name : string) (kwargs : list (string * string)) (w : World) :
  let a := fresh (dom (heap w)) in
  heap w !! a = None ∧
  (∀ runtime,
     runtime = None ∨ runtime = Some "" ∨ runtime = Some "notebook" →
     Proxy_new app_name runtime kwargs w
       = (inr a, set_heap (<[a := blank_proxy app_name w]> (heap w)) w)) ∧
  (∃ w', Proxy_new app_name (Some "<export>") kwargs w = (inr a, w') ∧
     heap w' = <[a := set_ws (Some (ExporterOf a)) (blank_proxy app_name w)]>
                 (heap w) ∧
     channels w' (ExporterOf a) = {| close_code := None; sent := [] |} ∧
     (∀ c, c ≠ ExporterOf a → channels w' c = channels w c) ∧
     _proxies w' = _proxies w ∧
     _tornado_app w' = _tornado_app w ∧
     (is_Some (_proxies w !! app_name) →
        AppManager.add_pending_proxy_instance a w'
          = (inl (RuntimeError AlreadyConnected), w'))) ∧
  (∀ cls depth chs,
     cls ∈ defined_mirrored_classes w →
     is_class cls && issubclass_Mirrored cls = true →
     ProxyM.register_mirrored (S depth) cls
       {| self := blank_proxy app_name w; chans := chs |}
     = (inr tt, {| self := blank_proxy app_name w; chans := chs |})).
Proof.
  intros a. split; [apply not_elem_of_dom, is_fresh|]. split; [|split].
  - intros runtime [->|[->| ->]]; reflexivity.
  - set (w0 := set_heap (<[a := blank_proxy app_name w]> (heap w)) w).
    set (w1 := set_channels
                 (λ c, if decide (c = ExporterOf a)
                       then {| close_code := None; sent := [] |}
                       else channels w0 c) w0).
    assert (Hp1 : heap w1 !! a = Some (blank_proxy app_name w))
      by apply lookup_insert_eq.
    set (p := set_ws (Some (ExporterOf a)) (blank_proxy app_name w)).
    set (w2 := set_channels (channels w1)
                 (set_heap (<[a := p]> (heap w1)) w1)).
    assert (Hattach : with_proxy a
                        (modify (on_self (set_ws (Some (ExporterOf a))))) w1
                      = (inr tt, w2))
      by (unfold with_proxy; rewrite Hp1; reflexivity).
    exists w2. split.
    + unfold Proxy_new. rewrite !bind_gets. cbv beta.
      unfold bind at 1. unfold modify at 1. fold (blank_proxy app_name w).
      fold a. fold w0. unfold bind at 1. cbn [PyStr.truthy].
      unfold _launch_runtime. rewrite decide_True by done.
      unfold bind at 1. unfold modify at 1. fold w1. by rewrite Hattach.
    + split; [by subst w2 w1 w0; simpl; rewrite insert_insert_eq|].
      split; [by subst w2 w1; simpl; rewrite decide_True|].
      split; [intros c Hc; by subst w2 w1; simpl; rewrite decide_False|].
      split; [done|]. split; [done|].
      intros [e Hentry]. apply (add_pending_attached a p (ExporterOf a) e).
      * apply lookup_insert_eq.
      * exact Hentry.
      * reflexivity.
  - intros cls depth chs Hin Hvalid.
    rewrite register_mirrored_unfold, Hvalid. simpl.
    rewrite bind_gets. cbv beta. rewrite decide_True; [done|].
    unfold known. simpl. by apply elem_of_list_to_set.
Qed.

End NewProxies.

(** ** The further properties at the small instances *)

Lemma connect_client_by_id_witness :
  ∃ w', AppManager.connect_client (E := Demo.externals) (WebSocket 3) "Calc"
          (Some "1") Demo.calc_registered = (inr 1%positive, w') ∧
    _proxies w' !! "Calc" = Some (Some Demo.Calc, [], [2%positive; 1%positive]) ∧
    heap w' !! 1%positive = Some (set_ws (Some (WebSocket 3)) Demo.pending_proxy) ∧
    sent (channels w' (WebSocket 3)) = ["EXEC x=1"].
Proof.
  destruct (connect_client_by_id (E := Demo.externals) (WebSocket 3) "Calc"
              Demo.calc_registered (Some Demo.Calc) [1%positive] [2%positive]
              1%positive Demo.pending_proxy)
    as (w' & Hrun & Hreg & Hheap & Hsent & _).
  - discriminate.
  - apply demo_calc_entry.
  - by left.
  - reflexivity.
  - reflexivity.
  - exists w'. split; [exact Hrun|]. split; [|split; [|exact Hsent]].
    + rewrite Hreg. apply lookup_insert_eq.
    + rewrite Hheap. apply lookup_insert_eq.
Defined.

Lemma connect_client_default_takes_last_witness :
  ∃ w', AppManager.connect_client (E := Demo.externals) (WebSocket 3)
          "__default__" None Demo.default_both = (inr 1%positive, w') ∧
    _proxies w' !! "__default__" = Some (None, [], [2%positive; 1%positive]).
Proof.
  destruct (connect_client_default_takes_last (E := Demo.externals)
              (WebSocket 3) None Demo.default_both None [] [2%positive]
              1%positive Demo.pending_proxy)
    as (w' & Hrun & Hreg & _).
  - apply demo_default_both_entry.
  - reflexivity.
  - reflexivity.
  - exists w'. split; [exact Hrun|]. rewrite Hreg. apply lookup_insert_eq.
Defined.

Lemma connect_client_default_creates_witness :
  ∃ w', AppManager.connect_client (E := Demo.externals) (WebSocket 3)
          "__default__" None Demo.default_empty = (inr 4%positive, w') ∧
    _proxies w' !! "__default__" = Some (None, [], [4%positive]).
Proof.
  destruct (connect_client_default_creates (E := Demo.externals)
              (WebSocket 3) None Demo.default_empty None [])
    as (w' & Hrun & _ & Hreg & _).
  - apply lookup_singleton_eq.
  - exists w'. split; [exact Hrun|]. rewrite Hreg. apply lookup_insert_eq.
Defined.

Lemma connect_client_fresh_instance_witness :
  (∃ w', AppManager.connect_client (E := Demo.externals) (WebSocket 3) "Calc"
           None Demo.calc_registered = (inr 4%positive, w') ∧
     _proxies w' !! "Calc"
       = Some (Some Demo.Calc, [1%positive], [2%positive; 4%positive])) ∧
  (∃ w', AppManager.connect_client (E := Demo2.hostile) (WebSocket 3) "Calc"
           None Demo.calc_registered
           = (inl (ValueError NotAMirroredClass), w') ∧
     _proxies w' = _proxies Demo.calc_registered).
Proof.
  split.
  - destruct (connect_client_fresh_instance (E := Demo.externals)
                (WebSocket 3) "Calc" None Demo.calc_registered Demo.Calc
                [1%positive] [2%positive]) as [Hok _].
    + discriminate.
    + apply demo_calc_entry.
    + reflexivity.
    + destruct (Hok {| widget_class := Demo.Calc; widget_bool := true |}
                  {| self := blank_proxy "Calc" Demo.calc_registered;
                     chans := Demo.chans0 |})
        as (w' & Hrun & Hreg & _); [reflexivity..|].
      exists w'. split; [exact Hrun|]. rewrite Hreg. apply lookup_insert_eq.
  - destruct (connect_client_fresh_instance (E := Demo2.hostile)
                (WebSocket 3) "Calc" None Demo.calc_registered Demo.Calc
                [1%positive] [2%positive]) as [_ Hraise].
    + discriminate.
    + apply demo_calc_entry.
    + reflexivity.
    + apply (Hraise (ValueError NotAMirroredClass)
               {| self := blank_proxy "Calc" Demo.calc_registered;
                  chans := Demo.chans0 |}).
      reflexivity.
Defined.

Lemma demo_idle_entry :
  _proxies Demo2.calc_idle !! "Calc" = Some (Some Demo.Calc, [], [2%positive]).
Proof. apply lookup_insert_eq. Qed.

Lemma demo_heap_1 registry notebook :
  heap (Demo.world registry notebook) !! 1%positive = Some Demo.pending_proxy.
Proof. reflexivity. Qed.

Lemma demo_heap_2 registry notebook :
  heap (Demo.world registry notebook) !! 2%positive = Some Demo.connected_proxy.
Proof. reflexivity. Qed.

Lemma add_pending_proxy_instance_cases_witness :
  (∃ w', AppManager.add_pending_proxy_instance 1%positive
           Demo2.calc_idle = (inr tt, w') ∧
         _proxies w' !! "Calc" = Some (Some Demo.Calc, [1%positive], [2%positive])) ∧
  AppManager.add_pending_proxy_instance 1%positive
    Demo.calc_registered = (inl AssertionError, Demo.calc_registered) ∧
  AppManager.add_pending_proxy_instance 2%positive
    Demo2.calc_idle = (inl (RuntimeError AlreadyConnected), Demo2.calc_idle) ∧
  AppManager.add_pending_proxy_instance 1%positive
    Demo.default_empty = (inl AssertionError, Demo.default_empty).
Proof.
  split; [|split; [|split]].
  - destruct (add_pending_proxy_instance_cases
                1%positive Demo.pending_proxy Demo2.calc_idle
                (demo_heap_1 _ _)) as [_ Hreg].
    destruct (Hreg _ _ _ demo_idle_entry) as (_ & _ & Hok).
    eexists. split; [apply Hok; [reflexivity|apply not_elem_of_nil]|].
    apply lookup_insert_eq.
  - destruct (add_pending_proxy_instance_cases
                1%positive Demo.pending_proxy Demo.calc_registered
                (demo_heap_1 _ _)) as [_ Hreg].
    destruct (Hreg _ _ _ demo_calc_entry) as (_ & Hdup & _).
    apply Hdup; [reflexivity|by left].
  - destruct (add_pending_proxy_instance_cases
                2%positive Demo.connected_proxy Demo2.calc_idle
                (demo_heap_2 _ _)) as [_ Hreg].
    destruct (Hreg _ _ _ demo_idle_entry) as (Hattached & _).
    apply (Hattached (WebSocket 1)). reflexivity.
  - destruct (add_pending_proxy_instance_cases
                1%positive Demo.pending_proxy Demo.default_empty
                (demo_heap_1 _ _)) as [Hunknown _].
    apply Hunknown. reflexivity.
Defined.

Lemma disconnect_client_removes_witness :
  (∃ w', AppManager.disconnect_client (E := Demo.externals) 2%positive
           Demo.calc_registered = (inr tt, w') ∧
         _proxies w' !! "Calc" = Some (Some Demo.Calc, [1%positive], [])) ∧
  (∃ r w', AppManager.disconnect_client (E := Demo.externals) 1%positive
             Demo2.calc_idle = (r, w') ∧
           _proxies w' = _proxies Demo2.calc_idle) ∧
  AppManager.disconnect_client (E := Demo.externals) 2%positive
    Demo.default_empty = (inl (KeyError "Calc"), Demo.default_empty).
Proof.
  split; [|split].
  - destruct (disconnect_client_removes (E := Demo.externals) 2%positive
                Demo.connected_proxy Demo.calc_registered (demo_heap_2 _ _))
      as [_ Hreg].
    destruct (Hreg _ _ _ demo_calc_entry)
      as (r & w' & p' & Hrun & Hentry & _ & _ & _ & _ & _ & _ & Hr & _).
    simpl in Hr. subst r. exists w'. split; [exact Hrun|].
    rewrite Hentry. apply lookup_insert_eq.
  - destruct (disconnect_client_removes (E := Demo.externals) 1%positive
                Demo.pending_proxy Demo2.calc_idle (demo_heap_1 _ _))
      as [_ Hreg].
    destruct (Hreg _ _ _ demo_idle_entry)
      as (r & w' & p' & Hrun & _ & Hsame & _).
    exists r, w'. split; [exact Hrun|]. apply Hsame.
    intros Hin%list_elem_of_singleton. discriminate.
  - destruct (disconnect_client_removes (E := Demo.externals) 2%positive
                Demo.connected_proxy Demo.default_empty (demo_heap_2 _ _))
      as [Hunknown _].
    apply Hunknown. reflexivity.
Defined.

Lemma get_proxy_by_id_finds_witness :
  AppManager.get_proxy_by_id "Calc" "2"
    Demo.calc_registered = (inr (Some 2%positive), Demo.calc_registered) ∧
  AppManager.get_proxy_by_id "Calc" "ff"
    Demo.calc_registered = (inr None, Demo.calc_registered) ∧
  AppManager.get_proxy_by_id "Calc" "2"
    Demo.default_empty = (inl (KeyError "Calc"), Demo.default_empty).
Proof.
  destruct (get_proxy_by_id_finds (E := Demo.externals) "Calc"
              Demo.calc_registered) as [_ Hreg].
  destruct (Hreg _ _ _ demo_calc_entry) as (_ & Hfound & Hnone).
  destruct (get_proxy_by_id_finds (E := Demo.externals) "Calc"
              Demo.default_empty) as [Hunknown _].
  split; [|split].
  - apply (Hfound 2%positive). right. by left.
  - apply Hnone. intros proxy Hin.
    apply elem_of_cons in Hin as [->|Hin]; [discriminate|].
    apply list_elem_of_singleton in Hin as ->. discriminate.
  - apply Hunknown. reflexivity.
Defined.

Lemma init_server_binds_first_free_witness :
  init_server (E := Demo.externals) "localhost" None Demo.default_empty =
    (inr tt, set_tornado_app
       (Some {| serving_at := Some ("localhost", 52452%Z) |}) Demo.default_empty) ∧
  init_server (E := Demo2.hostile) "localhost" None Demo.default_empty =
    (inl (RuntimeError NoFreeAddress),
     set_tornado_app (Some {| serving_at := None |}) Demo.default_empty).
Proof.
  split.
  - destruct (init_server_binds_first_free (E := Demo.externals) "localhost"
                Demo.default_empty eq_refl) as [Hfree _].
    destruct (Hfree 0%nat) as [Hrun _]; [lia|reflexivity|lia|exact Hrun].
  - destruct (init_server_binds_first_free (E := Demo2.hostile) "localhost"
                Demo.default_empty eq_refl) as [_ Hbusy].
    apply Hbusy. reflexivity.
Defined.

Lemma init_server_acts_once_witness :
  (∃ w', init_server (E := Demo2.hostile) "localhost" (Some 8080%Z)
           Demo.default_empty = (inl OSError, w') ∧
         init_server (E := Demo2.hostile) "localhost" None w' = (inr tt, w')) ∧
  (∃ w', init_server (E := Demo.externals) "localhost" (Some 8080%Z)
           Demo.default_empty = (inr tt, w') ∧
         init_server (E := Demo.externals) "0.0.0.0" (Some 80%Z) w' = (inr tt, w')).
Proof.
  split.
  - eexists. split; [reflexivity|].
    destruct (init_server_acts_once (E := Demo2.hostile) "localhost"
                (Some 8080%Z) Demo.default_empty) as (_ & Hfail & _).
    destruct (Hfail eq_refl OSError _ eq_refl) as (_ & _ & _ & Hagain).
    apply Hagain.
  - eexists. split; [reflexivity|].
    destruct (init_server_acts_once (E := Demo.externals) "localhost"
                (Some 8080%Z) Demo.default_empty) as (_ & _ & Hok).
    destruct (Hok eq_refl _ eq_refl) as (p & _ & _ & Hagain).
    apply Hagain.
Defined.

Lemma proxy_methods_and_status_witness :
  (∃ s', ProxyM.register_mirrored (E := Demo.externals) 4 Demo.Button
           Demo.connected_state = (inr tt, s') ∧
         ProxyM.status s' = CONNECTED) ∧
  (∃ s', ProxyM._connect_client (WebSocket 2) Demo.pending_state = (inr tt, s') ∧
         ProxyM.status s' = CLOSED ∧
         ProxyM._send_command "EXEC y=2" s'
           = (inl (RuntimeError AppIsClosed), s')) ∧
  ProxyM._connect_client (WebSocket 3) Demo.closed_state
    = (inl AssertionError, Demo.closed_state) ∧
  (∃ w', _launch_runtime (E := Demo.externals) 3%positive "<export>" []
           Demo.calc_registered = (inr tt, w') ∧
         ProxyM.status Demo.closed_state = CLOSED ∧
         ∃ p', heap w' !! 3%positive = Some p' ∧
           _pending_commands p' = ["EXEC x=1"] ∧
           ProxyM.status {| self := p'; chans := channels w' |} = CONNECTED ∧
           outbox {| self := p'; chans := channels w' |} = []).
Proof.
  split; [|split; [|split]].
  - set (s' := snd (ProxyM.register_mirrored (E := Demo.externals) 4
                      Demo.Button Demo.connected_state)).
    assert (Hrun : ProxyM.register_mirrored (E := Demo.externals) 4 Demo.Button
                     Demo.connected_state = (inr tt, s'))
      by (vm_compute; reflexivity).
    destruct (proxy_methods_and_status (E := Demo.externals)
                Demo.connected_state) as (_ & _ & _ & Hreg & _).
    destruct (Hreg _ _ _ _ Hrun) as [_ Hst].
    exists s'. split; [exact Hrun|]. rewrite Hst. reflexivity.
  - set (s' := snd (ProxyM._connect_client (WebSocket 2) Demo.pending_state)).
    assert (Hrun : ProxyM._connect_client (WebSocket 2) Demo.pending_state
                   = (inr tt, s')) by reflexivity.
    assert (Hst : ProxyM.status s' = CLOSED) by reflexivity.
    exists s'. split; [exact Hrun|]. split; [exact Hst|].
    destruct (proxy_methods_and_status (E := Demo.externals) s')
      as (Hsend & _).
    destruct (ProxyM._send_command "EXEC y=2" s') as [r s''] eqn:Hcmd.
    destruct (Hsend _ _ _ Hcmd) as [_ Hst'].
    vm_compute in Hcmd. injection Hcmd as <- <-. reflexivity.
  - destruct (proxy_methods_and_status (E := Demo.externals)
                Demo.closed_state) as (_ & _ & _ & _ & _ & _ & Hconn & _).
    destruct (ProxyM._connect_client (WebSocket 3) Demo.closed_state)
      as [r s'] eqn:Hrun.
    destruct (Hconn _ _ _ Hrun) as [Hattached _].
    destruct Hattached as [-> ->]; [discriminate|reflexivity].
  - destruct (proxy_methods_and_status (E := Demo.externals)
                Demo.closed_state) as (_ & _ & _ & _ & _ & _ & _ & _ & Hexport).
    destruct (Hexport 3%positive Demo.calc_registered [])
      as (w' & Hrun & Hheap & Hbuf & Hst & Hout); [reflexivity..|].
    exists w'. split; [exact Hrun|]. split; [reflexivity|].
    eexists. split; [exact Hheap|]. split; [exact Hbuf|].
    split; [exact Hst|exact Hout].
Defined.

Lemma eval_needs_channel_witness :
  ProxyM.eval "1+1" Demo.pending_state
    = (inl (RuntimeError AppNotConnected), Demo.pending_state) ∧
  (∃ s', ProxyM.eval "1+1" Demo.connected_state = (inr tt, s') ∧
         sent (chans s' (WebSocket 1)) = ["EVAL 1+1"]) ∧
  ProxyM.eval "1+1" Demo.closed_state
    = (inl (RuntimeError AppIsClosed), Demo.closed_state).
Proof.
  split; [|split].
  - destruct (eval_needs_channel "1+1" Demo.pending_state) as [Hpending _].
    apply Hpending. reflexivity.
  - destruct (eval_needs_channel "1+1" Demo.connected_state) as [_ Hchannel].
    destruct (Hchannel (WebSocket 1) eq_refl) as (_ & Hopen & _).
    destruct (Hopen eq_refl) as (s' & Hrun & Hsent & _).
    exists s'. split; [exact Hrun|exact Hsent].
  - destruct (eval_needs_channel "1+1" Demo.closed_state) as [_ Hchannel].
    destruct (Hchannel (WebSocket 2) eq_refl) as (_ & _ & Hclosed).
    apply (Hclosed 1000%Z). reflexivity.
Defined.

Lemma set_widget_once_witness :
  let x := {| widget_class := Demo.Calc; widget_bool := true |} in
  let y := {| widget_class := Demo.Button; widget_bool := true |} in
  ∃ s1, ProxyM._set_widget x Demo.pending_state = (inr tt, s1) ∧
    ProxyM._set_widget y s1 = (inl AssertionError, s1) ∧
    ∃ s2 s3, ProxyM.close (E := Demo.externals) s1 = (inr tt, s2) ∧
      ProxyM._set_widget y s2 = (inr tt, s3) ∧ _widget (self s3) = Some y.
Proof.
  intros x y.
  destruct (set_widget_once (E := Demo.externals) x y Demo.pending_state eq_refl)
    as (s1 & Hset & _ & Hagain & Hclose).
  exists s1. split; [exact Hset|]. split; [exact Hagain|].
  set (s2 := snd (ProxyM.close (E := Demo.externals) s1)).
  assert (Hrun : ProxyM.close (E := Demo.externals) s1 = (inr tt, s2)).
  { injection Hset as <-. reflexivity. }
  destruct (Hclose eq_refl s2 Hrun) as (s3 & Hset3 & Hwidget).
  exists s2, s3. split; [exact Hrun|]. split; [exact Hset3|exact Hwidget].
Defined.

Lemma register_mirrored_failures_witness :
  ProxyM.register_mirrored (E := Demo.externals) 1 Demo.Calc Demo.pending_state
    = (inl (ValueError NotAMirroredClass), Demo.pending_state) ∧
  ∃ s', ProxyM.register_mirrored (E := Demo.externals) 1 Demo.Base
          Demo.closed_state = (inl (RuntimeError AppIsClosed), s') ∧
    Demo.Base ∈ known s' ∧
    outbox s' = [] ∧
    ProxyM.register_mirrored (E := Demo.externals) 1 Demo.Base s' = (inr tt, s').
Proof.
  destruct (register_mirrored_failures (E := Demo.externals) 0 Demo.Calc
              Demo.pending_state) as [Hinvalid _].
  split; [apply Hinvalid; reflexivity|].
  destruct (register_mirrored_failures (E := Demo.externals) 0 Demo.Base
              Demo.closed_state) as [_ Hclosed].
  destruct Hclosed as (s' & Hrun & Hknown & Hout & _ & Hagain).
  - reflexivity.
  - reflexivity.
  - change (Demo.Base ∉ ({[Demo.Mirrored]} : gset Cls)).
    intros Hin%elem_of_singleton. discriminate.
  - intros b Hb. change (b ∈ [Demo.Mirrored]) in Hb.
    apply list_elem_of_singleton in Hb as ->.
    change (Demo.Mirrored ∈ ({[Demo.Mirrored]} : gset Cls)).
    by apply elem_of_singleton.
  - exists s'. split; [exact Hrun|]. split; [|split; [exact Hout|exact Hagain]].
    rewrite Hknown. apply elem_of_union_l. by apply elem_of_singleton.
Defined.

Lemma register_mirrored_stops_at_first_other_class_witness :
  ∃ s', ProxyM.register_mirrored (E := Demo2.with_mixin) 1 Demo2.Mixed
          Demo.pending_state = (inr tt, s') ∧
    outbox s' = ["EXEC x=1"; "DEFINE-JS mixed"] ∧
    Demo.Base ∉ known s'.
Proof.
  destruct (register_mirrored_stops_at_first_other_class (E := Demo2.with_mixin)
              0 Demo2.Mixed Demo2.Plain [] [Demo.Base; Demo.Mirrored; Demo.object]
              Demo.pending_state) as (s' & Hrun & Hout & Hknown).
  - reflexivity.
  - reflexivity.
  - constructor.
  - reflexivity.
  - change (Demo2.Mixed ∉ ({[Demo.Mirrored]} : gset Cls)).
    intros Hin%elem_of_singleton. discriminate.
  - discriminate.
  - exists s'. split; [exact Hrun|]. split; [exact Hout|].
    rewrite Hknown.
    change (Demo.Base ∉ ({[Demo2.Mixed]} ∪ {[Demo.Mirrored]} : gset Cls)).
    intros [Hin|Hin]%elem_of_union; apply elem_of_singleton in Hin;
      discriminate.
Defined.

Lemma manager_keeps_names_and_classes_witness :
  ∃ r w', AppManager.connect_client (E := Demo2.hostile) (WebSocket 3) "Calc"
            None Demo.calc_registered = (r, w') ∧
    has_class "Calc" (Some Demo.Calc) w' ∧
    AppManager.has_app_name "__default__" w' = (inr true, w').
Proof.
  destruct (AppManager.connect_client (E := Demo2.hostile) (WebSocket 3) "Calc"
              None Demo.calc_registered) as [r w'] eqn:Hrun.
  exists r, w'. split; [reflexivity|].
  destruct (manager_keeps_names_and_classes (E := Demo2.hostile)
              Demo.calc_registered)
    as (_ & _ & _ & Hconnect & _ & _ & Hnames & Hdefault).
  pose proof (Hconnect _ _ _ _ _ Hrun) as Hkeeps. split.
  - apply (Hkeeps "Calc" (Some Demo.Calc) [1%positive] [2%positive]).
    apply demo_calc_entry.
  - apply Hdefault.
    + by apply Hnames.
    + exists (None, [], []). reflexivity.
Defined.

Lemma launch_then_connect_witness :
  ∃ app w1 w2,
    launch_app (E := Demo.externals) Demo.Calc [("title", "Calc")] (Some "xul")
      [("size", "big")] Demo2.calc_idle = (inr app, w1) ∧
    _proxies w1 !! "Calc" = Some (Some Demo.Calc, [4%positive], [2%positive]) ∧
    AppManager.connect_client (E := Demo.externals) (WebSocket 3) "Calc"
      (Some "4") w1 = (inr 4%positive, w2) ∧
    _proxies w2 !! "Calc"
      = Some (Some Demo.Calc, [], [2%positive; 4%positive]).
Proof.
  set (run := launch_app (E := Demo.externals) Demo.Calc [("title", "Calc")]
                (Some "xul") [("size", "big")] Demo2.calc_idle).
  set (app := {| widget_class := Demo.Calc; widget_bool := true |}).
  set (w1 := snd run).
  assert (Hrun : run = (inr app, w1)) by (vm_compute; reflexivity).
  destruct (launch_then_connect (E := Demo.externals) Demo.Calc
              [("title", "Calc")] [("size", "big")] (Some "xul") (WebSocket 3)
              Demo2.calc_idle w1 app (Some Demo.Calc) [] [2%positive])
    as (_ & _ & Hreg1 & p & _ & _ & _ & _ & w2 & Hconnect & Hreg2 & _).
  - discriminate.
  - apply demo_idle_entry.
  - intros s r s'. cbn. unfold ret. by intros [= _ <-].
  - exact Hrun.
  - exists app, w1, w2. split; [exact Hrun|].
    split; [rewrite Hreg1; apply lookup_insert_eq|].
    split; [exact Hconnect|]. rewrite Hreg2. apply lookup_insert_eq.
Defined.

Lemma register_app_class_registers_witness :
  AppManager.register_app_class (E := Demo.externals) Demo.Button
    Demo.default_empty = (inl AssertionError, Demo.default_empty) ∧
  ∃ w', this_is_an_app (E := Demo.externals) Demo.Calc Demo.default_empty
          = (inr Demo.Calc, w') ∧
    _proxies w' !! "Calc" = Some (Some Demo.Calc, [], []) ∧
    _proxies w' !! "__default__" = Some (None, [], []).
Proof.
  destruct (register_app_class_registers (E := Demo.externals) Demo.Button
              Demo.default_empty) as [Hinvalid _].
  split; [apply Hinvalid; reflexivity|].
  destruct (register_app_class_registers (E := Demo.externals) Demo.Calc
              Demo.default_empty) as [_ Hvalid].
  destruct (Hvalid eq_refl)
    as (w' & pending & connected & _ & Hrun & Hreg & _ & _ & _ & Hnew & _).
  destruct Hnew as [-> ->]; [reflexivity|].
  exists w'. split; [exact Hrun|]. rewrite Hreg. split.
  - apply lookup_insert_eq.
  - rewrite lookup_insert_ne by discriminate. reflexivity.
Defined.

Lemma Proxy_new_kinds_witness :
  Proxy_new (E := Demo.externals) "Calc" (Some "notebook") []
    Demo.calc_registered
  = (inr 4%positive,
     set_heap (<[4%positive := blank_proxy "Calc" Demo.calc_registered]>
                 (heap Demo.calc_registered)) Demo.calc_registered) ∧
  (∃ w', Proxy_new (E := Demo.externals) "Calc" (Some "<export>") []
           Demo.calc_registered = (inr 4%positive, w') ∧
         AppManager.add_pending_proxy_instance 4%positive w'
           = (inl (RuntimeError AlreadyConnected), w')) ∧
  ProxyM.register_mirrored (E := Demo.externals) 1 Demo.Mirrored
    {| self := blank_proxy "Calc" Demo.calc_registered; chans := Demo.chans0 |}
  = (inr tt, {| self := blank_proxy "Calc" Demo.calc_registered;
                chans := Demo.chans0 |}).
Proof.
  destruct (Proxy_new_kinds (E := Demo.externals) "Calc" [] Demo.calc_registered)
    as (_ & Hplain & Hexport & Hknown).
  split; [|split].
  - apply (Hplain (Some "notebook")). right. by right.
  - destruct Hexport as (w' & Hrun & _ & _ & _ & _ & _ & Hrefused).
    exists w'. split; [exact Hrun|]. apply Hrefused.
    exists (Some Demo.Calc, [1%positive], [2%positive]). apply demo_calc_entry.
  - apply (Hknown Demo.Mirrored 0%nat Demo.chans0).
    + by left.
    + reflexivity.
Defined.
